(** * Resume parser engine: a shallow embedding of [parser_engine.py]

    The development follows the Python module top to bottom: the text
    primitives the module relies on ([str.split], [str.strip], slices),
    a backtracking matcher for the regular expressions it compiles, the
    pattern tables, the field and block extractors, the scorer and
    [ResumeParser.parse_text].  Python exceptions are results of type
    [res]; Python floats are IEEE 754 binary64 values ([spec_float]). *)

From Stdlib Require Import List ZArith NArith Bool Lia String Ascii PeanoNat.
From Stdlib Require Import Floats.SpecFloat.
Import ListNotations.

Set Implicit Arguments.

(** ** Text *)

(** A Python [str] is a sequence of Unicode code points. *)
Definition char := N.
Bind Scope N_scope with char.
Definition pystr := list char.

(** Literals of the source are written with [str]; every literal of the
    module is ASCII except the en dash of [DATE_PATTERN]. *)
Definition str (s : string) : pystr :=
  map N_of_ascii (list_ascii_of_string s).

Definition NL : char := 10%N.
Definition EN_DASH : char := 8211%N.

Definition pystr_eqb (a b : pystr) : bool :=
  if list_eq_dec N.eq_dec a b then true else false.

(** *** Character classification

    [Py_UNICODE_ISSPACE], shared by [str.strip], [str.split] and the
    regex class [\s]. *)
Definition is_space (c : char) : bool :=
  ((9 <=? c) && (c <=? 13) || (28 <=? c) && (c <=? 32)
   || (c =? 133) || (c =? 160) || (c =? 5760)
   || (8192 <=? c) && (c <=? 8202)
   || (c =? 8232) || (c =? 8233) || (c =? 8239) || (c =? 8287)
   || (c =? 12288))%N.

Definition is_ascii (c : char) : bool := (c <? 128)%N.
Definition ascii_digit (c : char) : bool := ((48 <=? c) && (c <=? 57))%N.
Definition ascii_upper (c : char) : bool := ((65 <=? c) && (c <=? 90))%N.
Definition ascii_lower (c : char) : bool := ((97 <=? c) && (c <=? 122))%N.
Definition ascii_letter (c : char) : bool := ascii_upper c || ascii_lower c.

Definition to_lower_ascii (c : char) : char :=
  if ascii_upper c then (c + 32)%N else c.
Definition to_upper_ascii (c : char) : char :=
  if ascii_lower c then (c - 32)%N else c.

(** The Unicode character database is part of the Python runtime, not of
    this repository.  The ASCII rows are written out above; the rows of
    the other code points are a parameter, together with the one fact
    about them the proofs use. *)
Class UnicodeTables := {
  uni_decimal : char -> bool;      (* Py_UNICODE_ISDECIMAL, code points >= 128 *)
  uni_alnum   : char -> bool;      (* Py_UNICODE_ISALNUM,   code points >= 128 *)
  uni_upper   : char -> bool;      (* str.isupper of a one-character string *)
  uni_lower   : pystr -> pystr;    (* str.lower of a string with a non-ASCII character *)
  uni_decimal_not_space :
    forall c, uni_decimal c = true -> is_space c = false
}.

Section Classes.
Context {U : UnicodeTables}.

Definition is_decimal (c : char) : bool :=
  if is_ascii c then ascii_digit c else uni_decimal c.

Definition is_alnum (c : char) : bool :=
  if is_ascii c then ascii_digit c || ascii_letter c else uni_alnum c.

(** The regex class [\w]. *)
Definition is_word (c : char) : bool := is_alnum c || (c =? 95)%N.

Definition is_upper (c : char) : bool :=
  if is_ascii c then ascii_upper c else uni_upper c.

(** [str.lower] *)
Definition py_lower (s : pystr) : pystr :=
  if forallb is_ascii s then map to_lower_ascii s else uni_lower s.

End Classes.

(** [str.capitalize] and [str.title]; the module applies them to the
    keywords of [SKILLS_DB] only, which are ASCII. *)
Definition capitalize (s : pystr) : pystr :=
  match s with
  | [] => []
  | c :: t => to_upper_ascii c :: map to_lower_ascii t
  end.

Fixpoint title_from (prev_cased : bool) (s : pystr) : pystr :=
  match s with
  | [] => []
  | c :: t =>
      (if prev_cased then to_lower_ascii c else to_upper_ascii c)
        :: title_from (ascii_letter c) t
  end.
Definition title (s : pystr) : pystr := title_from false s.

(** *** Splitting, trimming, joining, slicing *)

(** [s.split(sep)] for a one-character separator: never returns []. *)
Fixpoint split_on (sep : char) (s : pystr) : list pystr :=
  match s with
  | [] => [[]]
  | c :: t =>
      if (c =? sep)%N then [] :: split_on sep t
      else match split_on sep t with
           | [] => [[c]]
           | w :: ws => (c :: w) :: ws
           end
  end.

Fixpoint drop_space (s : pystr) : pystr :=
  match s with
  | [] => []
  | c :: t => if is_space c then drop_space t else s
  end.

(** [s.strip()] *)
Definition strip (s : pystr) : pystr :=
  rev (drop_space (rev (drop_space s))).

(** [sep.join(parts)] *)
Fixpoint join (sep : pystr) (parts : list pystr) : pystr :=
  match parts with
  | [] => []
  | [p] => p
  | p :: ps => p ++ sep ++ join sep ps
  end.

(** [s.split()]: the maximal runs of non-whitespace characters. *)
Fixpoint split_ws_from (cur : pystr) (s : pystr) : list pystr :=
  match s with
  | [] => match cur with [] => [] | _ => [rev cur] end
  | c :: t =>
      if is_space c
      then match cur with
           | [] => split_ws_from [] t
           | _ => rev cur :: split_ws_from [] t
           end
      else split_ws_from (c :: cur) t
  end.
Definition split_ws (s : pystr) : list pystr := split_ws_from [] s.

(** [xs[a:b]] for non-negative bounds. *)
Definition slice {A} (a b : nat) (xs : list A) : list A :=
  skipn a (firstn b xs).

(** Truthiness of a string or of a list. *)
Definition nonempty {A} (xs : list A) : bool :=
  match xs with [] => false | _ => true end.

(** ** Exceptions *)

Inductive exn := IndexError | OverflowError | ValueError.

Inductive res (A : Type) :=
| Ok (a : A)
| Raise (e : exn).
Arguments Ok {A} a.
Arguments Raise {A} e.

Definition bind {A B} (m : res A) (f : A -> res B) : res B :=
  match m with
  | Ok a => f a
  | Raise e => Raise e
  end.

Notation "x <- m ;; k" := (bind m (fun x => k))
  (at level 61, m at next level, right associativity).

(** [xs[i]] *)
Definition index {A} (xs : list A) (i : nat) : res A :=
  match nth_error xs i with
  | Some x => Ok x
  | None => Raise IndexError
  end.

(** A [for] loop that builds a list by [append], each round of which may
    raise or contribute some records. *)
Fixpoint collect {A B} (f : A -> res (list B)) (xs : list A) : res (list B) :=
  match xs with
  | [] => Ok []
  | x :: t =>
      here <- f x ;;
      rest <- collect f t ;;
      Ok (here ++ rest)
  end.

(** ** Regular expressions

    The syntax trees below are the parses of the pattern strings of the
    module.  Matching is Python's: leftmost, alternatives in order,
    greedy repetition with backtracking. *)

Inductive citem :=
| CChar (c : char)
| CRange (lo hi : char)
| CDigit          (* \d *)
| CWord           (* \w *)
| CSpace.         (* \s *)

Inductive regex :=
| Eps
| Lit (c : char)
| OneOf (cs : list citem)                    (* [...] and \d \w \s *)
| Bol                                        (* ^ *)
| Eol                                        (* $ *)
| WordB                                      (* \b *)
| Cat (r1 r2 : regex)
| Alt (r1 r2 : regex)
| Rep (lo : nat) (hi : option nat) (r : regex).  (* greedy {lo,hi} *)

Definition Star := Rep 0 None.
Definition Plus := Rep 1 None.
Definition Opt := Rep 0 (Some 1).
Definition Times (n : nat) := Rep n (Some n).

Fixpoint cat (rs : list regex) : regex :=
  match rs with
  | [] => Eps
  | [r] => r
  | r :: t => Cat r (cat t)
  end.

Fixpoint alt (rs : list regex) : regex :=
  match rs with
  | [] => OneOf []
  | [r] => r
  | r :: t => Alt r (alt t)
  end.

(** A literal string, as [re.escape] makes of a keyword. *)
Definition lits (s : pystr) : regex := cat (map Lit s).
Definition word (s : string) : regex := lits (str s).

(** A literal under [re.IGNORECASE].  A cased ASCII letter of the
    pattern matches the code points whose simple lower case is that
    letter, and the equivalents sre adds for i, s and k; other literals
    of the module are uncased and match themselves. *)
Definition ci_extra (lo x : char) : bool :=
  ((lo =? 105) && ((x =? 304) || (x =? 305))
   || (lo =? 115) && (x =? 383)
   || (lo =? 107) && (x =? 8490))%N.

Definition lit_match (ic : bool) (c x : char) : bool :=
  if ic && ascii_letter c
  then let lo := to_lower_ascii c in
       (to_lower_ascii x =? lo)%N || ci_extra lo x
  else (x =? c)%N.

Section Matcher.
Context {U : UnicodeTables}.

Definition in_citem (it : citem) (x : char) : bool :=
  match it with
  | CChar c => (x =? c)%N
  | CRange lo hi => ((lo <=? x) && (x <=? hi))%N
  | CDigit => is_decimal x
  | CWord => is_word x
  | CSpace => is_space x
  end.

(** The sets of the module's case-insensitive patterns hold classes and
    uncased characters only, so the flag does not change them. *)
Definition in_cset (cs : list citem) (x : char) : bool :=
  existsb (fun it => in_citem it x) cs.

Definition word_at (c : option char) : bool :=
  match c with
  | Some x => is_word x
  | None => false
  end.

Section Engine.
Variable A : Type.
Variable ic : bool.

(** [mt r prev s k]: match [r] at the head of [s], where [prev] is the
    character before it ([None] at the start of the subject), and hand
    the rest to the continuation [k]; the first success in backtracking
    order wins.  A round of a repetition has to consume a character (the
    repeated sub-patterns of the module all do), which bounds the number
    of rounds by the length of the subject. *)
Fixpoint mt (r : regex) (prev : option char) (s : pystr)
    (k : option char -> pystr -> option A) {struct r} : option A :=
  match r with
  | Eps => k prev s
  | Lit c =>
      match s with
      | x :: t => if lit_match ic c x then k (Some x) t else None
      | [] => None
      end
  | OneOf cs =>
      match s with
      | x :: t => if in_cset cs x then k (Some x) t else None
      | [] => None
      end
  | Bol => match prev with None => k prev s | Some _ => None end
  | Eol =>
      match s with
      | [] => k prev s
      | [x] => if (x =? NL)%N then k prev s else None
      | _ => None
      end
  | WordB =>
      if xorb (word_at prev) (word_at (hd_error s)) then k prev s else None
  | Cat r1 r2 => mt r1 prev s (fun p t => mt r2 p t k)
  | Alt r1 r2 =>
      match mt r1 prev s k with
      | Some a => Some a
      | None => mt r2 prev s k
      end
  | Rep lo hi r1 =>
      (fix loop (fuel lo : nat) (hi : option nat) (prev : option char)
           (s : pystr) {struct fuel} : option A :=
         let again :=
           match fuel, hi with
           | O, _ => None
           | _, Some O => None
           | S f, _ =>
               mt r1 prev s (fun p t =>
                 if (List.length t <? List.length s)%nat
                 then loop f (pred lo) (option_map pred hi) p t
                 else None)
           end in
         match again with
         | Some a => Some a
         | None => match lo with O => k prev s | S _ => None end
         end) (List.length s) lo hi prev s
  end.

End Engine.

(** The text a successful match at the head of [s] covers. *)
Definition match_here (ic : bool) (r : regex) (prev : option char)
    (s : pystr) : option pystr :=
  match mt ic r prev s (fun _ rest => Some rest) with
  | Some rest => Some (firstn (List.length s - List.length rest) s)
  | None => None
  end.

(** [re.match(r, s, flags)] as a truth value. *)
Definition re_match (ic : bool) (r : regex) (s : pystr) : bool :=
  match match_here ic r None s with Some _ => true | None => false end.

(** [re.search(r, s, flags)]: [m.group()] of the leftmost match. *)
Fixpoint search_from (ic : bool) (r : regex) (prev : option char)
    (s : pystr) : option pystr :=
  match match_here ic r prev s with
  | Some m => Some m
  | None =>
      match s with
      | [] => None
      | x :: t => search_from ic r (Some x) t
      end
  end.
Definition re_search (ic : bool) (r : regex) (s : pystr) : option pystr :=
  search_from ic r None s.

(** [re.findall(r, s)] for a pattern without groups: the texts of the
    successive non-overlapping matches.  [skip] counts the characters of
    the current match still to pass over. *)
Fixpoint findall_from (ic : bool) (r : regex) (prev : option char)
    (s : pystr) (skip : nat) : list pystr :=
  match skip with
  | S n =>
      match s with
      | [] => []
      | x :: t => findall_from ic r (Some x) t n
      end
  | O =>
      match match_here ic r prev s with
      | Some m =>
          m :: match s with
               | [] => []
               | x :: t => findall_from ic r (Some x) t (pred (List.length m))
               end
      | None =>
          match s with
          | [] => []
          | x :: t => findall_from ic r (Some x) t 0
          end
      end
  end.
Definition re_findall (ic : bool) (r : regex) (s : pystr) : list pystr :=
  findall_from ic r None s 0.

(** [re.split(r, s)] for a pattern without groups that matches no empty
    string: the pieces between successive matches.  [cur] is the piece
    being read, reversed. *)
Fixpoint split_from (ic : bool) (r : regex) (prev : option char)
    (s : pystr) (skip : nat) (cur : pystr) : list pystr :=
  match s with
  | [] => [rev cur]
  | x :: t =>
      match skip with
      | S n => split_from ic r (Some x) t n cur
      | O =>
          match match_here ic r prev s with
          | Some (_ :: m) =>
              rev cur :: split_from ic r (Some x) t (List.length m) []
          | _ => split_from ic r (Some x) t 0 (x :: cur)
          end
      end
  end.
Definition re_split (ic : bool) (r : regex) (s : pystr) : list pystr :=
  split_from ic r None s 0 [].

End Matcher.

(** ** Data: the pattern tables *)

Inductive category :=
| Programming | Web | Data | MlAi | CloudDevops | Soft.

Definition SKILLS_DB : list (category * list pystr) :=
  [ (Programming, map str
      [ "python"; "java"; "javascript"; "typescript"; "c++"; "c#"; "c"; "go"; "rust";
        "ruby"; "php"; "swift"; "kotlin"; "scala"; "r"; "matlab"; "perl"; "bash";
        "shell"; "powershell"; "dart"; "elixir"; "haskell"; "lua"; "assembly" ]%string);
    (Web, map str
      [ "html"; "css"; "react"; "angular"; "vue"; "node.js"; "express"; "django";
        "flask"; "fastapi"; "spring"; "asp.net"; "next.js"; "nuxt.js"; "svelte";
        "jquery"; "bootstrap"; "tailwind"; "webpack"; "graphql"; "rest api"; "soap" ]%string);
    (Data, map str
      [ "sql"; "mysql"; "postgresql"; "mongodb"; "redis"; "elasticsearch";
        "cassandra"; "dynamodb"; "oracle"; "sqlite"; "firebase";
        "pandas"; "numpy"; "scipy"; "matplotlib"; "seaborn"; "plotly";
        "tableau"; "power bi"; "excel"; "spark"; "hadoop"; "hive"; "kafka" ]%string);
    (MlAi, map str
      [ "machine learning"; "deep learning"; "neural networks"; "nlp";
        "computer vision"; "tensorflow"; "pytorch"; "keras"; "scikit-learn";
        "xgboost"; "lightgbm"; "hugging face"; "transformers"; "llm"; "bert";
        "gpt"; "reinforcement learning"; "opencv"; "yolo" ]%string);
    (CloudDevops, map str
      [ "aws"; "azure"; "gcp"; "docker"; "kubernetes"; "terraform"; "ansible";
        "jenkins"; "git"; "github"; "gitlab"; "ci/cd"; "linux"; "nginx";
        "apache"; "microservices"; "serverless"; "lambda"; "ec2"; "s3" ]%string);
    (Soft, map str
      [ "leadership"; "communication"; "teamwork"; "problem solving"; "agile";
        "scrum"; "project management"; "critical thinking"; "collaboration";
        "time management"; "presentation"; "mentoring" ]%string) ].

Definition ALL_SKILLS : list pystr := flat_map snd SKILLS_DB.

(** Section labels: the keys of [SECTION_HEADERS], and ["header"]. *)
Inductive label :=
| Header
| Education | Experience | Skills | Projects | Certifications
| Summary | Achievements | Languages | Publications | References.

Definition label_eqb (a b : label) : bool :=
  match a, b with
  | Header, Header | Education, Education | Experience, Experience
  | Skills, Skills | Projects, Projects | Certifications, Certifications
  | Summary, Summary | Achievements, Achievements | Languages, Languages
  | Publications, Publications | References, References => true
  | _, _ => false
  end.

Definition words (ws : list string) : regex := alt (map word ws).

Definition SECTION_HEADERS : list (label * regex) :=
  [ (Education, words ["education"; "academic"; "qualification"; "degree"; "university"; "college"]%string);
    (Experience, words ["experience"; "work history"; "employment"; "career"; "professional background"; "internship"]%string);
    (Skills, words ["skills"; "technical skills"; "competencies"; "technologies"; "tools"; "expertise"; "proficiencies"]%string);
    (Projects, words ["projects"; "portfolio"; "works"; "assignments"; "case studies"]%string);
    (Certifications, words ["certif"; "licenses"; "credentials"; "accreditation"]%string);
    (Summary, words ["summary"; "objective"; "profile"; "about"; "overview"; "introduction"]%string);
    (Achievements, words ["achievements"; "awards"; "honors"; "accomplishments"; "recognition"]%string);
    (Languages, words ["languages"; "language proficiency"]%string);
    (Publications, words ["publications"; "papers"; "research"; "articles"]%string);
    (References, words ["references"; "referees"]%string) ].

(** [\.?] *)
Definition dot : regex := Lit 46.
Definition odot : regex := Opt dot.
Definition digit : regex := OneOf [CDigit].
Definition spaces : regex := Star (OneOf [CSpace]).

Definition DEGREE_PATTERNS : list regex :=
  [ Alt (cat [word "b"; odot; word "tech"]) (word "bachelor of technology");
    Alt (cat [word "b"; odot; word "e"; odot]) (word "bachelor of engineering");
    Alt (cat [word "b"; odot; word "sc"; odot]) (word "bachelor of science");
    Alt (cat [word "b"; odot; word "a"; odot]) (word "bachelor of arts");
    Alt (cat [word "b"; odot; word "com"]) (word "bachelor of commerce");
    Alt (cat [word "m"; odot; word "tech"]) (word "master of technology");
    Alt (cat [word "m"; odot; word "sc"; odot]) (word "master of science");
    Alt (cat [word "m"; odot; word "b"; odot; word "a"]) (word "master of business");
    Alt (cat [word "m"; odot; word "c"; odot; word "a"]) (word "master of computer");
    Alt (cat [word "ph"; odot; word "d"]) (word "doctor of philosophy");
    Alt (word "diploma") (word "associate") ].

(** A month name: the abbreviation, then optionally the rest. *)
Definition month (abbr rest : string) : regex :=
  Cat (word abbr) (Opt (word rest)).

(** Compiled with [re.IGNORECASE | re.VERBOSE]. *)
Definition DATE_PATTERN : regex :=
  alt
    [ cat [ alt [ month "jan" "uary"; month "feb" "ruary"; month "mar" "ch";
                  month "apr" "il"; word "may"; month "jun" "e";
                  month "jul" "y"; month "aug" "ust"; month "sep" "tember";
                  month "oct" "ober"; month "nov" "ember"; month "dec" "ember" ];
            odot; spaces; Times 4 digit ];
      cat [ Rep 1 (Some 2) digit; OneOf [CChar 47; CChar 45]; Times 4 digit ];
      cat [ Times 4 digit; spaces; OneOf [CChar 45; CChar EN_DASH]; spaces;
            alt [ Times 4 digit; word "present"; word "current"; word "now";
                  word "ongoing" ] ];
      Times 4 digit ].

(** [[a-zA-Z0-9._%+\-]+@[a-zA-Z0-9.\-]+\.[a-zA-Z]{2,}] *)
Definition EMAIL_PATTERN : regex :=
  cat [ Plus (OneOf [CRange 97 122; CRange 65 90; CRange 48 57; CChar 46;
                  CChar 95; CChar 37; CChar 43; CChar 45]);
        Lit 64;
        Plus (OneOf [CRange 97 122; CRange 65 90; CRange 48 57; CChar 46;
                  CChar 45]);
        dot;
        Rep 2 None (OneOf [CRange 97 122; CRange 65 90]) ].

(** [[\-\s]] *)
Definition dash_or_space : regex := OneOf [CChar 45; CSpace].

Definition PHONE_PATTERNS : list regex :=
  [ (* (?:\+91[\-\s]?)?[6-9]\d{9} *)
    cat [ Opt (cat [Lit 43; word "91"; Opt dash_or_space]);
          OneOf [CRange 54 57]; Times 9 digit ];
    (* (?:\+1[\-\s]?)?\(?\d{3}\)?[\-\s]\d{3}[\-\s]\d{4} *)
    cat [ Opt (cat [Lit 43; word "1"; Opt dash_or_space]);
          Opt (Lit 40); Times 3 digit; Opt (Lit 41); dash_or_space;
          Times 3 digit; dash_or_space; Times 4 digit ];
    (* (?:\+\d{1,3}[\-\s]?)?\d{10,14} *)
    cat [ Opt (cat [Lit 43; Rep 1 (Some 3) digit; Opt dash_or_space]);
          Rep 10 (Some 14) digit ] ].

(** [[\w\-]+] *)
Definition handle : regex := Plus (OneOf [CWord; CChar 45]).

(** [linkedin\.com/in/[\w\-]+] *)
Definition LINKEDIN_PATTERN : regex :=
  cat [word "linkedin"; dot; word "com/in/"; handle].

(** [github\.com/[\w\-]+] *)
Definition GITHUB_PATTERN : regex :=
  cat [word "github"; dot; word "com/"; handle].

(** The [ignore] pattern of [extract_name]. *)
Definition NAME_IGNORE : regex :=
  alt [ word "resume"; word "curriculum"; word "vitae"; word "cv";
        word "email"; word "phone"; word "linkedin"; word "github";
        Lit 64; word "http"; word "www"; Times 10 digit ].

(** [r"\b" + re.escape(skill) + r"\b"] *)
Definition skill_pattern (skill : pystr) : regex :=
  cat [WordB; lits skill; WordB].

(** [r"^" + pattern + r"[\s:]*$"] *)
Definition heading_pattern (pattern : regex) : regex :=
  cat [Bol; pattern; Star (OneOf [CSpace; CChar 58]); Eol].

(** [r"\n{2,}"] *)
Definition BLANK_GAP : regex := Rep 2 None (Lit NL).

(** ** Records of the result *)

Module Contact.
Record t := {
  name : option pystr;
  email : option pystr;
  phone : option pystr;
  linkedin : option pystr;
  github : option pystr
}.
End Contact.

Module Edu.
Record t := { degree : pystr; institution : pystr; dates : list pystr }.
End Edu.

Module Exp.
Record t := {
  title : pystr;
  company : pystr;
  dates : list pystr;
  description : pystr
}.
End Exp.

Module Proj.
Record t := {
  name : pystr;
  description : pystr;
  technologies : list pystr
}.
End Proj.

Module Meta.
Record t := { parsed_at : pystr; word_count : nat }.
End Meta.

(** The [sections] dict: insertion ordered, assignment to a key already
    present replaces its value in place. *)
Definition dict := list (label * pystr).

Fixpoint dict_set (d : dict) (k : label) (v : pystr) : dict :=
  match d with
  | [] => [(k, v)]
  | (k', v') :: t =>
      if label_eqb k' k then (k', v) :: t else (k', v') :: dict_set t k v
  end.

Fixpoint dict_find (d : dict) (k : label) : option pystr :=
  match d with
  | [] => None
  | (k', v) :: t => if label_eqb k' k then Some v else dict_find t k
  end.

(** [d.get(k, default)] *)
Definition dict_get (d : dict) (k : label) (default : pystr) : pystr :=
  match dict_find d k with
  | Some v => v
  | None => default
  end.

(** The dict [parsed] as [parse_text] builds it, before the two keys
    ["score"] and ["skill_count"] are added. *)
Record Parsed := {
  meta : Meta.t;
  contact : Contact.t;
  summary : pystr;
  skills : list (category * list pystr);
  experience : list Exp.t;
  education : list Edu.t;
  projects : list Proj.t;
  certifications : pystr;
  languages : pystr;
  achievements : pystr;
  raw_sections : dict
}.

Record ParsedResume := {
  fields : Parsed;
  score : Z;
  skill_count : nat
}.

(** ** Python numbers

    [calculate_score] mixes [int] and [float]: a float is a binary64
    value, an operation with one float operand converts the other. *)

Definition prec : Z := 53.
Definition emax : Z := 1024.

Inductive pynum :=
| PInt (z : Z)
| PFloat (f : spec_float).

(** [float(z)]: the nearest binary64, ties to even; too large an [int]
    raises. *)
Definition float_of_int (z : Z) : res spec_float :=
  match binary_normalize prec emax z 0 false with
  | S754_infinity _ => Raise OverflowError
  | f => Ok f
  end.

(** The float a decimal literal [num/den] denotes: the binary64 nearest
    to the quotient. *)
Definition float_literal (num den : Z) : spec_float :=
  SFdiv prec emax (binary_normalize prec emax num 0 false)
                  (binary_normalize prec emax den 0 false).

Definition to_float (x : pynum) : res spec_float :=
  match x with
  | PInt z => float_of_int z
  | PFloat f => Ok f
  end.

Definition py_add (x y : pynum) : res pynum :=
  match x, y with
  | PInt a, PInt b => Ok (PInt (a + b))
  | _, _ =>
      a <- to_float x ;;
      b <- to_float y ;;
      Ok (PFloat (SFadd prec emax a b))
  end.

Definition py_mul (x y : pynum) : res pynum :=
  match x, y with
  | PInt a, PInt b => Ok (PInt (a * b))
  | _, _ =>
      a <- to_float x ;;
      b <- to_float y ;;
      Ok (PFloat (SFmul prec emax a b))
  end.

(** [x < y]; the mixed comparisons of the module have the [int] 100 on
    one side, which converts exactly. *)
Definition py_lt (x y : pynum) : res bool :=
  match x, y with
  | PInt a, PInt b => Ok (a <? b)%Z
  | _, _ =>
      a <- to_float x ;;
      b <- to_float y ;;
      Ok (SFltb a b)
  end.

(** [min(x, y)]: the second argument replaces the first when it is
    smaller. *)
Definition py_min (x y : pynum) : res pynum :=
  b <- py_lt y x ;;
  Ok (if b then y else x).

(** The integer nearest to [m / 2^sh], ties to even. *)
Definition round_half_even (m sh : Z) : Z :=
  let q := (m / 2 ^ sh)%Z in
  let r := (m mod 2 ^ sh)%Z in
  let half := (2 ^ (sh - 1))%Z in
  if (r <? half)%Z then q
  else if (half <? r)%Z then (q + 1)%Z
  else if Z.even q then q else (q + 1)%Z.

(** [round(x)] with one argument: an [int]. *)
Definition py_round (x : pynum) : res Z :=
  match x with
  | PInt z => Ok z
  | PFloat (S754_zero _) => Ok 0%Z
  | PFloat (S754_infinity _) => Raise OverflowError
  | PFloat S754_nan => Raise ValueError
  | PFloat (S754_finite s m e) =>
      let v := if (0 <=? e)%Z then (Zpos m * 2 ^ e)%Z
               else round_half_even (Zpos m) (- e) in
      Ok (if s then (- v)%Z else v)
  end.

Definition is_some {A} (o : option A) : bool :=
  match o with Some _ => true | None => false end.

(** Truthiness of an optional string: neither [None] nor empty. *)
Definition truthy (o : option pystr) : bool :=
  match o with Some s => nonempty s | None => false end.

(** ** Extractor helpers *)

Section Extractors.
Context {U : UnicodeTables}.

(** The optional spaCy pipeline: [None] when [NLP_SUPPORT] is false,
    otherwise [nlp], from a text to the [(label_, text)] of its
    entities. *)
Variable ner : option (pystr -> list (pystr * pystr)).

Definition extract_email (text : pystr) : res (option pystr) :=
  let matches := re_findall false EMAIL_PATTERN text in
  if nonempty matches
  then m <- index matches 0 ;; Ok (Some m)
  else Ok None.

Fixpoint first_phone (patterns : list regex) (text : pystr) : option pystr :=
  match patterns with
  | [] => None
  | p :: t =>
      match re_search false p text with
      | Some m => Some (strip m)
      | None => first_phone t text
      end
  end.

Definition extract_phone (text : pystr) : option pystr :=
  first_phone PHONE_PATTERNS text.

Definition https (m : pystr) : pystr := str "https://" ++ m.

Definition extract_linkedin (text : pystr) : option pystr :=
  option_map https (re_search true LINKEDIN_PATTERN text).

Definition extract_github (text : pystr) : option pystr :=
  option_map https (re_search true GITHUB_PATTERN text).

(** [[l.strip() for l in text.split("\n") if l.strip()]] *)
Definition nonblank_lines (text : pystr) : list pystr :=
  map strip (filter (fun l => nonempty (strip l)) (split_on NL text)).

Fixpoint first_person (ents : list (pystr * pystr)) : option pystr :=
  match ents with
  | [] => None
  | (label_, txt) :: t =>
      if pystr_eqb label_ (str "PERSON") then Some (strip txt)
      else first_person t
  end.

(** [all(w[0].isupper() for w in words if w)] *)
Fixpoint all_initial_upper (ws : list pystr) : res bool :=
  match ws with
  | [] => Ok true
  | w :: t =>
      if nonempty w
      then c <- index w 0 ;;
           if is_upper c then all_initial_upper t else Ok false
      else all_initial_upper t
  end.

Fixpoint name_scan (lines : list pystr) : res (option pystr) :=
  match lines with
  | [] => Ok None
  | line :: t =>
      let ws := split_ws line in
      if (1 <? List.length ws)%nat && (List.length ws <=? 5)%nat
         && negb (is_some (re_search true NAME_IGNORE line))
      then up <- all_initial_upper ws ;;
           if up then Ok (Some line) else name_scan t
      else name_scan t
  end.

Definition extract_name (text : pystr) : res (option pystr) :=
  let person :=
    match ner with
    | Some nlp => first_person (nlp (firstn 500 text))
    | None => None
    end in
  match person with
  | Some p => Ok (Some p)
  | None => name_scan (firstn 6 (nonblank_lines text))
  end.

(** [skill.title() if len(skill) <= 3 else skill.capitalize()] *)
Definition display (skill : pystr) : pystr :=
  if (List.length skill <=? 3)%nat then title skill else capitalize skill.

Definition extract_skills (text : pystr) : list (category * list pystr) :=
  let text_lower := py_lower text in
  let found :=
    map (fun cs : category * list pystr =>
           (fst cs,
            map display
              (filter (fun skill =>
                         is_some (re_search false (skill_pattern skill) text_lower))
                      (snd cs))))
        SKILLS_DB in
  filter (fun kv => nonempty (snd kv)) found.

(** The first label of [SECTION_HEADERS] whose pattern the stripped line
    matches as a heading. *)
Fixpoint first_heading (hs : list (label * regex)) (stripped : pystr)
    : option label :=
  match hs with
  | [] => None
  | (sec, pattern) :: t =>
      if re_match true (heading_pattern pattern) stripped then Some sec
      else first_heading t stripped
  end.

Definition matched_section (line : pystr) : option label :=
  first_heading SECTION_HEADERS (strip line).

(** The state of the loop of [extract_sections]. *)
Record split_state := {
  sections : dict;
  current : label;
  buffer : list pystr
}.

Definition flush (st : split_state) : dict :=
  dict_set (sections st) (current st) (strip (join [NL] (buffer st))).

Definition sections_step (st : split_state) (line : pystr) : split_state :=
  match matched_section line with
  | Some sec => {| sections := flush st; current := sec; buffer := [] |}
  | None =>
      {| sections := sections st; current := current st;
         buffer := buffer st ++ [line] |}
  end.

Definition extract_sections (text : pystr) : dict :=
  flush (fold_left sections_step (split_on NL text)
           {| sections := []; current := Header; buffer := [] |}).

Definition degree_line (line : pystr) : bool :=
  existsb (fun deg => is_some (re_search true deg line)) DEGREE_PATTERNS.

Definition education_at (lines : list pystr) (i : nat) (line : pystr)
    : res (list Edu.t) :=
  if degree_line line then
    let context := join (str " ") (slice (Nat.max 0 (i - 1)) (i + 3) lines) in
    let dates := re_findall true DATE_PATTERN context in
    inst <- (if (i + 1 <? List.length lines)%nat
             then index lines (i + 1) else Ok []) ;;
    Ok [ {| Edu.degree := line; Edu.institution := inst; Edu.dates := dates |} ]
  else Ok [].

Definition extract_education (text : pystr) : res (list Edu.t) :=
  let lines := nonblank_lines text in
  collect (fun il => education_at lines (fst il) (snd il))
          (combine (seq 0 (List.length lines)) lines).

Definition experience_of_block (block : pystr) : res (list Exp.t) :=
  if negb (nonempty (strip block)) then Ok []
  else
    let dates := re_findall true DATE_PATTERN block in
    let lines := nonblank_lines block in
    if nonempty dates && nonempty lines then
      t <- index lines 0 ;;
      c <- (if (1 <? List.length lines)%nat then index lines 1 else Ok []) ;;
      Ok [ {| Exp.title := t;
              Exp.company := c;
              Exp.dates := dates;
              Exp.description :=
                if (2 <? List.length lines)%nat
                then join [NL] (skipn 2 lines) else [] |} ]
    else Ok [].

Definition extract_experience (text : pystr) : res (list Exp.t) :=
  collect experience_of_block (re_split false BLANK_GAP text).

(** The keywords of [ALL_SKILLS] found in [desc], capitalised. *)
Definition techs_of (desc : pystr) : list pystr :=
  map capitalize
      (filter (fun skill => is_some (re_search true (skill_pattern skill) desc))
              ALL_SKILLS).

Definition project_of_block (block : pystr) : res (list Proj.t) :=
  let lines := nonblank_lines block in
  if nonempty lines then
    let desc := join [NL] (skipn 1 lines) in
    let techs := techs_of desc in
    n <- index lines 0 ;;
    Ok [ {| Proj.name := n;
            Proj.description := firstn 300 desc;
            Proj.technologies := firstn 8 techs |} ]
  else Ok [].

Definition extract_projects (text : pystr) : res (list Proj.t) :=
  results <- collect project_of_block (re_split false BLANK_GAP text) ;;
  Ok (firstn 5 results).

(** [sum(len(v) for v in skills.values())] *)
Definition skills_total (sk : list (category * list pystr)) : nat :=
  list_sum (map (fun kv => List.length (snd kv)) sk).

Definition weights_contact : pynum := PInt 20.
Definition weights_summary : Z := 10.
Definition weights_skills : Z := 25.
Definition weights_experience : Z := 25.
Definition weights_education : Z := 15.
Definition weights_projects : Z := 5.

(** [score += weights["contact"] * share] when the field is truthy. *)
Definition add_contact (field : option pystr) (share : spec_float)
    (score : pynum) : res pynum :=
  if truthy field
  then part <- py_mul weights_contact (PFloat share) ;; py_add score part
  else Ok score.

Definition calculate_score (parsed : Parsed) : res Z :=
  let score := PInt 0 in
  let max_score := PInt 100 in
  let c := contact parsed in
  score <- add_contact (Contact.email c) (float_literal 4 10) score ;;
  score <- add_contact (Contact.phone c) (float_literal 3 10) score ;;
  score <- add_contact (Contact.linkedin c) (float_literal 3 10) score ;;
  score <- (if nonempty (summary parsed)
            then py_add score (PInt weights_summary) else Ok score) ;;
  let skills_flat := Z.of_nat (skills_total (skills parsed)) in
  score <- py_add score (PInt (Z.min weights_skills (skills_flat * 2))) ;;
  let exp := experience parsed in
  score <- py_add score
             (PInt (Z.min weights_experience (Z.of_nat (List.length exp) * 8))) ;;
  let edu := education parsed in
  score <- py_add score
             (PInt (Z.min weights_education (Z.of_nat (List.length edu) * 7))) ;;
  let proj := projects parsed in
  score <- py_add score
             (PInt (Z.min weights_projects (Z.of_nat (List.length proj) * 2))) ;;
  capped <- py_min score max_score ;;
  py_round capped.

(** ** [ResumeParser.parse_text]

    [now] is [datetime.now().isoformat()], read when the call runs. *)

(** [sections.get("header", text[:1000])]; [parse_text] binds it to
    [header_text] and does not read it again. *)
Definition header_text (text : pystr) : pystr :=
  dict_get (extract_sections text) Header (firstn 1000 text).

Definition parse_text (now : pystr) (text : pystr) : res ParsedResume :=
  let sections := extract_sections text in
  let header_text := header_text text in
  let skills_text := dict_get sections Skills [] ++ [NL] ++ text in
  let exp_text := dict_get sections Experience [] in
  let edu_text := dict_get sections Education [] in
  let proj_text := dict_get sections Projects [] in
  nm <- extract_name text ;;
  em <- extract_email text ;;
  exps <- (if nonempty exp_text then extract_experience exp_text else Ok []) ;;
  edus <- (if nonempty edu_text then extract_education edu_text
           else extract_education text) ;;
  projs <- (if nonempty proj_text then extract_projects proj_text else Ok []) ;;
  let parsed :=
    {| meta := {| Meta.parsed_at := now;
                  Meta.word_count := List.length (split_ws text) |};
       contact := {| Contact.name := nm;
                     Contact.email := em;
                     Contact.phone := extract_phone text;
                     Contact.linkedin := extract_linkedin text;
                     Contact.github := extract_github text |};
       summary := dict_get sections Summary [];
       skills := extract_skills skills_text;
       experience := exps;
       education := edus;
       projects := projs;
       certifications := dict_get sections Certifications [];
       languages := dict_get sections Languages [];
       achievements := dict_get sections Achievements [];
       raw_sections := map (fun kv => (fst kv, firstn 500 (snd kv))) sections |} in
  sc <- calculate_score parsed ;;
  Ok {| fields := parsed;
        score := sc;
        skill_count := skills_total (skills parsed) |}.

End Extractors.

(** ** A table for running the code

    The rows of the Latin-1 Supplement block.  Code points above U+00FF
    are left unclassified here; the examples below stay within ASCII and
    the en dash, and the theorems hold for every table. *)

Definition latin1_alnum (c : char) : bool :=
  ((c =? 170) || (c =? 178) || (c =? 179) || (c =? 181) || (c =? 185)
   || (c =? 186) || (188 <=? c) && (c <=? 190)
   || (192 <=? c) && (c <=? 214) || (216 <=? c) && (c <=? 246)
   || (248 <=? c) && (c <=? 255))%N.

Definition latin1_upper (c : char) : bool :=
  ((192 <=? c) && (c <=? 214) || (216 <=? c) && (c <=? 222))%N.

Definition latin1_lower (s : pystr) : pystr :=
  map (fun c => if latin1_upper c then (c + 32)%N else to_lower_ascii c) s.

#[export] Instance latin1_tables : UnicodeTables := {|
  uni_decimal := fun _ => false;
  uni_alnum := latin1_alnum;
  uni_upper := latin1_upper;
  uni_lower := latin1_lower;
  uni_decimal_not_space := fun c (H : false = true) =>
    match Bool.diff_false_true H return is_space c = false with end
|}.

(** [unlines [l1; l2; ...]]: the text with these lines. *)
Definition unlines (ls : list string) : pystr := join [NL] (map str ls).

(** ** Specification-side definitions *)

(** The score as the scoring table states it, over the integers. *)
Definition b2z (b : bool) : Z := if b then 1%Z else 0%Z.

Definition contact_points (c : Contact.t) : Z :=
  (8 * b2z (truthy (Contact.email c))
   + 6 * b2z (truthy (Contact.phone c))
   + 6 * b2z (truthy (Contact.linkedin c)))%Z.

Definition score_table (p : Parsed) : Z :=
  (contact_points (contact p)
   + 10 * b2z (nonempty (summary p))
   + Z.min 25 (2 * Z.of_nat (skills_total (skills p)))
   + Z.min 25 (8 * Z.of_nat (List.length (experience p)))
   + Z.min 15 (7 * Z.of_nat (List.length (education p)))
   + Z.min 5 (2 * Z.of_nat (List.length (projects p))))%Z.

(** The binary64 value of a small integer, and the integers [0..n]. *)
Definition Zfloat (z : Z) : spec_float := binary_normalize prec emax z 0 false.

Definition upto (n : nat) : list Z := map Z.of_nat (seq 0 (S n)).

Definition sf_eqb (a b : spec_float) : bool :=
  match a, b with
  | S754_zero s, S754_zero t => Bool.eqb s t
  | S754_infinity s, S754_infinity t => Bool.eqb s t
  | S754_nan, S754_nan => true
  | S754_finite s m e, S754_finite t n f =>
      Bool.eqb s t && Pos.eqb m n && Z.eqb e f
  | _, _ => false
  end.

(** A running score [x] stands for the integer [z]. *)
Definition stands_for (x : pynum) (z : Z) : Prop :=
  x = PInt z \/ x = PFloat (Zfloat z).

(** The sections of a text as the splitter's contract describes them: a
    segment for the header and one for each heading line, each holding
    the lines up to the next heading. *)
Section Segments.
Context {U : UnicodeTables}.

Definition is_heading (line : pystr) : bool := is_some (matched_section line).

(** The lines before the first heading line. *)
Fixpoint block_of (lines : list pystr) : list pystr :=
  match lines with
  | [] => []
  | l :: t => if is_heading l then [] else l :: block_of t
  end.

(** The segments the heading lines open, in order. *)
Fixpoint later_segments (lines : list pystr) : list (label * list pystr) :=
  match lines with
  | [] => []
  | l :: t =>
      match matched_section l with
      | Some sec => (sec, block_of t) :: later_segments t
      | None => later_segments t
      end
  end.

Definition segments (lines : list pystr) : list (label * list pystr) :=
  (Header, block_of lines) :: later_segments lines.

(** The text stored for a segment. *)
Definition block_text (block : list pystr) : pystr := strip (join [NL] block).

Definition store (d : dict) (seg : label * list pystr) : dict :=
  dict_set d (fst seg) (block_text (snd seg)).

(** The lines of the last segment labelled [lab]. *)
Fixpoint last_block (lab : label) (segs : list (label * list pystr))
    : option (list pystr) :=
  match segs with
  | [] => None
  | (k, b) :: t =>
      match last_block lab t with
      | Some b' => Some b'
      | None => if label_eqb k lab then Some b else None
      end
  end.

(** The lines found in the stored sections, section after section. *)
Definition stored_lines (d : dict) : list pystr :=
  flat_map (fun kv => split_on NL (snd kv)) d.

End Segments.

(** A result with the timestamp of its [meta] replaced. *)
Definition with_parsed_at (t : pystr) (r : ParsedResume) : ParsedResume :=
  let p := fields r in
  {| fields :=
       {| meta := {| Meta.parsed_at := t;
                     Meta.word_count := Meta.word_count (meta p) |};
          contact := contact p;
          summary := summary p;
          skills := skills p;
          experience := experience p;
          education := education p;
          projects := projects p;
          certifications := certifications p;
          languages := languages p;
          achievements := achievements p;
          raw_sections := raw_sections p |};
     score := score r;
     skill_count := skill_count r |}.

(** Texts of the examples. *)
Definition two_sections_text : pystr :=
  unlines ["Jane Doe"; "Education"; "MIT"]%string.

Definition repeated_heading_text : pystr :=
  unlines ["Jane Doe"; "Education"; "MIT 2020"; "Skills"; "Python";
           "Education"; "Stanford 2022"]%string.

Definition long_plain_text : pystr := repeat 97%N 1200.

(** A pattern every match of which holds a decimal digit: a syntactic
    sufficient condition. *)
Fixpoint needs_digit (r : regex) : bool :=
  match r with
  | OneOf [CDigit] => true
  | Cat r1 r2 => needs_digit r1 || needs_digit r2
  | Alt r1 r2 => needs_digit r1 && needs_digit r2
  | Rep (S _) _ r1 => needs_digit r1
  | _ => false
  end.

(** The experience and project records of one block, as the extractors'
    contracts describe them. *)
Section Records.
Context {U : UnicodeTables}.

Definition has_digit (s : pystr) : bool := existsb is_decimal s.
Definition has_ink (s : pystr) : bool := existsb (fun c => negb (is_space c)) s.

Definition experience_record (block : pystr) : list Exp.t :=
  match re_findall true DATE_PATTERN block with
  | [] => []
  | dates =>
      let lines := nonblank_lines block in
      [ {| Exp.title := nth 0 lines [];
           Exp.company := nth 1 lines [];
           Exp.dates := dates;
           Exp.description :=
             if (List.length lines <=? 2)%nat then []
             else join [NL] (skipn 2 lines) |} ]
  end.

Definition project_record (block : pystr) : list Proj.t :=
  match nonblank_lines block with
  | [] => []
  | n :: rest =>
      let desc := join [NL] rest in
      [ {| Proj.name := n;
           Proj.description := firstn 300 desc;
           Proj.technologies := firstn 8 (techs_of desc) |} ]
  end.

End Records.

(** A project whose description names its technology after 300 filler
    characters. *)
Definition late_technology_text : pystr :=
  join [NL] [str "Parser"; repeat 120%N 300; str "python"].

(** Two blocks, three newlines apart; only the first holds dates. *)
Definition dated_job_text : pystr :=
  unlines ["Engineer"; "Acme Corp"; "2019 - 2021, Jan 2020"; "Built parsers";
           ""; ""; "Volunteer"; "Local shelter"]%string.

(** ** What a pattern can match

    The strings a pattern matches, position apart: anchors and word
    boundaries consume nothing.  A repetition is unrolled the way the
    matcher runs it. *)

Section Language.
Context {U : UnicodeTables}.
Variable ic : bool.

Inductive lang : regex -> pystr -> Prop :=
| lang_eps : lang Eps []
| lang_lit c x : lit_match ic c x = true -> lang (Lit c) [x]
| lang_set cs x : in_cset cs x = true -> lang (OneOf cs) [x]
| lang_bol : lang Bol []
| lang_eol : lang Eol []
| lang_wordb : lang WordB []
| lang_cat r1 r2 w1 w2 :
    lang r1 w1 -> lang r2 w2 -> lang (Cat r1 r2) (w1 ++ w2)
| lang_alt_l r1 r2 w : lang r1 w -> lang (Alt r1 r2) w
| lang_alt_r r1 r2 w : lang r2 w -> lang (Alt r1 r2) w
| lang_rep_stop hi r : lang (Rep 0 hi r) []
| lang_rep_more lo hi r w1 w2 :
    hi <> Some 0%nat ->
    lang r w1 ->
    lang (Rep (pred lo) (option_map pred hi) r) w2 ->
    lang (Rep lo hi r) (w1 ++ w2).

(** Whether a one-character pattern accepts [x]. *)
Definition atom_matches (a : regex) (x : char) : bool :=
  match a with
  | Lit c => lit_match ic c x
  | OneOf cs => in_cset cs x
  | _ => false
  end.

End Language.

(** The least number of characters of a match. *)
Fixpoint min_len (r : regex) : nat :=
  match r with
  | Lit _ | OneOf _ => 1
  | Cat r1 r2 => min_len r1 + min_len r2
  | Alt r1 r2 => Nat.min (min_len r1) (min_len r2)
  | Rep lo _ r1 => lo * min_len r1
  | _ => 0
  end.

(** Every match passes through a one-character pattern that [atom]
    accepts. *)
Fixpoint forces (atom : regex -> bool) (r : regex) : bool :=
  match r with
  | Lit _ | OneOf _ => atom r
  | Cat r1 r2 => forces atom r1 || forces atom r2
  | Alt r1 r2 => forces atom r1 && forces atom r2
  | Rep (S _) _ r1 => forces atom r1
  | _ => false
  end.

(** Every one-character pattern of [r] is accepted by [atom]. *)
Fixpoint atoms_all (atom : regex -> bool) (r : regex) : bool :=
  match r with
  | Lit _ | OneOf _ => atom r
  | Cat r1 r2 | Alt r1 r2 => atoms_all atom r1 && atoms_all atom r2
  | Rep _ _ r1 => atoms_all atom r1
  | _ => true
  end.

(** [m] occurs in [s]. *)
Definition infix (m s : pystr) : Prop :=
  exists pre post, s = pre ++ m ++ post.

Definition is_lit (c : char) (a : regex) : bool :=
  match a with Lit c' => (c' =? c)%N | _ => false end.

Definition is_digit_set (a : regex) : bool :=
  match a with OneOf [CDigit] => true | _ => false end.

(** The characters an address may hold: ASCII letters and digits, and
    [. _ % + - @]. *)
Definition email_char (c : char) : bool :=
  ascii_digit c || ascii_letter c
  || (c =? 46)%N || (c =? 95)%N || (c =? 37)%N || (c =? 43)%N
  || (c =? 45)%N || (c =? 64)%N.

Definition email_item (it : citem) : bool :=
  match it with
  | CChar c => email_char c
  | CRange lo hi =>
      ((48 <=? lo) && (hi <=? 57) || (65 <=? lo) && (hi <=? 90)
       || (97 <=? lo) && (hi <=? 122))%N
  | _ => false
  end.

Definition email_atom (a : regex) : bool :=
  match a with
  | Lit c => email_char c && negb (ascii_letter c)
  | OneOf cs => forallb email_item cs
  | _ => false
  end.

(** The text of the specification's example. *)
Definition sample_resume : pystr :=
  unlines ["John Smith"; "john@example.com"; "+1 415-555-0100";
           "linkedin.com/in/johnsmith"; ""; "SKILLS";
           "Python, Docker, Leadership"]%string.

(** No string occurs twice in the list. *)
Fixpoint distinctb (xs : list pystr) : bool :=
  match xs with
  | [] => true
  | x :: t => negb (existsb (pystr_eqb x) t) && distinctb t
  end.

(** The education record of the line [snd il] at index [fst il] of
    [lines], when it names a degree. *)
Section EducationRecord.
Context {U : UnicodeTables}.

Definition education_record (lines : list pystr) (il : nat * pystr)
    : list Edu.t :=
  if degree_line (snd il) then
    [ {| Edu.degree := snd il;
         Edu.institution := nth (fst il + 1) lines [];
         Edu.dates :=
           re_findall true DATE_PATTERN
             (join (str " ")
                (slice (Nat.max 0 (fst il - 1)) (fst il + 3) lines)) |} ]
  else [].

End EducationRecord.

Section SkillRows.
Context {U : UnicodeTables}.

(** The hits of [extract_skills] in one row of [SKILLS_DB]. *)
Definition hits (text_lower : pystr) (cs : category * list pystr)
    : category * list pystr :=
  (fst cs,
   map display
     (filter (fun skill =>
                is_some (re_search false (skill_pattern skill) text_lower))
             (snd cs))).

End SkillRows.

(** The length of the run of newlines at the head of [s]. *)
Fixpoint newline_run (s : pystr) : nat :=
  match s with
  | c :: t => if (c =? NL)%N then S (newline_run t) else 0
  | [] => 0
  end.

(** [app.py]: the upload filter. *)
Definition ALLOWED_EXTENSIONS : list pystr :=
  map str ["pdf"; "docx"; "txt"]%string.

Definition DOT : char := 46%N.

(** The characters before the first [sep] of [s] and those after it. *)
Fixpoint break_at (sep : char) (s : pystr) : option (pystr * pystr) :=
  match s with
  | [] => None
  | c :: t =>
      if (c =? sep)%N then Some ([], t)
      else match break_at sep t with
           | Some (a, b) => Some (c :: a, b)
           | None => None
           end
  end.

(** [s.rsplit(sep, 1)] for a one-character separator: split at the last
    [sep], if there is one. *)
Definition rsplit1 (sep : char) (s : pystr) : list pystr :=
  match break_at sep (rev s) with
  | Some (after, before) => [rev before; rev after]
  | None => [s]
  end.

Section AllowedFile.
Context {U : UnicodeTables}.

(** [allowed_file]: a dot in the name, and the lower-cased text after
    the last dot among the allowed extensions. *)
Definition allowed_file (filename : pystr) : res bool :=
  if existsb (fun c => (c =? DOT)%N) filename
  then ext <- index (rsplit1 DOT filename) 1 ;;
       Ok (existsb (pystr_eqb (py_lower ext)) ALLOWED_EXTENSIONS)
  else Ok false.

End AllowedFile.

(** Two characters that differ at most in the case of an ASCII letter,
    and two lines that differ at most so. *)
Definition same_letter (x y : char) : Prop :=
  to_lower_ascii x = to_lower_ascii y.

Definition same_letters (a b : pystr) : Prop := Forall2 same_letter a b.

(** A set whose membership does not depend on the case of an ASCII
    letter: classes, and characters that are not letters. *)
Definition case_blind_item (it : citem) : bool :=
  match it with
  | CChar c => negb (ascii_letter c)
  | CRange _ _ => false
  | _ => true
  end.

Definition case_blind_atom (a : regex) : bool :=
  match a with
  | OneOf cs => forallb case_blind_item cs
  | _ => true
  end.

(** Agreement of two results of the matcher: both fail or both
    succeed. *)
Definition both {A B} (o1 : option A) (o2 : option B) : Prop :=
  match o1, o2 with
  | Some _, Some _ => True
  | None, None => True
  | _, _ => False
  end.

Definition same_prev (p q : option char) : Prop :=
  match p, q with
  | Some x, Some y => same_letter x y
  | None, None => True
  | _, _ => False
  end.

Definition skill_case_text : pystr := str "Built with PYTHON and docker".
Definition skill_case_text' : pystr := str "built with Python and Docker".

(** A blank text: ASCII white space only. *)
Definition blank (s : pystr) : bool :=
  forallb (fun c => is_space c && is_ascii c) s.

(** A one-character pattern that accepts no white space: a literal that
    is not white space, or a set of such characters and digits. *)
Definition inky_item (it : citem) : bool :=
  match it with
  | CChar c => negb (is_space c)
  | CRange lo hi => ((33 <=? lo) && (hi <=? 126))%N
  | CDigit => true
  | _ => false
  end.

Definition inky_atom (a : regex) : bool :=
  match a with
  | Lit c => negb (is_space c)
  | OneOf cs => forallb inky_item cs
  | _ => false
  end.

(** The result for a text in which nothing is found. *)
Definition empty_result (now : pystr) : ParsedResume :=
  {| fields :=
       {| meta := {| Meta.parsed_at := now; Meta.word_count := 0 |};
          contact := {| Contact.name := None;
                        Contact.email := None;
                        Contact.phone := None;
                        Contact.linkedin := None;
                        Contact.github := None |};
          summary := [];
          skills := [];
          experience := [];
          education := [];
          projects := [];
          certifications := [];
          languages := [];
          achievements := [];
          raw_sections := [(Header, [])] |};
     score := 0;
     skill_count := 0 |}.

Definition blank_pages_text : pystr := [NL; 32; 9; NL; NL]%N.

(** ** Reading a file: [ResumeParser.parse] *)

Definition SLASH : char := 47%N.

(** [s.rfind(c)]: the index of the last [c] of [s], [-1] without one. *)
Definition rfind (c : char) (s : pystr) : Z :=
  match break_at c (rev s) with
  | Some (_, before) => Z.of_nat (List.length before)
  | None => (-1)%Z
  end.

(** [os.path.splitext] of [posixpath]: the extension starts at the last
    dot of the last component, unless only dots come before it there. *)
Definition splitext (p : pystr) : pystr * pystr :=
  let sepIndex := rfind SLASH p in
  let dotIndex := rfind DOT p in
  if (sepIndex <? dotIndex)%Z
     && existsb (fun c => negb (c =? DOT)%N)
          (slice (Z.to_nat (sepIndex + 1)) (Z.to_nat dotIndex) p)
  then (firstn (Z.to_nat dotIndex) p, skipn (Z.to_nat dotIndex) p)
  else (p, []).

(** What [parse] can raise: [ImportError] for a missing decoder, what
    the file system or a decoder raises, what [parse_text] raises. *)
Inductive failure (E : Type) :=
| ImportError (msg : pystr)
| External (e : E)
| Internal (e : exn).
Arguments ImportError {E} msg.
Arguments External {E} e.
Arguments Internal {E} e.

Definition PDF_MISSING : pystr :=
  str "pdfplumber not installed. Run: pip install pdfplumber".

Definition DOCX_MISSING : pystr :=
  str "python-docx not installed. Run: pip install python-docx".

(** A directory prefix of a path: empty, or ending in a slash. *)
Definition is_dir (dir : pystr) : bool :=
  match rev dir with
  | [] => true
  | c :: _ => (c =? SLASH)%N
  end.

Section Files.
Context {U : UnicodeTables}.
Variable ner : option (pystr -> list (pystr * pystr)).

(** The world outside: whether the decoders were imported; for a path,
    [page.extract_text()] of the pages of the PDF, the [text] of the
    paragraphs of the document, the decoded content of the file. *)
Variable E : Type.
Variable PDF_SUPPORT : bool.
Variable DOCX_SUPPORT : bool.
Variable pdf_pages : pystr -> E + list (option pystr).
Variable docx_paragraphs : pystr -> E + list pystr.
Variable read_text : pystr -> E + pystr.

(** [page.extract_text() or ""] *)
Definition page_text (page : option pystr) : pystr :=
  match page with
  | Some t => t
  | None => []
  end.

Definition _read_pdf (path : pystr) : failure E + pystr :=
  if negb PDF_SUPPORT then inl (ImportError PDF_MISSING)
  else
    match pdf_pages path with
    | inl e => inl (External e)
    | inr pages =>
        inr (fold_left (fun text page => text ++ (page_text page ++ [NL]))
               pages [])
    end.

Definition _read_docx (path : pystr) : failure E + pystr :=
  if negb DOCX_SUPPORT then inl (ImportError DOCX_MISSING)
  else
    match docx_paragraphs path with
    | inl e => inl (External e)
    | inr paragraphs => inr (join [NL] paragraphs)
    end.

Definition read_plain (path : pystr) : failure E + pystr :=
  match read_text path with
  | inl e => inl (External e)
  | inr text => inr text
  end.

Definition parsed_text (now : pystr) (read : failure E + pystr)
    : failure E + ParsedResume :=
  match read with
  | inl f => inl f
  | inr text =>
      match parse_text ner now text with
      | Ok r => inr r
      | Raise e => inl (Internal e)
      end
  end.

Definition parse (now filepath : pystr) : failure E + ParsedResume :=
  let ext := py_lower (snd (splitext filepath)) in
  parsed_text now
    (if pystr_eqb ext (str ".pdf") then _read_pdf filepath
     else if pystr_eqb ext (str ".docx") then _read_docx filepath
     else read_plain filepath).

End Files.

(** A world for examples: no decoder, every file holds ["Asha Rao"]. *)
Definition no_pages (_ : pystr) : unit + list (option pystr) := inl tt.
Definition no_paragraphs (_ : pystr) : unit + list pystr := inl tt.
Definition one_text (_ : pystr) : unit + pystr := inr (str "Asha Rao").

(** A world with the PDF decoder, where every PDF has two pages without
    text. *)
Definition scanned_pages (_ : pystr) : unit + list (option pystr) :=
  inr [None; Some []].

(** ** What the splitter and the date finder compute

    Stated without the matcher: where the blocks lie in the text, and
    which occurrences of a pattern a left-to-right scan collects. *)

(** A pattern without anchors or word boundaries, whose repeated parts
    match one character at least. *)
Fixpoint steady (r : regex) : bool :=
  match r with
  | Eps | Lit _ | OneOf _ => true
  | Bol | Eol | WordB => false
  | Cat r1 r2 | Alt r1 r2 => steady r1 && steady r2
  | Rep _ _ r1 => steady r1 && (1 <=? min_len r1)%nat
  end.

(** [split_at_gaps text blocks]: the text is the blocks, in order, with a
    run of two newlines or more between neighbours; a run is taken
    whole, and no block holds two newlines in a row. *)
Inductive split_at_gaps : pystr -> list pystr -> Prop :=
| gaps_none b :
    ~ infix [NL; NL] b ->
    split_at_gaps b [b]
| gaps_more b n rest bs :
    ~ infix [NL; NL] b ->
    (forall pre, b <> pre ++ [NL]) ->
    (2 <= n)%nat ->
    hd_error rest <> Some NL ->
    split_at_gaps rest bs ->
    split_at_gaps (b ++ repeat NL n ++ rest) (b :: bs).

Section Scan.
Context {U : UnicodeTables}.
Variable ic : bool.
Variable r : regex.

(** [scan_matches s ms]: going through [s] from the left, [ms] are the
    matches met: where no match starts the scan moves on by one
    character, and where one starts it takes a match there and goes on
    behind it. *)
Inductive scan_matches : pystr -> list pystr -> Prop :=
| scan_end : scan_matches [] []
| scan_skip x t ms :
    (forall m rest, x :: t = m ++ rest -> ~ lang ic r m) ->
    scan_matches t ms ->
    scan_matches (x :: t) ms
| scan_take m rest ms :
    m <> [] -> lang ic r m ->
    scan_matches rest ms ->
    scan_matches (m ++ rest) (m :: ms).

End Scan.

(** A line the name heuristic accepts: two to five words, each beginning
    with an upper-case character, and nothing of the ignore pattern. *)
Definition name_like {U : UnicodeTables} (line : pystr) : bool :=
  let ws := split_ws line in
  (2 <=? List.length ws)%nat && (List.length ws <=? 5)%nat
  && negb (is_some (re_search true NAME_IGNORE line))
  && forallb (fun w => match w with c :: _ => is_upper c | [] => true end) ws.

(** A recogniser that reports one person whatever the text. *)
Definition one_person (_ : pystr) : list (pystr * pystr) :=
  [(str "ORG", str "Acme"); (str "PERSON", str " Ada Lovelace ")].

Unset Implicit Arguments.

(** ** The scorer *)

Lemma sf_eqb_eq a b : sf_eqb a b = true -> a = b.
Proof.
  destruct a as [s|s| |s m e], b as [t|t| |t n f]; simpl; try discriminate;
    try reflexivity.
  - intros H. apply Bool.eqb_prop in H. now subst.
  - intros H. apply Bool.eqb_prop in H. now subst.
  - intros H. apply andb_prop in H as [H He]. apply andb_prop in H as [Hs Hm].
    apply Bool.eqb_prop in Hs. apply Pos.eqb_eq in Hm. apply Z.eqb_eq in He.
    now subst.
Qed.

Lemma upto_In n z : (0 <= z <= Z.of_nat n)%Z -> In z (upto n).
Proof.
  intros H. unfold upto. apply in_map_iff. exists (Z.to_nat z). split.
  - lia.
  - apply in_seq. lia.
Qed.

(** Small integers convert to binary64 without overflow, and adding two
    of them in binary64 is exact. *)
Lemma float_of_small z :
  (0 <= z <= 125)%Z -> float_of_int z = Ok (Zfloat z).
Proof.
  intros H.
  assert (T : forallb (fun z => match float_of_int z with
                                | Ok f => sf_eqb f (Zfloat z)
                                | Raise _ => false
                                end) (upto 125) = true)
    by (vm_compute; reflexivity).
  rewrite forallb_forall in T. specialize (T z (upto_In 125 z H)).
  destruct (float_of_int z); [apply sf_eqb_eq in T; now subst | discriminate].
Qed.

Lemma SFadd_small z k :
  (0 <= z <= 100)%Z -> (0 <= k <= 25)%Z ->
  SFadd prec emax (Zfloat z) (Zfloat k) = Zfloat (z + k).
Proof.
  intros Hz Hk.
  assert (T : forallb (fun z => forallb (fun k =>
                 sf_eqb (SFadd prec emax (Zfloat z) (Zfloat k)) (Zfloat (z + k)))
                 (upto 25)) (upto 100) = true)
    by (vm_compute; reflexivity).
  rewrite forallb_forall in T. specialize (T z (upto_In 100 z Hz)).
  rewrite forallb_forall in T. specialize (T k (upto_In 25 k Hk)).
  now apply sf_eqb_eq.
Qed.

Lemma py_add_int x z k :
  stands_for x z -> (0 <= z <= 100)%Z -> (0 <= k <= 25)%Z ->
  exists y, py_add x (PInt k) = Ok y /\ stands_for y (z + k).
Proof.
  intros [-> | ->] Hz Hk.
  - exists (PInt (z + k)). split; [reflexivity | now left].
  - exists (PFloat (Zfloat (z + k))). split; [| now right].
    unfold py_add, to_float. rewrite float_of_small by lia. simpl.
    now rewrite SFadd_small.
Qed.

Lemma py_add_float x z k :
  stands_for x z -> (0 <= z <= 100)%Z -> (0 <= k <= 25)%Z ->
  py_add x (PFloat (Zfloat k)) = Ok (PFloat (Zfloat (z + k))).
Proof.
  intros [-> | ->] Hz Hk; unfold py_add, to_float.
  - rewrite float_of_small by lia. simpl. now rewrite SFadd_small.
  - simpl. now rewrite SFadd_small.
Qed.

(** The products [20 * 0.4] and [20 * 0.3] are the floats 8.0 and 6.0. *)
Lemma contact_share_email :
  py_mul weights_contact (PFloat (float_literal 4 10)) = Ok (PFloat (Zfloat 8)).
Proof. vm_compute. reflexivity. Qed.

Lemma contact_share_other :
  py_mul weights_contact (PFloat (float_literal 3 10)) = Ok (PFloat (Zfloat 6)).
Proof. vm_compute. reflexivity. Qed.

Lemma add_contact_email field x z :
  stands_for x z -> (0 <= z <= 100)%Z ->
  exists y, add_contact field (float_literal 4 10) x = Ok y
            /\ stands_for y (z + 8 * b2z (truthy field)).
Proof.
  intros Hx Hz. unfold add_contact. destruct (truthy field); cbv [b2z].
  - rewrite contact_share_email. cbv [bind].
    rewrite (py_add_float x z 8%Z Hx) by lia. eexists; split; [reflexivity|].
    now right.
  - exists x. split; [reflexivity|]. now rewrite Z.add_0_r.
Qed.

Lemma add_contact_other field x z :
  stands_for x z -> (0 <= z <= 100)%Z ->
  exists y, add_contact field (float_literal 3 10) x = Ok y
            /\ stands_for y (z + 6 * b2z (truthy field)).
Proof.
  intros Hx Hz. unfold add_contact. destruct (truthy field); cbv [b2z].
  - rewrite contact_share_other. cbv [bind].
    rewrite (py_add_float x z 6%Z Hx) by lia. eexists; split; [reflexivity|].
    now right.
  - exists x. split; [reflexivity|]. now rewrite Z.add_0_r.
Qed.

Lemma cap_and_round x z :
  stands_for x z -> (0 <= z <= 100)%Z ->
  (capped <- py_min x (PInt 100) ;; py_round capped) = Ok z.
Proof.
  intros [-> | ->] Hz.
  - unfold py_min, py_lt. simpl.
    destruct (Z.ltb_spec 100 z); [lia | reflexivity].
  - assert (T : forallb (fun z =>
        match (capped <- py_min (PFloat (Zfloat z)) (PInt 100) ;; py_round capped) with
        | Ok r => Z.eqb r z
        | Raise _ => false
        end) (upto 100) = true) by (vm_compute; reflexivity).
    rewrite forallb_forall in T. specialize (T z (upto_In 100 z Hz)).
    destruct (capped <- py_min (PFloat (Zfloat z)) (PInt 100) ;; py_round capped);
      [apply Z.eqb_eq in T; now subst | discriminate].
Qed.

Lemma b2z_range b : (0 <= b2z b <= 1)%Z.
Proof. destruct b; simpl; lia. Qed.

Lemma score_table_range p : (0 <= score_table p <= 100)%Z.
Proof.
  unfold score_table, contact_points.
  pose proof (b2z_range (truthy (Contact.email (contact p)))).
  pose proof (b2z_range (truthy (Contact.phone (contact p)))).
  pose proof (b2z_range (truthy (Contact.linkedin (contact p)))).
  pose proof (b2z_range (nonempty (summary p))).
  lia.
Qed.

Lemma calculate_score_table p : calculate_score p = Ok (score_table p).
Proof.
  unfold calculate_score.
  pose proof (b2z_range (truthy (Contact.email (contact p)))) as He.
  pose proof (b2z_range (truthy (Contact.phone (contact p)))) as Hp.
  pose proof (b2z_range (truthy (Contact.linkedin (contact p)))) as Hl.
  pose proof (b2z_range (nonempty (summary p))) as Hs.
  destruct (add_contact_email (Contact.email (contact p)) (PInt 0) 0%Z)
    as (s1 & E1 & R1); [now left | lia |].
  rewrite E1; simpl.
  destruct (add_contact_other (Contact.phone (contact p)) _ _ R1) as (s2 & E2 & R2); [lia|].
  rewrite E2; simpl.
  destruct (add_contact_other (Contact.linkedin (contact p)) _ _ R2) as (s3 & E3 & R3); [lia|].
  rewrite E3; simpl.
  set (z3 := (0 + 8 * b2z (truthy (Contact.email (contact p)))
              + 6 * b2z (truthy (Contact.phone (contact p)))
              + 6 * b2z (truthy (Contact.linkedin (contact p))))%Z) in *.
  assert (exists s4, (if nonempty (summary p)
                      then py_add s3 (PInt weights_summary) else Ok s3) = Ok s4
                     /\ stands_for s4 (z3 + 10 * b2z (nonempty (summary p))))
    as (s4 & E4 & R4).
  { destruct (nonempty (summary p)); simpl.
    - apply py_add_int; [assumption | unfold z3; lia | unfold weights_summary; lia].
    - exists s3. split; [reflexivity|]. now rewrite Z.add_0_r. }
  rewrite E4; simpl.
  destruct (py_add_int _ _ (Z.min weights_skills (Z.of_nat (skills_total (skills p)) * 2)) R4)
    as (s5 & E5 & R5); [unfold z3; lia | unfold weights_skills; lia |].
  rewrite E5; simpl.
  destruct (py_add_int _ _ (Z.min weights_experience (Z.of_nat (List.length (experience p)) * 8)) R5)
    as (s6 & E6 & R6); [unfold z3, weights_skills; lia | unfold weights_experience; lia |].
  rewrite E6; simpl.
  destruct (py_add_int _ _ (Z.min weights_education (Z.of_nat (List.length (education p)) * 7)) R6)
    as (s7 & E7 & R7);
    [unfold z3, weights_skills, weights_experience; lia | unfold weights_education; lia |].
  rewrite E7; simpl.
  destruct (py_add_int _ _ (Z.min weights_projects (Z.of_nat (List.length (projects p)) * 2)) R7)
    as (s8 & E8 & R8);
    [unfold z3, weights_skills, weights_experience, weights_education; lia
    | unfold weights_projects; lia |].
  rewrite E8; simpl.
  rewrite (cap_and_round _ _ R8)
    by (unfold z3, weights_skills, weights_experience, weights_education, weights_projects; lia).
  f_equal. unfold score_table, contact_points, z3,
    weights_skills, weights_experience, weights_education, weights_projects. lia.
Qed.

(** ** No extractor raises *)

Lemma index_lt {A} (xs : list A) i :
  (i < List.length xs)%nat -> exists x, index xs i = Ok x.
Proof.
  intros H. unfold index. destruct (nth_error xs i) as [x|] eqn:E.
  - now exists x.
  - apply nth_error_None in E. lia.
Qed.

Lemma index_head {A} (xs : list A) :
  nonempty xs = true -> exists x, index xs 0 = Ok x.
Proof. destruct xs; [discriminate | now eexists]. Qed.

Lemma collect_ok {A B} (f : A -> res (list B)) xs :
  (forall x, In x xs -> exists r, f x = Ok r) ->
  exists r, collect f xs = Ok r.
Proof.
  induction xs as [|x t IH]; intros H; simpl.
  - now eexists.
  - destruct (H x (or_introl eq_refl)) as [r ->].
    destruct IH as [rs ->]; [intros y Hy; apply H; now right|].
    simpl. now eexists.
Qed.

Section Totality.
Context {U : UnicodeTables}.
Variable ner : option (pystr -> list (pystr * pystr)).

Lemma extract_email_ok text : exists r, extract_email text = Ok r.
Proof.
  unfold extract_email.
  destruct (re_findall false EMAIL_PATTERN text); simpl; now eexists.
Qed.

Lemma all_initial_upper_ok ws : exists b, all_initial_upper ws = Ok b.
Proof.
  induction ws as [|w t IH]; simpl; [now eexists|].
  destruct w as [|c w]; simpl; [exact IH|].
  destruct (is_upper c); [exact IH | now eexists].
Qed.

Lemma name_scan_ok lines : exists r, name_scan lines = Ok r.
Proof.
  induction lines as [|line t IH]; simpl; [now eexists|].
  destruct (_ && _); [|exact IH].
  destruct (all_initial_upper_ok (split_ws line)) as [[|] ->]; simpl;
    [now eexists | exact IH].
Qed.

Lemma extract_name_ok text : exists r, extract_name ner text = Ok r.
Proof.
  unfold extract_name.
  destruct (match ner with Some nlp => _ | None => None end);
    [now eexists | apply name_scan_ok].
Qed.

Lemma education_at_ok lines i line : exists r, education_at lines i line = Ok r.
Proof.
  unfold education_at. destruct (degree_line line); [|now eexists].
  destruct (Nat.ltb_spec (i + 1) (List.length lines)) as [Hlt|_].
  - destruct (index_lt lines (i + 1) Hlt) as [x ->]. simpl. now eexists.
  - simpl. now eexists.
Qed.

Lemma extract_education_ok text : exists r, extract_education text = Ok r.
Proof.
  unfold extract_education. apply collect_ok. intros [i line] _.
  apply education_at_ok.
Qed.

Lemma experience_of_block_ok block : exists r, experience_of_block block = Ok r.
Proof.
  unfold experience_of_block.
  destruct (negb (nonempty (strip block))); [now eexists|].
  destruct (nonempty (re_findall true DATE_PATTERN block)); simpl; [|now eexists].
  destruct (nonblank_lines block) as [|l0 [|l1 t]]; simpl; now eexists.
Qed.

Lemma extract_experience_ok text : exists r, extract_experience text = Ok r.
Proof.
  unfold extract_experience. apply collect_ok. intros b _.
  apply experience_of_block_ok.
Qed.

Lemma project_of_block_ok block : exists r, project_of_block block = Ok r.
Proof.
  unfold project_of_block.
  destruct (nonblank_lines block) as [|l0 t]; simpl; now eexists.
Qed.

Lemma extract_projects_ok text : exists r, extract_projects text = Ok r.
Proof.
  unfold extract_projects.
  destruct (collect_ok project_of_block (re_split false BLANK_GAP text)) as [r ->].
  - intros b _. apply project_of_block_ok.
  - simpl. now eexists.
Qed.

(** C1. For every text -- whatever the Unicode tables, the entity
    recogniser and the clock -- [parse_text] returns a record and raises
    nothing, and the score of the record is an integer between 0 and
    100. *)
Theorem parse_text_total_score_in_range now text :
  exists r, parse_text ner now text = Ok r /\ (0 <= score r <= 100)%Z.
Proof.
  unfold parse_text.
  destruct (extract_name_ok text) as [nm ->].
  destruct (extract_email_ok text) as [em ->].
  cbv beta iota delta [bind].
  set (exp_text := dict_get (extract_sections text) Experience []).
  set (edu_text := dict_get (extract_sections text) Education []).
  set (proj_text := dict_get (extract_sections text) Projects []).
  assert (exists exps, (if nonempty exp_text then extract_experience exp_text
                        else Ok []) = Ok exps) as [exps ->]
    by (destruct (nonempty exp_text); [apply extract_experience_ok | now eexists]).
  assert (exists edus, (if nonempty edu_text then extract_education edu_text
                        else extract_education text) = Ok edus) as [edus ->]
    by (destruct (nonempty edu_text); apply extract_education_ok).
  assert (exists projs, (if nonempty proj_text then extract_projects proj_text
                         else Ok []) = Ok projs) as [projs ->]
    by (destruct (nonempty proj_text); [apply extract_projects_ok | now eexists]).
  rewrite calculate_score_table.
  eexists. split; [reflexivity|]. apply score_table_range.
Qed.

End Totality.

(** ** The section splitter *)

Lemma label_eqb_eq a b : label_eqb a b = true <-> a = b.
Proof. destruct a, b; simpl; split; intros H; congruence. Qed.

Lemma label_eqb_refl a : label_eqb a a = true.
Proof. now apply label_eqb_eq. Qed.

Lemma label_eqb_neq a b : a <> b -> label_eqb a b = false.
Proof.
  intros H. destruct (label_eqb a b) eqn:E; [|reflexivity].
  apply label_eqb_eq in E. contradiction.
Qed.

Lemma dict_find_set d k v lab :
  dict_find (dict_set d k v) lab
  = if label_eqb k lab then Some v else dict_find d lab.
Proof.
  induction d as [|[k' v'] t IH]; simpl.
  - reflexivity.
  - destruct (label_eqb k' k) eqn:E; simpl.
    + apply label_eqb_eq in E. subst k'. now destruct (label_eqb k lab).
    + destruct (label_eqb k' lab) eqn:E'; [|exact IH].
      apply label_eqb_eq in E'. subst k'.
      destruct (label_eqb k lab) eqn:E''; [|reflexivity].
      apply label_eqb_eq in E''. subst k. now rewrite label_eqb_refl in E.
Qed.

Lemma dict_set_fresh d k v :
  ~ In k (map fst d) -> dict_set d k v = d ++ [(k, v)].
Proof.
  induction d as [|[k' v'] t IH]; simpl; intros H; [reflexivity|].
  rewrite label_eqb_neq by tauto. now rewrite IH by tauto.
Qed.

Section Sections.
Context {U : UnicodeTables}.

Lemma first_heading_In hs stripped sec :
  first_heading hs stripped = Some sec -> In sec (map fst hs).
Proof.
  induction hs as [|[k p] t IH]; simpl; [discriminate|].
  destruct (re_match true (heading_pattern p) stripped).
  - intros [= ->]. now left.
  - intros H. right. now apply IH.
Qed.

(** No heading line is labelled ["header"]. *)
Lemma matched_section_not_header line : matched_section line <> Some Header.
Proof.
  intros H. apply first_heading_In in H. simpl in H.
  repeat (destruct H as [H|H]; [discriminate|]). exact H.
Qed.

(** The loop, from any state: what it leaves in [sections] is what
    storing the current segment and then the later ones leaves. *)
Lemma loop_stores lines : forall st,
  flush (fold_left sections_step lines st)
  = fold_left store
      ((current st, buffer st ++ block_of lines) :: later_segments lines)
      (sections st).
Proof.
  induction lines as [|l t IH]; intros st; simpl.
  - now rewrite app_nil_r.
  - unfold sections_step at 2, is_heading.
    destruct (matched_section l) as [sec|]; simpl.
    + rewrite IH. simpl. now rewrite app_nil_r.
    + rewrite IH. simpl. now rewrite <- app_assoc.
Qed.

Lemma extract_sections_segments text :
  extract_sections text = fold_left store (segments (split_on NL text)) [].
Proof. unfold extract_sections. now rewrite loop_stores. Qed.

Lemma find_fold_store lab segs : forall d,
  dict_find (fold_left store segs d) lab
  = match last_block lab segs with
    | Some b => Some (block_text b)
    | None => dict_find d lab
    end.
Proof.
  induction segs as [|[k b] t IH]; intros d; simpl; [reflexivity|].
  rewrite IH. destruct (last_block lab t); [reflexivity|].
  unfold store. simpl. rewrite dict_find_set.
  now destruct (label_eqb k lab).
Qed.

(** What [sections] holds under a label: the trimmed text of the last
    segment with that label. *)
Lemma sections_lookup text lab :
  dict_find (extract_sections text) lab
  = option_map block_text (last_block lab (segments (split_on NL text))).
Proof.
  rewrite extract_sections_segments, find_fold_store.
  now destruct (last_block lab _).
Qed.

Lemma segments_cover lines :
  flat_map snd (segments lines) = filter (fun l => negb (is_heading l)) lines.
Proof.
  unfold segments. simpl.
  induction lines as [|l t IH]; simpl; [reflexivity|].
  assert (Hh : is_heading l = is_some (matched_section l)) by reflexivity.
  rewrite !Hh. destruct (matched_section l); simpl.
  - exact IH.
  - now rewrite <- IH.
Qed.

Lemma fold_store_fresh segs : forall d,
  NoDup (map fst d ++ map fst segs) ->
  fold_left store segs d
  = d ++ map (fun seg => (fst seg, block_text (snd seg))) segs.
Proof.
  induction segs as [|[k b] t IH]; intros d H; simpl.
  - now rewrite app_nil_r.
  - assert (Hk : ~ In k (map fst d)).
    { intros Hin. simpl in H. apply NoDup_remove_2 in H. apply H.
      apply in_or_app. now left. }
    unfold store at 2. simpl. rewrite dict_set_fresh by exact Hk.
    rewrite IH.
    + now rewrite <- app_assoc.
    + rewrite map_app. simpl. rewrite <- app_assoc. exact H.
Qed.

Lemma later_no_header lines : last_block Header (later_segments lines) = None.
Proof.
  induction lines as [|l t IH]; simpl; [reflexivity|].
  destruct (matched_section l) as [sec|] eqn:E; [|exact IH].
  simpl. rewrite IH. destruct sec; try reflexivity.
  now apply matched_section_not_header in E.
Qed.

Lemma later_no_label lab lines :
  (forall l, In l lines -> matched_section l <> Some lab) ->
  last_block lab (later_segments lines) = None.
Proof.
  induction lines as [|l t IH]; intros H; simpl; [reflexivity|].
  destruct (matched_section l) as [sec|] eqn:E.
  - simpl. rewrite IH by (intros x Hx; apply H; now right).
    rewrite label_eqb_neq; [reflexivity|].
    intros ->. now apply (H l (or_introl eq_refl)).
  - apply IH. intros x Hx. apply H. now right.
Qed.

Lemma last_block_after lab pre h post :
  matched_section h = Some lab ->
  (forall l, In l post -> matched_section l <> Some lab) ->
  last_block lab (later_segments (pre ++ h :: post)) = Some (block_of post).
Proof.
  intros Hh Hpost. induction pre as [|l t IH]; simpl.
  - rewrite Hh. simpl. rewrite (later_no_label lab post Hpost).
    now rewrite label_eqb_refl.
  - destruct (matched_section l); simpl; now rewrite IH.
Qed.

Lemma block_of_no_heading lines :
  (forall l, In l lines -> matched_section l = None) -> block_of lines = lines.
Proof.
  induction lines as [|l t IH]; intros H; simpl; [reflexivity|].
  assert (Hh : is_heading l = is_some (matched_section l)) by reflexivity.
  rewrite Hh, (H l (or_introl eq_refl)). simpl.
  now rewrite IH by (intros x Hx; apply H; now right).
Qed.

End Sections.

(** ** The orchestrator *)

Lemma split_on_cons sep s : exists w ws, split_on sep s = w :: ws.
Proof.
  induction s as [|c t IH]; simpl; [now eexists; eexists|].
  destruct (c =? sep)%N; [now eexists; eexists|].
  destruct IH as (w & ws & ->). now eexists; eexists.
Qed.

Lemma join_cons sep p q qs :
  join sep (p :: q :: qs) = p ++ sep ++ join sep (q :: qs).
Proof. reflexivity. Qed.

Lemma join_split s : join [NL] (split_on NL s) = s.
Proof.
  induction s as [|c t IH]; [reflexivity|].
  cbn [split_on].
  destruct (split_on_cons NL t) as (w & ws & E).
  destruct (N.eqb_spec c NL) as [->|_]; rewrite E in *.
  - rewrite join_cons, IH. reflexivity.
  - destruct ws as [|w' ws].
    + simpl in *. now subst.
    + rewrite join_cons in *. rewrite <- IH. reflexivity.
Qed.

Lemma dict_find_truncated d lab :
  dict_find (map (fun kv => (fst kv, firstn 500 (snd kv))) d) lab
  = option_map (firstn 500) (dict_find d lab).
Proof.
  induction d as [|[k v] t IH]; simpl; [reflexivity|].
  now destruct (label_eqb k lab).
Qed.

Section Orchestrator.
Context {U : UnicodeTables}.
Variable ner : option (pystr -> list (pystr * pystr)).

(** What [parse_text] puts in each field of its result. *)
Lemma parse_text_fields now text :
  let sections := extract_sections text in
  let exp_text := dict_get sections Experience [] in
  let edu_text := dict_get sections Education [] in
  let proj_text := dict_get sections Projects [] in
  exists r, parse_text ner now text = Ok r
    /\ meta (fields r)
       = {| Meta.parsed_at := now;
            Meta.word_count := List.length (split_ws text) |}
    /\ extract_name ner text = Ok (Contact.name (contact (fields r)))
    /\ extract_email text = Ok (Contact.email (contact (fields r)))
    /\ Contact.phone (contact (fields r)) = extract_phone text
    /\ Contact.linkedin (contact (fields r)) = extract_linkedin text
    /\ Contact.github (contact (fields r)) = extract_github text
    /\ summary (fields r) = dict_get sections Summary []
    /\ skills (fields r)
       = extract_skills (dict_get sections Skills [] ++ [NL] ++ text)
    /\ (if nonempty exp_text then extract_experience exp_text else Ok [])
       = Ok (experience (fields r))
    /\ (if nonempty edu_text then extract_education edu_text
        else extract_education text) = Ok (education (fields r))
    /\ (if nonempty proj_text then extract_projects proj_text else Ok [])
       = Ok (projects (fields r))
    /\ raw_sections (fields r)
       = map (fun kv => (fst kv, firstn 500 (snd kv))) sections
    /\ score r = score_table (fields r)
    /\ skill_count r = skills_total (skills (fields r)).
Proof.
  intros sections exp_text edu_text proj_text. unfold parse_text.
  destruct (extract_name_ok ner text) as [nm ->].
  destruct (extract_email_ok text) as [em ->].
  cbv beta iota delta [bind].
  fold sections. fold exp_text. fold edu_text. fold proj_text.
  assert (exists exps, (if nonempty exp_text then extract_experience exp_text
                        else Ok []) = Ok exps) as [exps ->]
    by (destruct (nonempty exp_text); [apply extract_experience_ok | now eexists]).
  assert (exists edus, (if nonempty edu_text then extract_education edu_text
                        else extract_education text) = Ok edus) as [edus ->]
    by (destruct (nonempty edu_text); apply extract_education_ok).
  assert (exists projs, (if nonempty proj_text then extract_projects proj_text
                         else Ok []) = Ok projs) as [projs ->]
    by (destruct (nonempty proj_text); [apply extract_projects_ok | now eexists]).
  rewrite calculate_score_table.
  eexists. split; [reflexivity|]. simpl. repeat split; reflexivity.
Qed.

Lemma nonempty_false {A} (xs : list A) : nonempty xs = false <-> xs = [].
Proof. destruct xs; simpl; split; congruence. Qed.

(** C3. The score is the sum of the six capped contributions of the
    scoring table -- 8, 6 and 6 for a present email, phone and linkedin,
    10 for a non-empty summary, 2 a skill up to 25, 8 an experience
    record up to 25, 7 an education record up to 15, 2 a project record
    up to 5 -- capped at 100; the float arithmetic of the contact shares
    and the final rounding leave that integer unchanged. *)
Theorem score_is_capped_table_sum (p : Parsed) :
  calculate_score p = Ok (Z.min 100 (score_table p))
  /\ score_table p
     = (8 * b2z (truthy (Contact.email (contact p)))
        + 6 * b2z (truthy (Contact.phone (contact p)))
        + 6 * b2z (truthy (Contact.linkedin (contact p)))
        + 10 * b2z (nonempty (summary p))
        + Z.min 25 (2 * Z.of_nat (skills_total (skills p)))
        + Z.min 25 (8 * Z.of_nat (List.length (experience p)))
        + Z.min 15 (7 * Z.of_nat (List.length (education p)))
        + Z.min 5 (2 * Z.of_nat (List.length (projects p))))%Z.
Proof.
  split; [|reflexivity].
  rewrite calculate_score_table. f_equal.
  pose proof (score_table_range p). lia.
Qed.

(** C4. When the education section is empty or absent the education
    records are those of the whole document; when the experience section
    or the projects section is empty or absent, the experience list or
    the projects list is empty. *)
Theorem fallback_policy now text :
  exists r, parse_text ner now text = Ok r
    /\ (dict_get (extract_sections text) Education [] = [] ->
        extract_education text = Ok (education (fields r)))
    /\ (dict_get (extract_sections text) Experience [] = [] ->
        experience (fields r) = [])
    /\ (dict_get (extract_sections text) Projects [] = [] ->
        projects (fields r) = []).
Proof.
  destruct (parse_text_fields now text)
    as (r & E & _ & _ & _ & _ & _ & _ & _ & _ & Hexp & Hedu & Hproj & _).
  exists r. split; [exact E|]. split; [|split].
  - intros H. rewrite H in Hedu. cbv beta iota delta [nonempty] in Hedu.
    exact Hedu.
  - intros H. rewrite H in Hexp. cbv beta iota delta [nonempty] in Hexp.
    congruence.
  - intros H. rewrite H in Hproj. cbv beta iota delta [nonempty] in Hproj.
    congruence.
Qed.

(** C5. Two calls on the same text, at whatever times, return the same
    record up to the timestamp of [meta]: the second result is the first
    with its timestamp replaced. *)
Theorem parse_text_deterministic now1 now2 text :
  exists r1 r2,
    parse_text ner now1 text = Ok r1
    /\ parse_text ner now2 text = Ok r2
    /\ r2 = with_parsed_at now2 r1.
Proof.
  unfold parse_text.
  destruct (extract_name_ok ner text) as [nm ->].
  destruct (extract_email_ok text) as [em ->].
  cbv beta iota delta [bind].
  set (exp_text := dict_get (extract_sections text) Experience []).
  set (edu_text := dict_get (extract_sections text) Education []).
  set (proj_text := dict_get (extract_sections text) Projects []).
  assert (exists exps, (if nonempty exp_text then extract_experience exp_text
                        else Ok []) = Ok exps) as [exps ->]
    by (destruct (nonempty exp_text); [apply extract_experience_ok | now eexists]).
  assert (exists edus, (if nonempty edu_text then extract_education edu_text
                        else extract_education text) = Ok edus) as [edus ->]
    by (destruct (nonempty edu_text); apply extract_education_ok).
  assert (exists projs, (if nonempty proj_text then extract_projects proj_text
                         else Ok []) = Ok projs) as [projs ->]
    by (destruct (nonempty proj_text); [apply extract_projects_ok | now eexists]).
  rewrite !calculate_score_table.
  eexists. eexists. split; [reflexivity|]. split; [reflexivity|].
  cbv beta iota delta
    [with_parsed_at fields score skill_count meta contact summary skills
     experience education projects certifications languages achievements
     raw_sections Meta.word_count score_table contact_points].
  reflexivity.
Qed.

End Orchestrator.

(** ** The sections mapping *)

Lemma dict_set_keys d k v :
  NoDup (map fst d) -> NoDup (map fst (dict_set d k v)).
Proof.
  intros H. destruct (in_dec (fun a b => match Bool.bool_dec (label_eqb a b) true with
                                         | left e => left (proj1 (label_eqb_eq a b) e)
                                         | right n => right (fun e => n (proj2 (label_eqb_eq a b) e))
                                         end) k (map fst d)) as [Hin|Hout].
  - assert (E : map fst (dict_set d k v) = map fst d); [|now rewrite E].
    clear H. induction d as [|[k' v'] t IH]; simpl in *; [contradiction|].
    destruct (label_eqb k' k) eqn:Ek; simpl; [reflexivity|].
    f_equal. apply IH. destruct Hin as [->|Hin]; [|exact Hin].
    now rewrite label_eqb_refl in Ek.
  - rewrite dict_set_fresh by exact Hout. rewrite map_app. simpl.
    apply NoDup_app; [exact H | repeat constructor; intros [] | ].
    intros x Hx [<-|[]]. contradiction.
Qed.

Lemma dict_find_In d k v :
  NoDup (map fst d) -> In (k, v) d -> dict_find d k = Some v.
Proof.
  induction d as [|[k' v'] t IH]; simpl; intros Hnd Hin; [contradiction|].
  inversion Hnd as [|? ? Hk' Ht]; subst.
  destruct Hin as [[= -> ->]|Hin].
  - now rewrite label_eqb_refl.
  - rewrite label_eqb_neq; [now apply IH|].
    intros ->. apply Hk'. apply in_map_iff. now exists (k, v).
Qed.

Section Mapping.
Context {U : UnicodeTables}.
Variable ner : option (pystr -> list (pystr * pystr)).

Lemma fold_store_keys segs : forall d,
  NoDup (map fst d) -> NoDup (map fst (fold_left store segs d)).
Proof.
  induction segs as [|seg t IH]; intros d H; simpl; [exact H|].
  apply IH. now apply dict_set_keys.
Qed.

(** No label occurs twice among the keys of [sections]. *)
Lemma extract_sections_keys text : NoDup (map fst (extract_sections text)).
Proof.
  rewrite extract_sections_segments. apply fold_store_keys. constructor.
Qed.

(** C2, as amended.  The lines of the text that are not headings are
    shared out, in their order, among the segments -- the header's and
    one for each heading line; a heading line belongs to no segment.
    Under each label [sections] holds the text of the last segment with
    that label, joined by newlines and trimmed; when no label occurs
    twice it holds every segment, in order. *)
Theorem sections_partition_non_heading_lines text :
  let lines := split_on NL text in
  flat_map snd (segments lines) = filter (fun l => negb (is_heading l)) lines
  /\ (forall lab,
        dict_find (extract_sections text) lab
        = option_map block_text (last_block lab (segments lines)))
  /\ (NoDup (map fst (segments lines)) ->
      extract_sections text
      = map (fun seg => (fst seg, block_text (snd seg))) (segments lines)).
Proof.
  intros lines. split; [apply segments_cover|]. split.
  - intros lab. apply sections_lookup.
  - intros H. rewrite extract_sections_segments.
    now rewrite fold_store_fresh.
Qed.

(** C6, as amended.  The header is the trimmed text before the first
    heading line -- the whole trimmed text when no line is a heading, of
    whatever length: the key ["header"] is always set, so the default
    [text[:1000]] is never taken -- and [raw_sections] keeps its first
    500 characters. *)
Theorem header_is_text_before_first_heading now text :
  header_text text = block_text (block_of (split_on NL text))
  /\ ((forall l, In l (split_on NL text) -> matched_section l = None) ->
      header_text text = strip text)
  /\ exists r, parse_text ner now text = Ok r
       /\ dict_find (raw_sections (fields r)) Header
          = Some (firstn 500 (header_text text)).
Proof.
  assert (H : dict_find (extract_sections text) Header
              = Some (block_text (block_of (split_on NL text)))).
  { rewrite sections_lookup. unfold segments. simpl.
    now rewrite later_no_header. }
  assert (E : header_text text = block_text (block_of (split_on NL text)))
    by (unfold header_text, dict_get; now rewrite H).
  split; [exact E|]. split.
  - intros Hno. rewrite E, (block_of_no_heading _ Hno).
    unfold block_text. now rewrite join_split.
  - destruct (parse_text_fields ner now text)
      as (r & Er & _ & _ & _ & _ & _ & _ & _ & _ & _ & _ & _ & Hraw & _).
    exists r. split; [exact Er|].
    rewrite Hraw, dict_find_truncated, H, E. reflexivity.
Qed.

(** C9. When two heading lines carry the same label and no heading line
    after the second does, [sections] holds under that label the block
    that follows the second heading, and no other entry with that label:
    the block gathered after the first heading is overwritten. *)
Theorem later_heading_overwrites text pre h1 mid h2 post lab :
  split_on NL text = pre ++ h1 :: mid ++ h2 :: post ->
  matched_section h1 = Some lab ->
  matched_section h2 = Some lab ->
  (forall l, In l post -> matched_section l <> Some lab) ->
  dict_find (extract_sections text) lab = Some (block_text (block_of post))
  /\ forall v, In (lab, v) (extract_sections text) ->
               v = block_text (block_of post).
Proof.
  intros Hsplit _ Hh2 Hpost.
  assert (H : dict_find (extract_sections text) lab
              = Some (block_text (block_of post))).
  { rewrite sections_lookup, Hsplit. unfold segments. simpl.
    replace (pre ++ h1 :: mid ++ h2 :: post)
      with ((pre ++ h1 :: mid) ++ h2 :: post)
      by (rewrite <- app_assoc; reflexivity).
    now rewrite (last_block_after lab _ h2 post Hh2 Hpost). }
  split; [exact H|].
  intros v Hin.
  apply (dict_find_In _ _ _ (extract_sections_keys text)) in Hin.
  congruence.
Qed.

(** C8. For the empty text, provided the entity recogniser, when there
    is one, reports no person in it: no contact field, no skill, no
    experience, education or project record, and score 0. *)
Theorem parse_text_empty now :
  (forall nlp, ner = Some nlp -> first_person (nlp []) = None) ->
  parse_text ner now []
  = Ok {| fields :=
            {| meta := {| Meta.parsed_at := now; Meta.word_count := 0 |};
               contact := {| Contact.name := None;
                             Contact.email := None;
                             Contact.phone := None;
                             Contact.linkedin := None;
                             Contact.github := None |};
               summary := [];
               skills := [];
               experience := [];
               education := [];
               projects := [];
               certifications := [];
               languages := [];
               achievements := [];
               raw_sections := [(Header, [])] |};
          score := 0;
          skill_count := 0 |}.
Proof.
  intros Hner. unfold parse_text.
  assert (En : extract_name ner [] = Ok None).
  { unfold extract_name. destruct ner as [nlp|]; [|reflexivity].
    simpl. now rewrite (Hner nlp eq_refl). }
  rewrite En. vm_compute. reflexivity.
Qed.

End Mapping.

(** C2, counterexample: the heading line of a three-line text is a line
    of the input and of no stored section, so the stored lines are not
    the lines of the input. *)
Lemma heading_line_in_no_section :
  In (str "Education") (split_on NL two_sections_text)
  /\ ~ In (str "Education") (stored_lines (extract_sections two_sections_text))
  /\ stored_lines (extract_sections two_sections_text)
     <> split_on NL two_sections_text.
Proof.
  split; [vm_compute; tauto|]. split.
  - vm_compute. intros [H|[H|[]]]; discriminate.
  - vm_compute. discriminate.
Qed.

(** C6, counterexample: a text of 1200 characters without a heading has
    the whole of itself for header, not its first 1000 characters. *)
Lemma header_of_long_text_not_cut :
  forallb (fun l => negb (is_heading l)) (split_on NL long_plain_text) = true
  /\ List.length (header_text long_plain_text) = 1200%nat
  /\ header_text long_plain_text <> firstn 1000 long_plain_text.
Proof.
  split; [vm_compute; reflexivity|].
  split; [vm_compute; reflexivity|].
  intros E. apply (f_equal (@List.length char)) in E.
  vm_compute in E. discriminate E.
Qed.

(** C9, witness: a text with two Education headings. *)
Lemma later_heading_overwrites_witness :
  dict_find (extract_sections repeated_heading_text) Education
  = Some (str "Stanford 2022")
  /\ forall v, In (Education, v) (extract_sections repeated_heading_text) ->
               v = str "Stanford 2022".
Proof.
  apply (later_heading_overwrites repeated_heading_text
           [str "Jane Doe"] (str "Education")
           [str "MIT 2020"; str "Skills"; str "Python"] (str "Education")
           [str "Stanford 2022"] Education).
  - vm_compute. reflexivity.
  - vm_compute. reflexivity.
  - vm_compute. reflexivity.
  - intros l [<-|[]]. vm_compute. discriminate.
Defined.

(** C8, witness: without an entity recogniser. *)
Lemma parse_text_empty_witness :
  option_map (fun r => (score r, skills (fields r), experience (fields r)))
    (match parse_text None (str "2026-01-01T00:00:00") [] with
     | Ok r => Some r
     | Raise _ => None
     end)
  = Some (0%Z, [], []).
Proof.
  rewrite (parse_text_empty None (str "2026-01-01T00:00:00")).
  - reflexivity.
  - intros nlp H. discriminate H.
Defined.

(** ** The matcher *)

Section MatcherFacts.
Context {U : UnicodeTables}.

(** A success of the matcher: a prefix [w] was consumed, the
    continuation succeeded on what follows, and [w] holds a digit when
    the pattern needs one. *)
Definition consumed {A} (r : regex) (s : pystr)
    (k : option char -> pystr -> option A) (a : A) : Prop :=
  exists w rest p,
    s = w ++ rest /\ k p rest = Some a
    /\ (needs_digit r = true -> has_digit w = true).

Lemma needs_digit_set cs x :
  needs_digit (OneOf cs) = true -> in_cset cs x = true -> is_decimal x = true.
Proof.
  destruct cs as [|[] [|]]; simpl; try discriminate.
  intros _ H. now rewrite orb_false_r in H.
Qed.

Lemma has_digit_app w1 w2 :
  has_digit (w1 ++ w2) = has_digit w1 || has_digit w2.
Proof. apply existsb_app. Qed.

Lemma mt_consumed {A} ic r : forall prev s k (a : A),
  mt ic r prev s k = Some a -> consumed r s k a.
Proof.
  induction r as [ |c|cs| | | |r1 IH1 r2 IH2|r1 IH1 r2 IH2|lo hi r1 IH1];
    intros prev s k a H; cbn [mt] in H.
  - exists [], s, prev. repeat split; [exact H | discriminate].
  - destruct s as [|x t]; [discriminate|].
    destruct (lit_match ic c x); [|discriminate].
    exists [x], t, (Some x). repeat split; [exact H | discriminate].
  - destruct s as [|x t]; [discriminate|].
    destruct (in_cset cs x) eqn:E; [|discriminate].
    exists [x], t, (Some x). repeat split; [exact H|].
    intros Hn. unfold has_digit. simpl.
    now rewrite (needs_digit_set cs x Hn E).
  - destruct prev; [discriminate|].
    exists [], s, None. repeat split; [exact H | discriminate].
  - exists [], s, prev. repeat split; [|discriminate].
    destruct s as [|x [|y t]]; [exact H | | discriminate].
    destruct (x =? NL)%N; [exact H | discriminate].
  - destruct (xorb _ _); [|discriminate].
    exists [], s, prev. repeat split; [exact H | discriminate].
  - apply IH1 in H. destruct H as (w1 & rest1 & p1 & -> & H & D1).
    apply IH2 in H. destruct H as (w2 & rest2 & p2 & -> & H & D2).
    exists (w1 ++ w2), rest2, p2. repeat split.
    + now rewrite app_assoc.
    + exact H.
    + simpl. intros Hn. rewrite has_digit_app.
      apply orb_prop in Hn as [Hn|Hn]; [rewrite (D1 Hn) | rewrite (D2 Hn)];
        auto using orb_true_r.
  - destruct (mt ic r1 prev s k) as [a'|] eqn:E.
    + injection H as ->. apply IH1 in E.
      destruct E as (w & rest & p & -> & E & D).
      exists w, rest, p. repeat split; [exact E|].
      simpl. intros Hn. apply andb_prop in Hn. now apply D.
    + apply IH2 in H. destruct H as (w & rest & p & -> & H & D).
      exists w, rest, p. repeat split; [exact H|].
      simpl. intros Hn. apply andb_prop in Hn. now apply D.
  - revert H. generalize (List.length s) as fuel. intros fuel. revert lo hi prev s.
    induction fuel as [|f IHf]; intros lo hi prev s H.
    + destruct lo; [|discriminate].
      exists [], s, prev. repeat split; [exact H | discriminate].
    + match type of H with
      | match ?again with _ => _ end = _ => destruct again as [a'|] eqn:E
      end.
      * injection H as ->. destruct hi as [[|h]|]; try discriminate.
        -- apply IH1 in E. destruct E as (w1 & rest1 & p1 & -> & E & D1).
           destruct (_ <? _)%nat; [|discriminate].
           apply IHf in E. destruct E as (w2 & rest2 & p2 & -> & E & D2).
           exists (w1 ++ w2), rest2, p2. repeat split.
           ++ now rewrite app_assoc.
           ++ exact E.
           ++ intros Hn. rewrite has_digit_app.
              destruct lo; [discriminate|]. simpl in Hn.
              rewrite (D1 Hn). reflexivity.
        -- apply IH1 in E. destruct E as (w1 & rest1 & p1 & -> & E & D1).
           destruct (_ <? _)%nat; [|discriminate].
           apply IHf in E. destruct E as (w2 & rest2 & p2 & -> & E & D2).
           exists (w1 ++ w2), rest2, p2. repeat split.
           ++ now rewrite app_assoc.
           ++ exact E.
           ++ intros Hn. rewrite has_digit_app.
              destruct lo; [discriminate|]. simpl in Hn.
              rewrite (D1 Hn). reflexivity.
      * destruct lo; [|discriminate].
        exists [], s, prev. repeat split; [exact H | discriminate].
Qed.

(** A match at the head of [s] is a prefix of [s]. *)
Lemma match_here_prefix ic r prev s m :
  match_here ic r prev s = Some m ->
  exists rest, s = m ++ rest /\ (needs_digit r = true -> has_digit m = true).
Proof.
  unfold match_here.
  destruct (mt ic r prev s (fun _ rest => Some rest)) as [rest|] eqn:E;
    [|discriminate].
  intros [= <-]. apply mt_consumed in E.
  destruct E as (w & rest' & p & -> & [= ->] & D).
  exists rest. rewrite length_app, Nat.add_sub, firstn_app, Nat.sub_diag.
  rewrite firstn_all. simpl. rewrite app_nil_r. now split.
Qed.

Lemma findall_has_digit ic r : needs_digit r = true ->
  forall s prev skip,
    findall_from ic r prev s skip <> [] -> has_digit s = true.
Proof.
  intros Hn. induction s as [|x t IH]; intros prev skip H.
  - destruct skip; simpl in H; [|congruence].
    destruct (match_here ic r prev []) as [m|] eqn:E; [|congruence].
    apply match_here_prefix in E. destruct E as (rest & E & D).
    destruct m; [|discriminate]. specialize (D Hn). discriminate.
  - destruct skip as [|n]; simpl in H.
    + destruct (match_here ic r prev (x :: t)) as [m|] eqn:E.
      * apply match_here_prefix in E. destruct E as (rest & -> & D).
        rewrite has_digit_app, (D Hn). reflexivity.
      * unfold has_digit. simpl. apply IH in H. unfold has_digit in H.
        rewrite H. apply orb_true_r.
    + unfold has_digit. simpl. apply IH in H. unfold has_digit in H.
      rewrite H. apply orb_true_r.
Qed.

End MatcherFacts.

(** ** The block extractors *)

Lemma collect_flat_map {A B} (f : A -> res (list B)) (g : A -> list B) xs :
  (forall x, In x xs -> f x = Ok (g x)) ->
  collect f xs = Ok (flat_map g xs).
Proof.
  induction xs as [|x t IH]; intros H; simpl; [reflexivity|].
  rewrite (H x (or_introl eq_refl)), IH by (intros y Hy; apply H; now right).
  reflexivity.
Qed.

Lemma in_firstn {A} n (xs : list A) x : In x (firstn n xs) -> In x xs.
Proof.
  revert xs. induction n as [|n IH]; intros [|y t]; simpl; try tauto.
  intros [->|H]; [now left | right; now apply IH].
Qed.

Lemma ascii_digit_not_space c : ascii_digit c = true -> is_space c = false.
Proof.
  unfold ascii_digit. intros H. apply andb_prop in H as [H1 H2].
  apply N.leb_le in H1, H2. unfold is_space.
  replace (c <=? 13)%N with false by (symmetry; apply N.leb_gt; lia).
  replace (c <=? 32)%N with false by (symmetry; apply N.leb_gt; lia).
  replace (8192 <=? c)%N with false by (symmetry; apply N.leb_gt; lia).
  repeat match goal with
         | |- context [(c =? ?n)%N] =>
             replace (c =? n)%N with false by (symmetry; apply N.eqb_neq; lia)
         end.
  now rewrite !andb_false_r.
Qed.

Section Blocks.
Context {U : UnicodeTables}.

Lemma is_decimal_not_space c : is_decimal c = true -> is_space c = false.
Proof.
  unfold is_decimal. destruct (is_ascii c).
  - apply ascii_digit_not_space.
  - apply uni_decimal_not_space.
Qed.

Lemma has_digit_ink s : has_digit s = true -> has_ink s = true.
Proof.
  unfold has_digit, has_ink. rewrite !existsb_exists.
  intros (c & Hin & Hc). exists c. split; [exact Hin|].
  now rewrite (is_decimal_not_space c Hc).
Qed.

Lemma drop_space_ink s : has_ink (drop_space s) = has_ink s.
Proof.
  induction s as [|c t IH]; simpl; [reflexivity|].
  destruct (is_space c) eqn:E; simpl; [|now rewrite E].
  exact IH.
Qed.

Lemma has_ink_rev s : has_ink (rev s) = has_ink s.
Proof.
  unfold has_ink. induction s as [|c t IH]; simpl; [reflexivity|].
  rewrite existsb_app, IH. simpl. rewrite orb_false_r. apply orb_comm.
Qed.

Lemma strip_ink s : has_ink (strip s) = has_ink s.
Proof.
  unfold strip. now rewrite has_ink_rev, drop_space_ink, has_ink_rev, drop_space_ink.
Qed.

(** A text with a character that is not white space keeps one when
    stripped, and has a line that is not blank. *)
Lemma ink_strip s : has_ink s = true -> nonempty (strip s) = true.
Proof.
  intros H. rewrite <- strip_ink in H. now destruct (strip s).
Qed.

Lemma ink_in_a_line s :
  has_ink s = true -> exists l, In l (split_on NL s) /\ has_ink l = true.
Proof.
  induction s as [|c t IH]; simpl; [discriminate|].
  destruct (N.eqb_spec c NL) as [->|Hc].
  - simpl. intros H. destruct (IH H) as (l & Hl & Hi).
    exists l. split; [now right | exact Hi].
  - destruct (split_on NL t) as [|w ws] eqn:E.
    + intros _. destruct (split_on_cons NL t) as (w & ws & E'). congruence.
    + destruct (is_space c) eqn:Es; simpl.
      * intros H. destruct (IH H) as (l & [<-|Hl] & Hi).
        -- exists (c :: w). split; [now left|]. simpl. now rewrite Hi, orb_true_r.
        -- exists l. split; [now right | exact Hi].
      * intros _. exists (c :: w). split; [now left|]. simpl. now rewrite Es.
Qed.

Lemma ink_nonblank_lines s :
  has_ink s = true -> nonempty (nonblank_lines s) = true.
Proof.
  intros H. destruct (ink_in_a_line s H) as (l & Hl & Hi).
  unfold nonblank_lines.
  assert (Hin : In (strip l) (map strip (filter (fun l => nonempty (strip l))
                                           (split_on NL s)))).
  { apply in_map. apply filter_In. split; [exact Hl | now apply ink_strip]. }
  destruct (map strip _); [contradiction | reflexivity].
Qed.

(** A block with a date holds a digit, hence a line that is not
    blank. *)
Lemma dated_block_has_lines block :
  re_findall true DATE_PATTERN block <> [] ->
  nonempty (strip block) = true /\ nonempty (nonblank_lines block) = true.
Proof.
  intros H. apply findall_has_digit in H; [|reflexivity].
  apply has_digit_ink in H. split; [now apply ink_strip | now apply ink_nonblank_lines].
Qed.

Lemma experience_of_block_record block :
  experience_of_block block = Ok (experience_record block).
Proof.
  unfold experience_of_block, experience_record.
  destruct (re_findall true DATE_PATTERN block) as [|d ds] eqn:E.
  - destruct (negb _); [reflexivity|]. reflexivity.
  - destruct (dated_block_has_lines block) as [Hs Hl]; [congruence|].
    rewrite Hs. cbv beta iota delta [negb nonempty andb].
    destruct (nonblank_lines block) as [|l0 [|l1 [|l2 t]]]; [discriminate | | |];
      reflexivity.
Qed.

Lemma extract_experience_records text :
  extract_experience text
  = Ok (flat_map experience_record (re_split false BLANK_GAP text)).
Proof.
  apply collect_flat_map. intros b _. apply experience_of_block_record.
Qed.

Lemma project_of_block_record block :
  project_of_block block = Ok (project_record block).
Proof.
  unfold project_of_block, project_record.
  destruct (nonblank_lines block) as [|n rest]; reflexivity.
Qed.

Lemma extract_projects_records text :
  extract_projects text
  = Ok (firstn 5 (flat_map project_record (re_split false BLANK_GAP text))).
Proof.
  unfold extract_projects.
  rewrite (collect_flat_map project_of_block project_record)
    by (intros b _; apply project_of_block_record).
  reflexivity.
Qed.

End Blocks.

(** ** Matches are words of the pattern *)

Section LanguageFacts.
Context {U : UnicodeTables}.

Lemma mt_lang {A} ic r : forall prev s k (a : A),
  mt ic r prev s k = Some a ->
  exists w rest p, s = w ++ rest /\ k p rest = Some a /\ lang ic r w.
Proof.
  induction r as [ |c|cs| | | |r1 IH1 r2 IH2|r1 IH1 r2 IH2|lo hi r1 IH1];
    intros prev s k a H; cbn [mt] in H.
  - exists [], s, prev. split; [reflexivity|]. split; [exact H | constructor].
  - destruct s as [|x t]; [discriminate|].
    destruct (lit_match ic c x) eqn:E; [|discriminate].
    exists [x], t, (Some x). split; [reflexivity|].
    split; [exact H | now constructor].
  - destruct s as [|x t]; [discriminate|].
    destruct (in_cset cs x) eqn:E; [|discriminate].
    exists [x], t, (Some x). split; [reflexivity|].
    split; [exact H | now constructor].
  - destruct prev; [discriminate|].
    exists [], s, None. split; [reflexivity|]. split; [exact H | constructor].
  - exists [], s, prev. split; [reflexivity|]. split; [|constructor].
    destruct s as [|x [|y t]]; [exact H | | discriminate].
    destruct (x =? NL)%N; [exact H | discriminate].
  - destruct (xorb _ _); [|discriminate].
    exists [], s, prev. split; [reflexivity|]. split; [exact H | constructor].
  - apply IH1 in H. destruct H as (w1 & rest1 & p1 & -> & H & L1).
    apply IH2 in H. destruct H as (w2 & rest2 & p2 & -> & H & L2).
    exists (w1 ++ w2), rest2, p2. split; [now rewrite app_assoc|].
    split; [exact H | now constructor].
  - destruct (mt ic r1 prev s k) as [a'|] eqn:E.
    + injection H as ->. apply IH1 in E.
      destruct E as (w & rest & p & -> & E & L).
      exists w, rest, p. split; [reflexivity|].
      split; [exact E | now apply lang_alt_l].
    + apply IH2 in H. destruct H as (w & rest & p & -> & H & L).
      exists w, rest, p. split; [reflexivity|].
      split; [exact H | now apply lang_alt_r].
  - revert H. generalize (List.length s) as fuel. intros fuel.
    revert lo hi prev s.
    induction fuel as [|f IHf]; intros lo hi prev s H.
    + destruct lo; [|discriminate].
      exists [], s, prev. split; [reflexivity|]. split; [exact H | constructor].
    + match type of H with
      | match ?again with _ => _ end = _ => destruct again as [a'|] eqn:E
      end.
      * injection H as ->.
        assert (Hhi : hi <> Some 0%nat) by (destruct hi as [[|h]|]; congruence).
        destruct hi as [[|h]|]; [discriminate | |];
          (apply IH1 in E; destruct E as (w1 & rest1 & p1 & -> & E & L1);
           destruct (_ <? _)%nat; [|discriminate];
           apply IHf in E; destruct E as (w2 & rest2 & p2 & -> & E & L2);
           exists (w1 ++ w2), rest2, p2; split; [now rewrite app_assoc|];
           split; [exact E | now apply lang_rep_more]).
      * destruct lo; [|discriminate].
        exists [], s, prev. split; [reflexivity|]. split; [exact H | constructor].
Qed.

Lemma match_here_lang ic r prev s m :
  match_here ic r prev s = Some m ->
  lang ic r m /\ exists rest, s = m ++ rest.
Proof.
  unfold match_here.
  destruct (mt ic r prev s (fun _ rest => Some rest)) as [rest|] eqn:E;
    [|discriminate].
  intros [= <-]. apply mt_lang in E.
  destruct E as (w & rest' & p & -> & [= ->] & L).
  rewrite length_app, Nat.add_sub, firstn_app, Nat.sub_diag.
  rewrite firstn_all. simpl. rewrite app_nil_r. split; [exact L | now exists rest].
Qed.

Lemma infix_cons x m s : infix m s -> infix m (x :: s).
Proof. intros (pre & post & ->). now exists (x :: pre), post. Qed.

Lemma search_from_lang ic r : forall s prev m,
  search_from ic r prev s = Some m -> lang ic r m /\ infix m s.
Proof.
  induction s as [|x t IH]; intros prev m H; simpl in H.
  - destruct (match_here ic r prev []) as [m'|] eqn:E; [|discriminate].
    injection H as ->. apply match_here_lang in E.
    destruct E as (L & rest & E). split; [exact L | now exists [], rest].
  - destruct (match_here ic r prev (x :: t)) as [m'|] eqn:E.
    + injection H as ->. apply match_here_lang in E.
      destruct E as (L & rest & E). split; [exact L | now exists [], rest].
    + apply IH in H. destruct H as [L I]. split; [exact L | now apply infix_cons].
Qed.

Lemma findall_from_lang ic r m : forall s prev skip,
  In m (findall_from ic r prev s skip) -> lang ic r m /\ infix m s.
Proof.
  induction s as [|x t IH]; intros prev skip H.
  - destruct skip; simpl in H; [|contradiction].
    destruct (match_here ic r prev []) as [m'|] eqn:E; [|contradiction].
    destruct H as [->|[]]. apply match_here_lang in E.
    destruct E as (L & rest & E). split; [exact L | now exists [], rest].
  - destruct skip as [|n]; simpl in H.
    + destruct (match_here ic r prev (x :: t)) as [m'|] eqn:E.
      * destruct H as [->|H].
        -- apply match_here_lang in E. destruct E as (L & rest & E).
           split; [exact L | now exists [], rest].
        -- apply IH in H. destruct H as [L I].
           split; [exact L | now apply infix_cons].
      * apply IH in H. destruct H as [L I].
        split; [exact L | now apply infix_cons].
    + apply IH in H. destruct H as [L I].
      split; [exact L | now apply infix_cons].
Qed.

(** What the syntax of a pattern says of its words. *)
Lemma lang_min_len ic r w : lang ic r w -> (min_len r <= List.length w)%nat.
Proof.
  induction 1; simpl in *; rewrite ?length_app; try lia.
  destruct lo; simpl in *; lia.
Qed.

Section Atoms.
Variable ic : bool.
Variable atom : regex -> bool.
Variable P : char -> bool.
Hypothesis atom_sound :
  forall a x, atom a = true -> atom_matches ic a x = true -> P x = true.

Lemma lang_forces r w :
  lang ic r w -> forces atom r = true -> existsb P w = true.
Proof.
  induction 1; simpl; intros F; try discriminate.
  - now rewrite (atom_sound (Lit c) x F H).
  - now rewrite (atom_sound (OneOf cs) x F H).
  - rewrite existsb_app. apply orb_prop in F as [F|F];
      [rewrite IHlang1 | rewrite IHlang2]; auto using orb_true_r.
  - apply andb_prop in F. now apply IHlang.
  - apply andb_prop in F. now apply IHlang.
  - destruct lo; [discriminate|]. rewrite existsb_app, IHlang1; auto.
Qed.

Lemma lang_atoms_all r w :
  lang ic r w -> atoms_all atom r = true -> forallb P w = true.
Proof.
  induction 1; simpl; intros F; try reflexivity.
  - now rewrite (atom_sound (Lit c) x F H).
  - now rewrite (atom_sound (OneOf cs) x F H).
  - apply andb_prop in F as [F1 F2]. rewrite forallb_app.
    now rewrite IHlang1, IHlang2.
  - apply andb_prop in F. now apply IHlang.
  - apply andb_prop in F. now apply IHlang.
  - rewrite forallb_app. now rewrite IHlang1, IHlang2.
Qed.

End Atoms.

End LanguageFacts.

(** ** Trimming *)

Lemma drop_space_suffix s : exists pre, s = pre ++ drop_space s.
Proof.
  induction s as [|c t IH]; simpl; [now exists []|].
  destruct (is_space c); [|now exists []].
  destruct IH as [pre E]. exists (c :: pre). simpl. now rewrite <- E.
Qed.

(** [starts_clean s]: [s] does not begin with white space. *)
Lemma drop_space_clean s :
  match drop_space s with c :: _ => is_space c = false | [] => True end.
Proof.
  induction s as [|c t IH]; simpl; [exact I|].
  destruct (is_space c) eqn:E; [exact IH | exact E].
Qed.

Lemma drop_space_fixed s :
  match s with c :: _ => is_space c = false | [] => True end ->
  drop_space s = s.
Proof. destruct s as [|c t]; simpl; [reflexivity|]. now intros ->. Qed.

Lemma strip_infix s : infix (strip s) s.
Proof.
  unfold strip. destruct (drop_space_suffix s) as [pre E].
  destruct (drop_space_suffix (rev (drop_space s))) as [post E'].
  exists pre, (rev post). rewrite E at 1. f_equal.
  rewrite <- rev_app_distr, <- E'. now rewrite rev_involutive.
Qed.

Lemma strip_fixed s : strip (strip s) = strip s.
Proof.
  unfold strip at 2 3.
  set (a := drop_space s).
  set (b := drop_space (rev a)).
  assert (Ha : match a with c :: _ => is_space c = false | [] => True end)
    by apply drop_space_clean.
  assert (Hb : match b with c :: _ => is_space c = false | [] => True end)
    by apply drop_space_clean.
  assert (Hrb : match rev b with c :: _ => is_space c = false | [] => True end).
  { destruct (drop_space_suffix (rev a)) as [pre E]. fold b in E.
    apply (f_equal (@rev char)) in E. rewrite rev_involutive, rev_app_distr in E.
    destruct (rev b) as [|c t]; [exact I|].
    rewrite E in Ha. exact Ha. }
  unfold strip. rewrite (drop_space_fixed _ Hrb), rev_involutive.
  now rewrite (drop_space_fixed _ Hb).
Qed.

Lemma drop_space_existsb P s :
  (forall c, P c = true -> is_space c = false) ->
  existsb P (drop_space s) = existsb P s.
Proof.
  intros HP. induction s as [|c t IH]; simpl; [reflexivity|].
  destruct (is_space c) eqn:E; simpl; [|reflexivity].
  rewrite IH. destruct (P c) eqn:Pc; [|reflexivity].
  rewrite (HP c Pc) in E. discriminate.
Qed.

Lemma existsb_rev {A} (P : A -> bool) s : existsb P (rev s) = existsb P s.
Proof.
  induction s as [|c t IH]; simpl; [reflexivity|].
  rewrite existsb_app, IH. simpl. rewrite orb_false_r. apply orb_comm.
Qed.

Lemma strip_existsb P s :
  (forall c, P c = true -> is_space c = false) ->
  existsb P (strip s) = existsb P s.
Proof.
  intros HP. unfold strip.
  now rewrite existsb_rev, (drop_space_existsb P _ HP), existsb_rev,
    (drop_space_existsb P _ HP).
Qed.

Lemma infix_trans a b c : infix a b -> infix b c -> infix a c.
Proof.
  intros (p1 & q1 & ->) (p2 & q2 & ->).
  exists (p2 ++ p1), (q1 ++ q2). now rewrite <- !app_assoc.
Qed.

Lemma existsb_In_eq c s : existsb (fun x => (x =? c)%N) s = true -> In c s.
Proof.
  rewrite existsb_exists. intros (x & Hx & E). apply N.eqb_eq in E. now subst.
Qed.

(** ** The matcher finds the words of a steady pattern *)

Section Completeness.
Context {U : UnicodeTables}.

Lemma mt_complete {A} ic r : steady r = true ->
  forall w, lang ic r w ->
  forall prev rest (k : option char -> pystr -> option A),
    (forall p, k p rest <> None) ->
    mt ic r prev (w ++ rest) k <> None.
Proof.
  induction r as [ |c|cs| | | |r1 IH1 r2 IH2|r1 IH1 r2 IH2|lo hi r1 IH1];
    intros St w L prev rest k Hk; cbn [steady] in St; try discriminate.
  - inversion L; subst. cbn [mt app]. apply Hk.
  - inversion L as [ |c' x Hx| | | | | | | | | ]; subst. cbn [mt app].
    rewrite Hx. apply Hk.
  - inversion L as [ | |cs' x Hx| | | | | | | | ]; subst. cbn [mt app].
    rewrite Hx. apply Hk.
  - apply andb_prop in St as [S1 S2].
    inversion L as [ | | | | | |a b w1 w2 L1 L2| | | | ]; subst.
    cbn [mt]. rewrite <- app_assoc. apply (IH1 S1 w1 L1).
    intros p. apply (IH2 S2 w2 L2). exact Hk.
  - apply andb_prop in St as [S1 S2]. cbn [mt].
    inversion L as [ | | | | | | |a b w' L1|a b w' L2| | ]; subst.
    + pose proof (IH1 S1 w L1 prev rest k Hk) as H.
      destruct (mt ic r1 prev (w ++ rest) k); [discriminate | contradiction].
    + destruct (mt ic r1 prev (w ++ rest) k); [discriminate|].
      exact (IH2 S2 w L2 prev rest k Hk).
  - apply andb_prop in St as [S1 Hmin]. apply Nat.leb_le in Hmin.
    cbn [mt].
    assert (Hfuel : (List.length w <= List.length (w ++ rest))%nat)
      by (rewrite length_app; lia).
    revert Hfuel. generalize (List.length (w ++ rest)) as fuel. intros fuel.
    revert w lo hi prev L.
    induction fuel as [|f IHf]; intros w lo hi prev L Hfuel.
    + destruct w as [|x w]; [|simpl in Hfuel; lia].
      inversion L as [ | | | | | | | | |hi' r'|lo' hi' r' w1 w2 Hhi L1 L2];
        subst.
      * cbn [app]. apply Hk.
      * destruct w1 as [|y w1]; [|discriminate].
        apply lang_min_len in L1. simpl in L1. lia.
    + inversion L as [ | | | | | | | | |hi' r'|lo' hi' r' w1 w2 Hhi L1 L2];
        subst.
      * cbn [app].
        match goal with
        | |- match ?again with _ => _ end <> None => destruct again
        end; [discriminate | apply Hk].
      * assert (Hw1 : (1 <= List.length w1)%nat).
        { apply lang_min_len in L1. lia. }
        rewrite <- app_assoc.
        destruct hi as [[|h]|]; [congruence | |]; cbv beta iota zeta;
          (match goal with
           | |- match ?again with _ => _ end <> None =>
               assert (Hagain : again <> None);
               [|destruct again; [discriminate|contradiction]]
           end;
           apply (IH1 S1 w1 L1); intros p;
           replace (List.length (w2 ++ rest)
                      <? List.length (w1 ++ w2 ++ rest))%nat
             with true
             by (symmetry; apply Nat.ltb_lt; rewrite !length_app; lia);
           apply IHf; [exact L2|]; rewrite length_app in Hfuel; lia).
Qed.

Lemma match_here_complete ic r prev w rest :
  steady r = true -> lang ic r w -> match_here ic r prev (w ++ rest) <> None.
Proof.
  intros St L. unfold match_here.
  pose proof (mt_complete ic r St w L prev rest (fun _ t => Some t)) as H.
  destruct (mt ic r prev (w ++ rest) (fun _ t => Some t));
    [discriminate|]. exfalso. apply H; [intros p; discriminate | reflexivity].
Qed.

(** Passing over the rest of a match. *)
Lemma findall_skip ic r rest : forall u p,
  exists p', findall_from ic r p (u ++ rest) (List.length u)
             = findall_from ic r p' rest 0.
Proof.
  induction u as [|y u IH]; intros p.
  - now exists p.
  - cbn [app List.length findall_from]. apply IH.
Qed.

(** [re.findall] collects the matches a scan from the left meets. *)
Lemma findall_scan ic r :
  steady r = true -> (1 <= min_len r)%nat ->
  forall s prev, scan_matches ic r s (findall_from ic r prev s 0).
Proof.
  intros St Hmin s.
  remember (List.length s) as n eqn:En.
  assert (Hn : (List.length s <= n)%nat) by lia. clear En.
  revert s Hn. induction n as [|n IH]; intros s Hn prev.
  - destruct s as [|x t]; [|simpl in Hn; lia]. cbn [findall_from].
    destruct (match_here ic r prev []) as [m|] eqn:E; [|constructor].
    apply match_here_lang in E. destruct E as (L & rest & E).
    apply lang_min_len in L. destruct m; [simpl in L; lia | discriminate].
  - destruct s as [|x t].
    + apply (IH [] ltac:(simpl; lia)).
    + cbn [findall_from].
      destruct (match_here ic r prev (x :: t)) as [m|] eqn:E.
      * pose proof E as E'. apply match_here_lang in E'.
        destruct E' as (L & rest & Es).
        pose proof (lang_min_len _ _ _ L) as Hl.
        destruct m as [|y m']; [simpl in Hl; lia|].
        cbn [app] in Es. injection Es as <- ->.
        cbn [List.length pred].
        destruct (findall_skip ic r rest m' (Some x)) as [p' ->].
        change (x :: m' ++ rest) with ((x :: m') ++ rest).
        apply scan_take; [discriminate | exact L|].
        apply IH. simpl in Hn. rewrite length_app in Hn. lia.
      * apply scan_skip.
        -- intros m rest Es L.
           apply (match_here_complete ic r prev m rest St L).
           now rewrite <- Es.
        -- apply IH. simpl in Hn. lia.
Qed.

(** A scan that meets nothing: the pattern matches nowhere. *)
Lemma scan_nothing ic r s :
  (1 <= min_len r)%nat -> scan_matches ic r s [] ->
  forall m, lang ic r m -> ~ infix m s.
Proof.
  intros Hmin H. remember [] as ms eqn:Ems.
  induction H as [|x t ms Hno Hs IH|m0 rest ms Hm L0 Hs IH];
    intros m L (pre & post & E).
  - apply lang_min_len in L.
    destruct pre; [|discriminate]. destruct m; [simpl in L; lia | discriminate].
  - destruct pre as [|y pre].
    + exact (Hno m post E L).
    + injection E as _ E. apply (IH Ems m L). now exists pre, post.
  - discriminate.
Qed.

Lemma findall_found ic r s :
  steady r = true -> (1 <= min_len r)%nat ->
  (re_findall ic r s <> [] <-> exists m, infix m s /\ lang ic r m).
Proof.
  intros St Hmin. split.
  - intros H. destruct (re_findall ic r s) as [|m ms] eqn:E; [congruence|].
    exists m. assert (Hin : In m (re_findall ic r s)) by (rewrite E; now left).
    apply findall_from_lang in Hin. tauto.
  - intros (m & I & L) E.
    pose proof (findall_scan ic r St Hmin s None) as Hs.
    fold (re_findall ic r s) in Hs. rewrite E in Hs.
    exact (scan_nothing ic r s Hmin Hs m L I).
Qed.

Lemma date_pattern_steady :
  steady DATE_PATTERN = true /\ (1 <= min_len DATE_PATTERN)%nat.
Proof. split; [vm_compute; reflexivity | vm_compute; lia]. Qed.

End Completeness.

(** ** Blank-line gaps *)

Section Gaps.
Context {U : UnicodeTables}.

(** What the gap pattern matches at the head of [s], with [lo] newlines
    required: the whole run of newlines, when it is long enough. *)
Lemma newline_rep_match lo prev s :
  mt false (Rep lo None (Lit NL)) prev s (fun _ rest => Some rest)
  = if (lo <=? newline_run s)%nat then Some (skipn (newline_run s) s) else None.
Proof.
  cbn [mt].
  match goal with
  | |- ?f (List.length s) lo None prev s = _ => set (F := f)
  end.
  assert (HF : forall fuel s lo prev,
             (List.length s <= fuel)%nat ->
             F fuel lo None prev s
             = if (lo <=? newline_run s)%nat
               then Some (skipn (newline_run s) s) else None).
  { clear s lo prev. induction fuel as [|f IH]; intros s lo prev Hlen.
    - destruct s as [|x t]; [|simpl in Hlen; lia].
      change (F 0%nat lo None prev [])
        with (match lo with O => Some (@nil char) | S _ => None end).
      destruct lo; reflexivity.
    - change (F (S f) lo None prev s)
        with (match
                 mt false (Lit NL) prev s
                   (fun p t =>
                      if (List.length t <? List.length s)%nat
                      then F f (pred lo) (option_map pred None) p t
                      else None)
               with
               | Some a => Some a
               | None => match lo with O => Some s | S _ => None end
               end).
      destruct s as [|x t]; cbn [mt newline_run].
      + destruct lo; reflexivity.
      + unfold lit_match. cbn [andb].
        destruct (N.eqb_spec x NL) as [->|Hx].
        * assert (Hlt : (List.length t <? List.length (NL :: t))%nat = true)
            by (apply Nat.ltb_lt; simpl; lia).
          rewrite Hlt. cbn [option_map].
          rewrite IH by (simpl in Hlen; lia).
          destruct lo as [|lo]; cbn [pred Nat.leb skipn].
          -- destruct (newline_run t); reflexivity.
          -- destruct (lo <=? newline_run t)%nat; reflexivity.
        * destruct lo; reflexivity. }
  apply HF. lia.
Qed.


Lemma newline_run_le s : (newline_run s <= List.length s)%nat.
Proof.
  induction s as [|c t IH]; simpl; [lia|]. destruct (c =? NL)%N; lia.
Qed.

(** At a position the gap pattern matches the whole run of newlines
    there, when the run has two newlines or more, and nothing
    otherwise. *)
Lemma blank_gap_here prev s :
  match_here false BLANK_GAP prev s
  = if (2 <=? newline_run s)%nat then Some (firstn (newline_run s) s) else None.
Proof.
  unfold match_here, BLANK_GAP. rewrite newline_rep_match.
  destruct (2 <=? newline_run s)%nat; [|reflexivity].
  rewrite length_skipn. f_equal. f_equal.
  pose proof (newline_run_le s). lia.
Qed.

Lemma newline_run_two s :
  (2 <= newline_run s)%nat -> exists t, s = NL :: NL :: t.
Proof.
  destruct s as [|x [|y t]]; simpl.
  - lia.
  - destruct (x =? NL)%N; lia.
  - destruct (N.eqb_spec x NL) as [->|]; [|lia].
    destruct (N.eqb_spec y NL) as [->|]; [|lia].
    intros _. now exists t.
Qed.

Lemma gap_run s :
  ~ infix [NL; NL] s -> (newline_run s < 2)%nat.
Proof.
  intros H. destruct (Nat.ltb_spec (newline_run s) 2) as [Hlt|Hge]; [exact Hlt|].
  exfalso. apply H. destruct (newline_run_two s Hge) as [t ->].
  now exists [], t.
Qed.

Lemma gap_free_snoc l x :
  ~ infix [NL; NL] l ->
  ~ (x = NL /\ exists pre, l = pre ++ [NL]) ->
  ~ infix [NL; NL] (l ++ [x]).
Proof.
  intros Hl Hx (pre & post & E).
  destruct post as [|p0 post0].
  - simpl in E.
    replace (pre ++ [NL; NL]) with ((pre ++ [NL]) ++ [NL]) in E
      by (rewrite <- app_assoc; reflexivity).
    apply app_inj_tail in E. destruct E as [-> ->].
    apply Hx. split; [reflexivity | now exists pre].
  - destruct (@exists_last _ (p0 :: post0)) as (post' & y & Ep);
      [discriminate|]. rewrite Ep in E.
    replace (pre ++ [NL; NL] ++ post' ++ [y])
      with ((pre ++ [NL; NL] ++ post') ++ [y]) in E
      by (rewrite <- !app_assoc; reflexivity).
    apply app_inj_tail in E. destruct E as [-> _].
    apply Hl. now exists pre, post'.
Qed.

Lemma split_from_gap_free : forall s prev skip cur,
  ~ infix [NL; NL] (rev cur) ->
  (skip = 0%nat -> (exists pre, rev cur = pre ++ [NL]) -> newline_run s = 0%nat) ->
  (skip <> 0%nat -> cur = []) ->
  Forall (fun b => ~ infix [NL; NL] b)
         (split_from false BLANK_GAP prev s skip cur).
Proof.
  induction s as [|x t IH]; intros prev skip cur Hcur Hend Hskip.
  - simpl. now repeat constructor.
  - cbn [split_from]. destruct skip as [|n].
    + rewrite blank_gap_here.
      destruct (Nat.leb_spec 2 (newline_run (x :: t))) as [Hge|Hlt].
      * destruct (newline_run (x :: t)) as [|k]; [lia|]. cbn [firstn].
        constructor; [exact Hcur|].
        apply IH.
        -- intros (pre & post & E). destruct pre; discriminate.
        -- intros _ (pre & E). destruct pre; discriminate.
        -- reflexivity.
      * apply IH.
        -- cbn [rev]. apply gap_free_snoc; [exact Hcur|].
           intros [-> Hpre]. specialize (Hend eq_refl Hpre).
           simpl in Hend. discriminate.
        -- intros _ (pre & E). cbn [rev] in E.
           apply app_inj_tail in E. destruct E as [_ ->].
           simpl in Hlt. lia.
        -- intros H. contradiction.
    + rewrite (Hskip ltac:(discriminate)).
      apply IH.
      * intros (pre & post & E). destruct pre; discriminate.
      * intros _ (pre & E). destruct pre; discriminate.
      * reflexivity.
Qed.

Lemma split_from_no_gap : forall s prev cur,
  ~ infix [NL; NL] s ->
  split_from false BLANK_GAP prev s 0 cur = [rev cur ++ s].
Proof.
  induction s as [|x t IH]; intros prev cur H.
  - simpl. now rewrite app_nil_r.
  - cbn [split_from]. rewrite blank_gap_here.
    pose proof (gap_run _ H) as Hrun.
    destruct (Nat.leb_spec 2 (newline_run (x :: t))) as [Hge|_]; [lia|].
    rewrite IH.
    + cbn [rev]. now rewrite <- app_assoc.
    + intros (pre & post & E). apply H. exists (x :: pre), post.
      simpl. now rewrite E.
Qed.

Lemma split_from_cons ic r : forall s prev skip cur,
  split_from ic r prev s skip cur <> [].
Proof.
  induction s as [|x t IH]; intros prev skip cur; cbn [split_from];
    [discriminate|].
  destruct skip; [|apply IH].
  destruct (match_here ic r prev (x :: t)) as [[|? ?]|];
    [apply IH | discriminate | apply IH].
Qed.

(** X12. The blocks the extractors work on: [re.split] on the gap pattern
    gives at least one block, no block holds two newlines in a row, and
    a text without two newlines in a row is its own single block. *)
Theorem blocks_hold_no_gap text :
  re_split false BLANK_GAP text <> []
  /\ Forall (fun b => ~ infix [NL; NL] b) (re_split false BLANK_GAP text)
  /\ (~ infix [NL; NL] text -> re_split false BLANK_GAP text = [text]).
Proof.
  unfold re_split. split; [|split].
  - apply split_from_cons.
  - apply split_from_gap_free.
    + intros (pre & post & E). destruct pre; discriminate.
    + intros _ (pre & E). destruct pre; discriminate.
    + intros H. contradiction.
  - intros H. now rewrite split_from_no_gap.
Qed.

End Gaps.

(** ** Where the blocks lie *)

Section GapBlocks.
Context {U : UnicodeTables}.

Lemma run_split s :
  s = repeat NL (newline_run s) ++ skipn (newline_run s) s.
Proof.
  induction s as [|x t IH]; [reflexivity|]. cbn [newline_run].
  destruct (N.eqb_spec x NL) as [->|_]; [|reflexivity].
  cbn [repeat skipn app]. now rewrite <- IH.
Qed.

Lemma run_rest s : hd_error (skipn (newline_run s) s) <> Some NL.
Proof.
  induction s as [|x t IH]; [discriminate|]. cbn [newline_run].
  destruct (N.eqb_spec x NL) as [->|Hx]; [exact IH|].
  cbn [skipn hd_error]. congruence.
Qed.

Lemma run_zero s : hd_error s <> Some NL -> newline_run s = 0%nat.
Proof.
  destruct s as [|x t]; [reflexivity|]. cbn [hd_error newline_run].
  destruct (N.eqb_spec x NL) as [->|_]; [congruence | reflexivity].
Qed.

(** Passing over the rest of a separator. *)
Lemma split_skip ic r rest cur : forall u p,
  exists p', split_from ic r p (u ++ rest) (List.length u) cur
             = split_from ic r p' rest 0 cur.
Proof.
  induction u as [|y u IH]; intros p.
  - now exists p.
  - cbn [app List.length split_from]. apply IH.
Qed.

Lemma split_from_gaps : forall n s, (List.length s <= n)%nat ->
  forall prev cur,
    ~ infix [NL; NL] (rev cur) ->
    ((exists pre, rev cur = pre ++ [NL]) -> newline_run s = 0%nat) ->
    split_at_gaps (rev cur ++ s) (split_from false BLANK_GAP prev s 0 cur).
Proof.
  induction n as [|n IH]; intros s Hn prev cur Hcur Hend.
  - destruct s as [|x t]; [|simpl in Hn; lia].
    cbn [split_from]. rewrite app_nil_r. now apply gaps_none.
  - destruct s as [|x t].
    + cbn [split_from]. rewrite app_nil_r. now apply gaps_none.
    + cbn [split_from]. rewrite blank_gap_here.
      destruct (Nat.leb_spec 2 (newline_run (x :: t))) as [Hge|Hlt].
      * pose proof Hend as Hend0.
        pose proof (run_split (x :: t)) as Es.
        pose proof (run_rest (x :: t)) as Hr.
        pose proof (newline_run_le (x :: t)) as Hle.
        destruct (newline_run (x :: t)) as [|k] eqn:Erun; [lia|].
        cbn [firstn]. cbn [repeat skipn app] in Es, Hr.
        injection Es as Ex Et.
        assert (Hk : List.length (firstn k t) = List.length (repeat NL k)).
        { rewrite length_firstn, repeat_length. simpl in Hle. lia. }
        rewrite Hk. clear Hk Erun Hle Hend.
        set (rest := skipn k t) in *. clearbody rest. subst t x.
        destruct (split_skip false BLANK_GAP rest [] (repeat NL k) (Some NL))
          as [p' ->].
        change (NL :: repeat NL k ++ rest) with (repeat NL (S k) ++ rest).
        apply gaps_more.
        -- exact Hcur.
        -- intros pre E. specialize (Hend0 (ex_intro _ pre E)).
           rewrite Hend0 in Hge. lia.
        -- exact Hge.
        -- exact Hr.
        -- apply (IH rest) with (cur := []).
           ++ simpl in Hn. rewrite length_app in Hn. lia.
           ++ intros (pre & post & E). destruct pre; discriminate.
           ++ intros (pre & E). destruct pre; discriminate.
      * replace (rev cur ++ x :: t) with (rev (x :: cur) ++ t)
          by (cbn [rev]; rewrite <- app_assoc; reflexivity).
        apply IH.
        -- simpl in Hn. lia.
        -- cbn [rev]. apply gap_free_snoc; [exact Hcur|].
           intros [-> Hpre]. specialize (Hend Hpre).
           simpl in Hend. discriminate.
        -- intros (pre & E). cbn [rev] in E.
           apply app_inj_tail in E. destruct E as [_ ->].
           simpl in Hlt. lia.
Qed.

(** [re.split] on the gap pattern cuts the text at its runs of two
    newlines or more. *)
Lemma re_split_gaps text :
  split_at_gaps text (re_split false BLANK_GAP text).
Proof.
  unfold re_split.
  apply (split_from_gaps (List.length text) text (le_n _) None []).
  - intros (pre & post & E). destruct pre; discriminate.
  - intros (pre & E). destruct pre; discriminate.
Qed.

Lemma run_repeat n rest :
  hd_error rest <> Some NL -> newline_run (repeat NL n ++ rest) = n.
Proof.
  intros H. induction n as [|n IH]; cbn [repeat app newline_run].
  - now apply run_zero.
  - rewrite N.eqb_refl. now rewrite IH.
Qed.

Lemma repeat_gap n rest :
  (2 <= n)%nat -> exists t, repeat NL n ++ rest = NL :: NL :: t.
Proof.
  intros H. destruct n as [|[|m]]; [lia | lia|].
  now exists (repeat NL m ++ rest).
Qed.

Lemma no_block_before_run b n n' rest rest' :
  b <> [] -> ~ infix [NL; NL] b -> (forall pre, b <> pre ++ [NL]) ->
  (2 <= n)%nat -> (2 <= n')%nat ->
  repeat NL n ++ rest <> b ++ repeat NL n' ++ rest'.
Proof.
  intros Hb Hgap Hend Hn Hn' E.
  destruct (repeat_gap n rest Hn) as [t Et]. rewrite Et in E.
  destruct b as [|y [|z b]]; [contradiction | |].
  - injection E as <- _. exact (Hend [] eq_refl).
  - injection E as <- <- _. apply Hgap. now exists [], b.
Qed.

Lemma first_gap_unique : forall b b' n n' rest rest',
  ~ infix [NL; NL] b -> (forall pre, b <> pre ++ [NL]) ->
  ~ infix [NL; NL] b' -> (forall pre, b' <> pre ++ [NL]) ->
  (2 <= n)%nat -> (2 <= n')%nat ->
  hd_error rest <> Some NL -> hd_error rest' <> Some NL ->
  b ++ repeat NL n ++ rest = b' ++ repeat NL n' ++ rest' ->
  b = b' /\ rest = rest'.
Proof.
  induction b as [|x b IH]; intros b' n n' rest rest' G E G' E' Hn Hn' Hr Hr' Eq.
  - destruct b' as [|y b'].
    + split; [reflexivity|]. cbn [app] in Eq.
      pose proof (f_equal newline_run Eq) as En.
      rewrite !run_repeat in En by assumption. subst n'.
      now apply app_inv_head in Eq.
    + exfalso. cbn [app] in Eq.
      now apply (no_block_before_run (y :: b') n n' rest rest').
  - destruct b' as [|y b'].
    + exfalso. symmetry in Eq. cbn [app] in Eq.
      now apply (no_block_before_run (x :: b) n' n rest' rest).
    + cbn [app] in Eq. injection Eq as <- Eq.
      destruct (IH b' n n' rest rest') as [-> ->]; auto.
      * intros I. apply G. now apply infix_cons.
      * intros pre ->. apply (E (x :: pre)). reflexivity.
      * intros I. apply G'. now apply infix_cons.
      * intros pre ->. apply (E' (x :: pre)). reflexivity.
Qed.

(** The blocks of a text are determined. *)
Lemma split_at_gaps_unique text bs :
  split_at_gaps text bs -> forall bs', split_at_gaps text bs' -> bs = bs'.
Proof.
  induction 1 as [b G|b n rest bs G E Hn Hr Hs IH]; intros bs' H'.
  - inversion H' as [b0 G0|b0 n0 rest0 bs0 G0 E0 Hn0 Hr0 Hs0 Eq]; subst;
      [reflexivity|].
    exfalso. apply G.
    destruct (repeat_gap n0 rest0 Hn0) as [t ->]. now exists b0, t.
  - inversion H' as [b0 G0|b0 n0 rest0 bs0 G0 E0 Hn0 Hr0 Hs0 Eq]; subst.
    + exfalso. apply G0.
      destruct (repeat_gap n rest Hn) as [t ->]. now exists b, t.
    + destruct (first_gap_unique b0 b n0 n rest0 rest) as [-> ->]; auto.
      f_equal. now apply IH.
Qed.

Lemma block_in_text text bs :
  split_at_gaps text bs -> forall b, In b bs -> infix b text.
Proof.
  induction 1 as [b G|b n rest bs G E Hn Hr Hs IH]; intros x Hx.
  - destruct Hx as [<-|[]]. exists [], []. now rewrite app_nil_r.
  - destruct Hx as [<-|Hx].
    + now exists [], (repeat NL n ++ rest).
    + destruct (IH x Hx) as (pre & post & ->).
      exists (b ++ repeat NL n ++ pre), post. now rewrite <- !app_assoc.
Qed.

End GapBlocks.

(** ** The experience and project extractors *)

Section BlockRecords.
Context {U : UnicodeTables}.



End BlockRecords.

(** ** The contact extractors *)

Lemma email_item_sound it x :
  email_item it = true ->
  match it with
  | CChar c => (x =? c)%N
  | CRange lo hi => ((lo <=? x) && (x <=? hi))%N
  | _ => false
  end = true ->
  email_char x = true.
Proof.
  destruct it as [c|lo hi| | |]; simpl; try discriminate.
  - intros H E. apply N.eqb_eq in E. now subst.
  - intros H E. apply andb_prop in E as [E1 E2].
    apply N.leb_le in E1, E2. unfold email_char, ascii_digit, ascii_letter,
      ascii_upper, ascii_lower.
    apply orb_prop in H as [H|H]; [apply orb_prop in H as [H|H]|];
      apply andb_prop in H as [H1 H2]; apply N.leb_le in H1, H2.
    + replace (48 <=? x)%N with true by (symmetry; apply N.leb_le; lia).
      replace (x <=? 57)%N with true by (symmetry; apply N.leb_le; lia).
      reflexivity.
    + replace (65 <=? x)%N with true by (symmetry; apply N.leb_le; lia).
      replace (x <=? 90)%N with true by (symmetry; apply N.leb_le; lia).
      simpl. now rewrite orb_true_r.
    + replace (97 <=? x)%N with true by (symmetry; apply N.leb_le; lia).
      replace (x <=? 122)%N with true by (symmetry; apply N.leb_le; lia).
      simpl. now rewrite !orb_true_r.
Qed.

Section Contact.
Context {U : UnicodeTables}.

Lemma email_atom_sound a x :
  email_atom a = true -> atom_matches false a x = true -> email_char x = true.
Proof.
  destruct a as [ |c|cs| | | | | | ]; simpl; try discriminate.
  - intros H E. apply andb_prop in H as [H _].
    unfold lit_match in E. simpl in E. apply N.eqb_eq in E. now subst.
  - intros H E. unfold in_cset in E. apply existsb_exists in E.
    destruct E as (it & Hin & E). rewrite forallb_forall in H.
    specialize (H it Hin). apply (email_item_sound it x H).
    destruct it; simpl in *; try discriminate; exact E.
Qed.

Lemma at_sign_sound ic a x :
  is_lit 64 a = true -> atom_matches ic a x = true -> (x =? 64)%N = true.
Proof.
  destruct a as [ |c| | | | | | | ]; simpl; try discriminate.
  intros H E. apply N.eqb_eq in H. subst c.
  unfold lit_match in E. rewrite andb_false_r in E. exact E.
Qed.

Lemma digit_set_sound ic a x :
  is_digit_set a = true -> atom_matches ic a x = true -> is_decimal x = true.
Proof.
  destruct a as [ | |[|[] [|]]| | | | | | ]; simpl; try discriminate.
  intros _ E. now rewrite orb_false_r in E.
Qed.

Lemma extract_email_match text m :
  extract_email text = Ok (Some m) ->
  lang false EMAIL_PATTERN m /\ infix m text.
Proof.
  unfold extract_email.
  destruct (re_findall false EMAIL_PATTERN text) as [|m0 ms] eqn:E;
    [discriminate|].
  simpl. intros [= <-].
  apply (findall_from_lang false EMAIL_PATTERN m0 text None 0).
  unfold re_findall in E. rewrite E. now left.
Qed.

(** X1. The address [extract_email] returns is a piece of the text, at
    least six characters long, with an at sign, made of ASCII letters,
    digits and the characters [. _ % + - @] only. *)
Theorem extract_email_shape text m :
  extract_email text = Ok (Some m) ->
  infix m text
  /\ (6 <= List.length m)%nat
  /\ In 64%N m
  /\ forallb email_char m = true.
Proof.
  intros H. apply extract_email_match in H. destruct H as [L I].
  split; [exact I|]. split; [exact (lang_min_len _ _ _ L)|]. split.
  - apply existsb_In_eq.
    apply (lang_forces false (is_lit 64) _ (at_sign_sound false) _ _ L).
    reflexivity.
  - apply (lang_atoms_all false email_atom _ email_atom_sound _ _ L).
    reflexivity.
Qed.

Lemma first_phone_found ps text p :
  first_phone ps text = Some p ->
  exists r m, In r ps /\ re_search false r text = Some m /\ p = strip m.
Proof.
  induction ps as [|r t IH]; simpl; [discriminate|].
  destruct (re_search false r text) as [m|] eqn:E.
  - intros [= <-]. exists r, m. auto.
  - intros H. destruct (IH H) as (r' & m & Hin & Hs & ->).
    exists r', m. auto.
Qed.

Lemma extract_phone_match text p :
  extract_phone text = Some p ->
  exists m, p = strip m /\ infix m text /\ has_digit (strip m) = true.
Proof.
  intros H. apply first_phone_found in H.
  destruct H as (r & m & Hin & Hs & ->).
  apply search_from_lang in Hs. destruct Hs as [L I].
  assert (F : forces is_digit_set r = true).
  { assert (T : forallb (forces is_digit_set) PHONE_PATTERNS = true)
      by reflexivity.
    rewrite forallb_forall in T. now apply T. }
  exists m. split; [reflexivity|]. split; [exact I|].
  unfold has_digit. rewrite (strip_existsb _ _ is_decimal_not_space).
  exact (lang_forces false is_digit_set _ (digit_set_sound false) _ _ L F).
Qed.

(** X2. The number [extract_phone] returns is a piece of the text, holds a
    digit -- so it is not empty -- and has no white space at either
    end. *)
Theorem extract_phone_shape text p :
  extract_phone text = Some p ->
  infix p text /\ has_digit p = true /\ p <> [] /\ strip p = p.
Proof.
  intros H. apply extract_phone_match in H.
  destruct H as (m & -> & I & D).
  split; [exact (infix_trans _ _ _ (strip_infix m) I)|].
  split; [exact D|]. split; [|apply strip_fixed].
  intros E. rewrite E in D. discriminate.
Qed.

(** X3. The links [extract_linkedin] and [extract_github] return are
    ["https://"] followed by a piece of the text, of at least 17 and 12
    characters. *)
Theorem extract_links_shape text u :
  (extract_linkedin text = Some u ->
   exists m, u = str "https://" ++ m /\ infix m text
             /\ (17 <= List.length m)%nat)
  /\ (extract_github text = Some u ->
      exists m, u = str "https://" ++ m /\ infix m text
                /\ (12 <= List.length m)%nat).
Proof.
  unfold extract_linkedin, extract_github. split.
  - destruct (re_search true LINKEDIN_PATTERN text) as [m|] eqn:E;
      [|discriminate].
    intros [= <-]. apply search_from_lang in E. destruct E as [L I].
    exists m. split; [reflexivity|]. split; [exact I|].
    exact (lang_min_len _ _ _ L).
  - destruct (re_search true GITHUB_PATTERN text) as [m|] eqn:E;
      [|discriminate].
    intros [= <-]. apply search_from_lang in E. destruct E as [L I].
    exists m. split; [reflexivity|]. split; [exact I|].
    exact (lang_min_len _ _ _ L).
Qed.

Variable ner : option (pystr -> list (pystr * pystr)).

(** X4. In a result of [parse_text] the email, phone, linkedin and github
    fields are never the empty string, so the contact part of the score
    is 8 for an address found, 6 for a number found and 6 for a linkedin
    link found. *)
Theorem contact_fields_never_empty now text :
  exists r, parse_text ner now text = Ok r
    /\ Contact.email (contact (fields r)) <> Some []
    /\ Contact.phone (contact (fields r)) <> Some []
    /\ Contact.linkedin (contact (fields r)) <> Some []
    /\ Contact.github (contact (fields r)) <> Some []
    /\ contact_points (contact (fields r))
       = (8 * b2z (is_some (Contact.email (contact (fields r))))
          + 6 * b2z (is_some (Contact.phone (contact (fields r))))
          + 6 * b2z (is_some (Contact.linkedin (contact (fields r)))))%Z.
Proof.
  destruct (parse_text_fields ner now text)
    as (r & E & _ & _ & Hem & Hph & Hli & Hgh & _).
  exists r. split; [exact E|].
  assert (He : Contact.email (contact (fields r)) <> Some []).
  { intros H. rewrite H in Hem. apply extract_email_match in Hem.
    destruct Hem as [L _]. apply lang_min_len in L. simpl in L. lia. }
  assert (Hp : Contact.phone (contact (fields r)) <> Some []).
  { intros H. rewrite Hph in H. apply extract_phone_match in H.
    destruct H as (m & E' & _ & D). rewrite <- E' in D. discriminate. }
  assert (Hl : Contact.linkedin (contact (fields r)) <> Some []).
  { rewrite Hli. unfold extract_linkedin.
    destruct (re_search true LINKEDIN_PATTERN text); discriminate. }
  assert (Hg : Contact.github (contact (fields r)) <> Some []).
  { rewrite Hgh. unfold extract_github.
    destruct (re_search true GITHUB_PATTERN text); discriminate. }
  repeat (split; [assumption|]).
  unfold contact_points, truthy.
  destruct (Contact.email (contact (fields r))) as [[|]|];
    destruct (Contact.phone (contact (fields r))) as [[|]|];
    destruct (Contact.linkedin (contact (fields r))) as [[|]|];
    try reflexivity; exfalso;
    solve [apply He; reflexivity | apply Hp; reflexivity | apply Hl; reflexivity].
Qed.

End Contact.

Lemma extract_email_shape_witness :
  infix (str "john@example.com") sample_resume
  /\ (6 <= List.length (str "john@example.com"))%nat
  /\ In 64%N (str "john@example.com")
  /\ forallb email_char (str "john@example.com") = true.
Proof.
  apply (extract_email_shape sample_resume (str "john@example.com")).
  vm_compute. reflexivity.
Defined.

Lemma extract_links_shape_witness :
  exists m, str "https://linkedin.com/in/johnsmith" = str "https://" ++ m
            /\ infix m sample_resume /\ (17 <= List.length m)%nat.
Proof.
  apply (proj1 (extract_links_shape sample_resume
                  (str "https://linkedin.com/in/johnsmith"))).
  vm_compute. reflexivity.
Defined.

Lemma extract_phone_shape_witness :
  infix (str "+1 415-555-0100") sample_resume
  /\ has_digit (str "+1 415-555-0100") = true
  /\ str "+1 415-555-0100" <> []
  /\ strip (str "+1 415-555-0100") = str "+1 415-555-0100".
Proof.
  apply (extract_phone_shape sample_resume (str "+1 415-555-0100")).
  vm_compute. reflexivity.
Defined.

(** ** Invariants of the sections mapping and of the records *)

Lemma dict_set_head k0 v0 d k v :
  exists v' d', dict_set ((k0, v0) :: d) k v = (k0, v') :: d'.
Proof.
  simpl. destruct (label_eqb k0 k); now eexists; eexists.
Qed.

Lemma dict_set_keys_from d k v x :
  In x (map fst (dict_set d k v)) -> x = k \/ In x (map fst d).
Proof.
  induction d as [|[k' v'] t IH]; simpl.
  - intros [<-|[]]. now left.
  - destruct (label_eqb k' k); simpl.
    + intros [<-|H]; right; [now left | now right].
    + intros [<-|H]; [right; now left|].
      destruct (IH H) as [->|H']; [now left | right; now right].
Qed.

Lemma dict_set_values (Q : pystr -> Prop) d k v :
  Q v -> Forall (fun kv => Q (snd kv)) d ->
  Forall (fun kv => Q (snd kv)) (dict_set d k v).
Proof.
  intros Hv. induction d as [|[k' v'] t IH]; simpl; intros H.
  - now constructor.
  - inversion H as [|? ? Hh Ht]; subst.
    destruct (label_eqb k' k); constructor; auto.
Qed.

Lemma NoDup_map_filter {A B} (f : A -> B) (p : A -> bool) xs :
  NoDup (map f xs) -> NoDup (map f (filter p xs)).
Proof.
  induction xs as [|x t IH]; simpl; intros H; [constructor|].
  inversion H as [|? ? Hx Ht]; subst.
  destruct (p x); simpl; [|now apply IH].
  constructor; [|now apply IH].
  intros Hin. apply Hx. apply in_map_iff in Hin.
  destruct Hin as (y & E & Hy). apply filter_In in Hy.
  apply in_map_iff. exists y. tauto.
Qed.

Lemma NoDup_firstn {A} n (xs : list A) : NoDup xs -> NoDup (firstn n xs).
Proof.
  revert xs. induction n as [|n IH]; intros [|x t] H; simpl; try constructor.
  - inversion H; subst. intros Hin. apply in_firstn in Hin. contradiction.
  - inversion H; subst. now apply IH.
Qed.

Lemma Ok_inj {A} (a b : A) : Ok a = Ok b -> a = b.
Proof. congruence. Qed.

Lemma distinctb_sound xs : distinctb xs = true -> NoDup xs.
Proof.
  induction xs as [|x t IH]; simpl; intros H; constructor.
  - apply andb_prop in H as [H _]. intros Hin.
    apply negb_true_iff in H. rewrite <- not_true_iff_false in H. apply H.
    apply existsb_exists. exists x. split; [exact Hin|].
    unfold pystr_eqb. now destruct (list_eq_dec N.eq_dec x x).
  - apply andb_prop in H as [_ H]. now apply IH.
Qed.

Section Invariants.
Context {U : UnicodeTables}.
Variable ner : option (pystr -> list (pystr * pystr)).

Lemma fold_store_head segs : forall k0 v0 d,
  exists v' d', fold_left store segs ((k0, v0) :: d) = (k0, v') :: d'.
Proof.
  induction segs as [|seg t IH]; intros k0 v0 d; simpl.
  - now eexists; eexists.
  - unfold store at 2.
    destruct (dict_set_head k0 v0 d (fst seg) (block_text (snd seg)))
      as (v' & d' & ->).
    apply IH.
Qed.

Lemma fold_store_keys_from segs : forall d x,
  In x (map fst (fold_left store segs d)) ->
  In x (map fst d) \/ In x (map fst segs).
Proof.
  induction segs as [|seg t IH]; intros d x H; simpl in *; [now left|].
  destruct (IH _ _ H) as [H'|H']; [|right; now right].
  unfold store in H'. apply dict_set_keys_from in H'.
  destruct H' as [->|H']; [right; now left | now left].
Qed.

Lemma fold_store_trimmed segs : forall d,
  Forall (fun kv => strip (snd kv) = snd kv) d ->
  Forall (fun kv => strip (snd kv) = snd kv) (fold_left store segs d).
Proof.
  induction segs as [|seg t IH]; intros d H; simpl; [exact H|].
  apply IH. unfold store.
  apply (dict_set_values (fun v => strip v = v)); [apply strip_fixed | exact H].
Qed.

Lemma later_segments_labels lines x :
  In x (map fst (later_segments lines)) -> In x (map fst SECTION_HEADERS).
Proof.
  induction lines as [|l t IH]; simpl; [contradiction|].
  destruct (matched_section l) as [sec|] eqn:E; [|exact IH].
  simpl. intros [<-|H]; [|now apply IH].
  now apply first_heading_In in E.
Qed.

Lemma sections_head_key text :
  exists v d, extract_sections text = (Header, v) :: d.
Proof.
  rewrite extract_sections_segments. unfold segments.
  cbn [fold_left]. unfold store at 2. cbn [dict_set fst snd].
  apply fold_store_head.
Qed.

Lemma sections_key_origin text x :
  In x (map fst (extract_sections text)) ->
  x = Header \/ In x (map fst SECTION_HEADERS).
Proof.
  intros Hx. rewrite extract_sections_segments in Hx.
  apply fold_store_keys_from in Hx. destruct Hx as [[]|Hx].
  unfold segments in Hx. cbn [map fst] in Hx.
  destruct Hx as [<-|Hx]; [now left|].
  right. now apply later_segments_labels in Hx.
Qed.

(** X5. The keys of [sections] are ["header"], first, then labels of
    [SECTION_HEADERS], none twice; every text stored is trimmed. *)
Theorem sections_keys_and_values text :
  (exists rest,
      map fst (extract_sections text) = Header :: rest
      /\ NoDup (Header :: rest)
      /\ incl rest (map fst SECTION_HEADERS))
  /\ Forall (fun kv => strip (snd kv) = snd kv) (extract_sections text).
Proof.
  split.
  - pose proof (extract_sections_keys text) as Hnd.
    pose proof (sections_key_origin text) as Hin.
    destruct (sections_head_key text) as (v & d & E).
    rewrite E in Hnd, Hin |- *. cbn [map fst] in Hnd, Hin |- *.
    exists (map fst d). split; [reflexivity|]. split; [exact Hnd|].
    intros x Hx. destruct (Hin x (or_intror Hx)) as [->|H]; [|exact H].
    inversion Hnd; subst. contradiction.
  - rewrite extract_sections_segments. apply fold_store_trimmed. constructor.
Qed.

Lemma nonblank_lines_trimmed text l :
  In l (nonblank_lines text) -> l <> [] /\ strip l = l.
Proof.
  unfold nonblank_lines. intros H. apply in_map_iff in H.
  destruct H as (x & <- & Hx). apply filter_In in Hx. destruct Hx as [_ Hx].
  split; [now destruct (strip x) | apply strip_fixed].
Qed.

Lemma capitalized_skills_distinct : NoDup (map capitalize ALL_SKILLS).
Proof. apply distinctb_sound. vm_compute. reflexivity. Qed.

Lemma techs_of_incl desc : incl (techs_of desc) (map capitalize ALL_SKILLS).
Proof.
  unfold techs_of. intros t Ht. apply in_map_iff in Ht.
  destruct Ht as (s & <- & Hs). apply filter_In in Hs. destruct Hs as [Hs _].
  exact (in_map capitalize ALL_SKILLS s Hs).
Qed.

Lemma techs_of_distinct desc : NoDup (techs_of desc).
Proof.
  unfold techs_of.
  exact (NoDup_map_filter capitalize _ ALL_SKILLS capitalized_skills_distinct).
Qed.

(** X7. At most five project records; each has a trimmed, non-empty name, a
    description of at most 300 characters, and at most eight
    technologies, which are capitalised keywords of [ALL_SKILLS], none
    twice. *)
Theorem extract_projects_bounds text :
  exists records,
    extract_projects text = Ok records
    /\ (List.length records <= 5)%nat
    /\ Forall (fun p =>
                 Proj.name p <> [] /\ strip (Proj.name p) = Proj.name p
                 /\ (List.length (Proj.description p) <= 300)%nat
                 /\ (List.length (Proj.technologies p) <= 8)%nat
                 /\ incl (Proj.technologies p) (map capitalize ALL_SKILLS)
                 /\ NoDup (Proj.technologies p))
              records.
Proof.
  eexists. split; [apply extract_projects_records|].
  split; [apply firstn_le_length|].
  apply Forall_forall. intros p Hp. apply in_firstn in Hp.
  apply in_flat_map in Hp. destruct Hp as (b & _ & Hp).
  unfold project_record in Hp.
  destruct (nonblank_lines b) as [|n rest] eqn:E; [contradiction|].
  destruct Hp as [<-|[]]. cbn [Proj.name Proj.description Proj.technologies].
  destruct (nonblank_lines_trimmed b n) as [Hn Hs]; [rewrite E; now left|].
  split; [exact Hn|]. split; [exact Hs|].
  split; [apply firstn_le_length|]. split; [apply firstn_le_length|]. split.
  - intros t Ht. apply in_firstn in Ht. exact (techs_of_incl _ t Ht).
  - apply NoDup_firstn. apply techs_of_distinct.
Qed.

(** X8. The score is 100 exactly for a record with the three scored
    contact fields, a summary, 13 skills, 4 experience records, 3
    education records and 3 project records or more; it is 0 exactly for
    a record with none of these. *)
Theorem score_extremes (p : Parsed) :
  (calculate_score p = Ok 100%Z <->
   truthy (Contact.email (contact p)) = true
   /\ truthy (Contact.phone (contact p)) = true
   /\ truthy (Contact.linkedin (contact p)) = true
   /\ nonempty (summary p) = true
   /\ (13 <= skills_total (skills p))%nat
   /\ (4 <= List.length (experience p))%nat
   /\ (3 <= List.length (education p))%nat
   /\ (3 <= List.length (projects p))%nat)
  /\ (calculate_score p = Ok 0%Z <->
      truthy (Contact.email (contact p)) = false
      /\ truthy (Contact.phone (contact p)) = false
      /\ truthy (Contact.linkedin (contact p)) = false
      /\ nonempty (summary p) = false
      /\ skills_total (skills p) = 0%nat
      /\ List.length (experience p) = 0%nat
      /\ List.length (education p) = 0%nat
      /\ List.length (projects p) = 0%nat).
Proof.
  rewrite calculate_score_table. unfold score_table, contact_points.
  destruct (truthy (Contact.email (contact p)));
    destruct (truthy (Contact.phone (contact p)));
    destruct (truthy (Contact.linkedin (contact p)));
    destruct (nonempty (summary p));
    cbn [b2z];
    (split;
     (split;
      [ intros H; apply Ok_inj in H; repeat split; try reflexivity;
        solve [lia | exfalso; lia]
      | intros (H1 & H2 & H3 & H4 & H5 & H6 & H7 & H8);
        try discriminate; f_equal; lia ])).
Qed.

End Invariants.

(** ** Skills, education and experience records *)

Lemma filter_map_swap {A B} (g : A -> B) (q : B -> bool) xs :
  filter q (map g xs) = map g (filter (fun x => q (g x)) xs).
Proof.
  induction xs as [|x t IH]; simpl; [reflexivity|].
  destruct (q (g x)); simpl; now rewrite IH.
Qed.

Lemma filter_length_le {A} (p : A -> bool) xs :
  (List.length (filter p xs) <= List.length xs)%nat.
Proof.
  induction xs as [|x t IH]; simpl; [lia|]. destruct (p x); simpl; lia.
Qed.

Lemma distinctb_map_display kws :
  distinctb (map display kws) = true -> forall p, NoDup (map display (filter p kws)).
Proof.
  intros H p. apply NoDup_map_filter. now apply distinctb_sound.
Qed.

Section RecordFacts.
Context {U : UnicodeTables}.

Lemma extract_skills_rows text :
  extract_skills text
  = map (hits (py_lower text))
        (filter (fun cs => nonempty (snd (hits (py_lower text) cs))) SKILLS_DB).
Proof. unfold extract_skills. now rewrite filter_map_swap. Qed.

Lemma skills_total_hits tl rows :
  (skills_total (map (hits tl) rows) <= skills_total rows)%nat.
Proof.
  unfold skills_total. induction rows as [|cs t IH]; simpl; [lia|].
  rewrite length_map. pose proof (filter_length_le
    (fun skill => is_some (re_search false (skill_pattern skill) tl)) (snd cs)).
  lia.
Qed.

Lemma skills_total_filter (q : category * list pystr -> bool) rows :
  (skills_total (filter q rows) <= skills_total rows)%nat.
Proof.
  unfold skills_total. induction rows as [|cs t IH]; simpl; [lia|].
  destruct (q cs); simpl; lia.
Qed.

(** X9. The skills found are listed by category in the order of
    [SKILLS_DB], no category twice and none empty; a category lists
    display forms of its own keywords, none twice; in all at most the
    122 keywords of the table. *)
Theorem extract_skills_listing text :
  NoDup (map fst (extract_skills text))
  /\ Forall (fun kv =>
               snd kv <> [] /\ NoDup (snd kv)
               /\ exists kws, In (fst kv, kws) SKILLS_DB
                              /\ incl (snd kv) (map display kws))
            (extract_skills text)
  /\ (skills_total (extract_skills text) <= 122)%nat.
Proof.
  rewrite extract_skills_rows. split; [|split].
  - rewrite map_map. cbn [hits fst].
    apply (NoDup_map_filter fst). apply NoDup_map_inv with (f := fun c =>
      match c with
      | Programming => 0 | Web => 1 | Data => 2 | MlAi => 3
      | CloudDevops => 4 | Soft => 5
      end%nat).
    cbv. repeat constructor; cbn; lia.
  - apply Forall_forall. intros kv Hin. apply in_map_iff in Hin.
    destruct Hin as (cs & <- & Hcs). apply filter_In in Hcs.
    destruct Hcs as [Hdb Hne]. split; [|split].
    + intros E. rewrite E in Hne. discriminate.
    + cbn [hits snd]. apply distinctb_map_display.
      assert (T : forallb (fun cs => distinctb (map display (snd cs))) SKILLS_DB
                  = true) by (vm_compute; reflexivity).
      rewrite forallb_forall in T. now apply T.
    + exists (snd cs). split; [now destruct cs|].
      cbn [hits snd]. intros x Hx. apply in_map_iff in Hx.
      destruct Hx as (s & <- & Hs). apply filter_In in Hs.
      apply in_map. tauto.
  - eapply Nat.le_trans; [apply skills_total_hits|].
    eapply Nat.le_trans; [apply skills_total_filter|].
    vm_compute. repeat constructor.
Qed.

Lemma date_matches_lang s d :
  In d (re_findall true DATE_PATTERN s) ->
  lang true DATE_PATTERN d /\ infix d s.
Proof. intros H. now apply findall_from_lang in H. Qed.

Lemma education_at_record lines i line :
  education_at lines i line = Ok (education_record lines (i, line)).
Proof.
  unfold education_at, education_record. cbn [fst snd].
  destruct (degree_line line); [|reflexivity].
  destruct (Nat.ltb_spec (i + 1) (List.length lines)) as [Hlt|Hge].
  - unfold index. rewrite (nth_error_nth' lines [] Hlt). reflexivity.
  - rewrite (nth_overflow lines [] Hge). reflexivity.
Qed.

Lemma extract_education_records text :
  extract_education text
  = Ok (flat_map (education_record (nonblank_lines text))
          (combine (seq 0 (List.length (nonblank_lines text)))
                   (nonblank_lines text))).
Proof.
  unfold extract_education. apply collect_flat_map.
  intros [i line] _. apply education_at_record.
Qed.

(** The records of the lines from [start] on, against the indices of
    the degree lines among them. *)
Lemma education_records_by_index all ls : forall start,
  (forall j, (j < List.length ls)%nat -> nth (start + j) all [] = nth j ls []) ->
  Forall2 (fun i e =>
             Edu.degree e = nth i all []
             /\ Edu.institution e = nth (S i) all []
             /\ Edu.dates e
                = re_findall true DATE_PATTERN
                    (join (str " ") (slice (i - 1) (i + 3) all)))
          (filter (fun i => degree_line (nth i all []))
                  (seq start (List.length ls)))
          (flat_map (education_record all)
                    (combine (seq start (List.length ls)) ls)).
Proof.
  induction ls as [|l t IH]; intros start H; [constructor|].
  cbn [List.length seq combine filter flat_map].
  pose proof (H 0%nat ltac:(simpl; lia)) as H0.
  rewrite Nat.add_0_r in H0. cbn [nth] in H0. rewrite H0.
  assert (Ht : Forall2
                 (fun i e =>
                    Edu.degree e = nth i all []
                    /\ Edu.institution e = nth (S i) all []
                    /\ Edu.dates e
                       = re_findall true DATE_PATTERN
                           (join (str " ") (slice (i - 1) (i + 3) all)))
                 (filter (fun i => degree_line (nth i all []))
                         (seq (S start) (List.length t)))
                 (flat_map (education_record all)
                           (combine (seq (S start) (List.length t)) t))).
  { apply IH. intros j Hj.
    specialize (H (S j) ltac:(simpl; lia)).
    rewrite Nat.add_succ_r in H. exact H. }
  unfold education_record at 1. cbn [fst snd].
  destruct (degree_line l); [|exact Ht].
  cbn [app]. constructor; [|exact Ht].
  cbn [Edu.degree Edu.institution Edu.dates].
  split; [now rewrite H0|]. split; [now rewrite Nat.add_1_r|].
  now rewrite Nat.max_0_l.
Qed.


(** X11. Every experience record has a trimmed, non-empty title and at
    least one date; each of its dates is a text the date pattern
    matches and a piece of the text; a record without a company has no
    description. *)
Theorem experience_records_wellformed text :
  exists records,
    extract_experience text = Ok records
    /\ Forall (fun e =>
                 Exp.title e <> [] /\ strip (Exp.title e) = Exp.title e
                 /\ Exp.dates e <> []
                 /\ Forall (fun d => lang true DATE_PATTERN d /\ infix d text)
                           (Exp.dates e)
                 /\ (Exp.company e = [] -> Exp.description e = []))
              records.
Proof.
  eexists. split; [apply extract_experience_records|].
  apply Forall_forall. intros e He. apply in_flat_map in He.
  destruct He as (b & Hb & He). unfold experience_record in He.
  destruct (re_findall true DATE_PATTERN b) as [|d ds] eqn:Ed; [contradiction|].
  destruct (dated_block_has_lines b) as [_ Hl]; [congruence|].
  destruct He as [<-|[]].
  cbn [Exp.title Exp.company Exp.dates Exp.description].
  destruct (nonblank_lines b) as [|l0 rest] eqn:El; [discriminate|].
  destruct (nonblank_lines_trimmed b l0) as [Hn Hs]; [rewrite El; now left|].
  cbn [nth]. split; [exact Hn|]. split; [exact Hs|]. split; [discriminate|].
  split.
  - apply Forall_forall. intros x Hx. rewrite <- Ed in Hx.
    apply date_matches_lang in Hx. destruct Hx as [L I].
    split; [exact L|]. apply (infix_trans x b text I).
    exact (block_in_text text _ (re_split_gaps text) b Hb).
  - destruct rest as [|l1 rest']; [reflexivity|].
    cbn [nth]. intros E.
    destruct (nonblank_lines_trimmed b l1) as [Hn1 _];
      [rewrite El; right; now left | contradiction].
Qed.

End RecordFacts.

(** ** The upload filter *)

Lemma break_at_app (sep : char) (a b : pystr) :
  ~ In sep a -> break_at sep (a ++ sep :: b) = Some (a, b).
Proof.
  induction a as [|c t IH]; simpl; intros H.
  - now rewrite N.eqb_refl.
  - destruct (N.eqb_spec c sep) as [->|_]; [tauto|].
    rewrite IH by tauto. reflexivity.
Qed.

Lemma break_at_found (sep : char) (s : pystr) :
  In sep s -> exists a b, s = a ++ sep :: b /\ ~ In sep a.
Proof.
  induction s as [|c t IH]; simpl; [contradiction|].
  destruct (N.eq_dec c sep) as [->|Hc].
  - intros _. exists [], t. auto.
  - intros [E|H]; [contradiction|].
    destruct (IH H) as (a & b & -> & Ha).
    exists (c :: a), b. split; [reflexivity|]. simpl. tauto.
Qed.

Lemma not_in_rev {A} (x : A) l : ~ In x l -> ~ In x (rev l).
Proof. intros H Hin. apply H. now apply in_rev. Qed.

(** Splitting at the last separator. *)
Lemma rsplit1_last (sep : char) (stem ext : pystr) :
  ~ In sep ext -> rsplit1 sep (stem ++ sep :: ext) = [stem; ext].
Proof.
  intros H. unfold rsplit1.
  rewrite rev_app_distr. cbn [rev]. rewrite <- app_assoc. cbn [app].
  rewrite (break_at_app sep (rev ext) (rev stem) (not_in_rev _ _ H)).
  now rewrite !rev_involutive.
Qed.

Lemma last_separator (sep : char) (s : pystr) :
  In sep s -> exists stem ext, s = stem ++ sep :: ext /\ ~ In sep ext.
Proof.
  intros H. apply in_rev in H.
  destruct (break_at_found sep (rev s) H) as (a & b & E & Ha).
  exists (rev b), (rev a). split.
  - rewrite <- (rev_involutive s), E, rev_app_distr. cbn [rev].
    now rewrite <- app_assoc.
  - now apply not_in_rev.
Qed.

Lemma existsb_pystr_eqb (x : pystr) l : existsb (pystr_eqb x) l = true <-> In x l.
Proof.
  rewrite existsb_exists. unfold pystr_eqb. split.
  - intros (y & Hy & E). destruct (list_eq_dec N.eq_dec x y); [now subst|discriminate].
  - intros H. exists x. split; [exact H|].
    now destruct (list_eq_dec N.eq_dec x x).
Qed.

Lemma has_dot (s : pystr) : existsb (fun c => (c =? DOT)%N) s = true <-> In DOT s.
Proof.
  rewrite existsb_exists. split.
  - intros (c & Hc & E). apply N.eqb_eq in E. now subst.
  - intros H. exists DOT. split; [exact H | apply N.eqb_refl].
Qed.

Section Upload.
Context {U : UnicodeTables}.

(** X13. [allowed_file] never raises, and accepts a name exactly when the
    text after its last dot, lower-cased, is pdf, docx or txt. *)
Theorem allowed_file_by_last_extension filename :
  (exists b, allowed_file filename = Ok b)
  /\ (allowed_file filename = Ok true <->
      exists stem ext,
        filename = stem ++ DOT :: ext
        /\ ~ In DOT ext
        /\ In (py_lower ext) ALLOWED_EXTENSIONS).
Proof.
  unfold allowed_file.
  destruct (existsb (fun c => (c =? DOT)%N) filename) eqn:Hdot.
  - apply has_dot in Hdot.
    destruct (last_separator DOT filename Hdot) as (stem & ext & -> & Hext).
    rewrite (rsplit1_last DOT stem ext Hext). cbn [index nth_error bind].
    split; [now eexists|]. split.
    + intros H. apply Ok_inj in H. apply existsb_pystr_eqb in H.
      now exists stem, ext.
    + intros (stem' & ext' & E & Hext' & Hin).
      assert (E' : [stem; ext] = [stem'; ext']).
      { transitivity (rsplit1 DOT (stem ++ DOT :: ext)).
        - symmetry. now apply rsplit1_last.
        - rewrite E. now apply rsplit1_last. }
      injection E' as _ <-. f_equal. now apply existsb_pystr_eqb.
  - split; [now eexists|]. split; [discriminate|].
    intros (stem & ext & -> & _). exfalso.
    assert (H : In DOT (stem ++ DOT :: ext)) by (apply in_or_app; right; now left).
    apply has_dot in H. congruence.
Qed.

End Upload.

(** ** The name heuristic *)

Section Name.
Context {U : UnicodeTables}.
Variable ner : option (pystr -> list (pystr * pystr)).

Lemma all_initial_upper_value ws :
  all_initial_upper ws
  = Ok (forallb (fun w => match w with
                          | c :: _ => is_upper c
                          | [] => true
                          end) ws).
Proof.
  induction ws as [|w t IH]; [reflexivity|].
  cbn [all_initial_upper forallb]. destruct w as [|c w]; [exact IH|].
  cbn [nonempty index nth_error bind]. destruct (is_upper c); [exact IH|].
  reflexivity.
Qed.

(** The scan of the lines returns the first line the heuristic
    accepts. *)
Lemma name_scan_find lines : name_scan lines = Ok (find name_like lines).
Proof.
  induction lines as [|line t IH]; [reflexivity|].
  cbn [name_scan find]. unfold name_like at 1.
  rewrite all_initial_upper_value.
  change (1 <? List.length (split_ws line))%nat
    with (2 <=? List.length (split_ws line))%nat.
  destruct ((2 <=? List.length (split_ws line))%nat
            && (List.length (split_ws line) <=? 5)%nat
            && negb (is_some (re_search true NAME_IGNORE line))); cbn [andb].
  - cbn [bind].
    match goal with
    | |- context [forallb ?f (split_ws line)] =>
        destruct (forallb f (split_ws line))
    end; [reflexivity | exact IH].
  - exact IH.
Qed.

(** X14. When the recogniser is loaded and finds a PERSON entity in the
    first 500 characters, [extract_name] returns the first such entity,
    trimmed, whatever the lines are.  Otherwise it returns the first of
    the first six non-blank lines that has two to five words, each
    beginning with an upper-case character, and nothing of the ignore
    pattern; and null when there is no such line. *)
Theorem extract_name_result text :
  (forall nlp p,
      ner = Some nlp -> first_person (nlp (firstn 500 text)) = Some p ->
      extract_name ner text = Ok (Some p))
  /\ ((ner = None
       \/ exists nlp, ner = Some nlp
                      /\ first_person (nlp (firstn 500 text)) = None) ->
      extract_name ner text
      = Ok (find name_like (firstn 6 (nonblank_lines text)))).
Proof.
  unfold extract_name. split.
  - intros nlp p -> ->. reflexivity.
  - intros [->|(nlp & -> & ->)]; apply name_scan_find.
Qed.

End Name.

Lemma extract_name_result_witness :
  extract_name (Some one_person) sample_resume = Ok (Some (str "Ada Lovelace")).
Proof.
  apply (proj1 (extract_name_result (Some one_person) sample_resume)
           one_person (str "Ada Lovelace") eq_refl).
  vm_compute. reflexivity.
Defined.

(** ** Headings whatever the case *)

Lemma same_letter_cases x y :
  same_letter x y -> x = y \/ (ascii_letter x = true /\ ascii_letter y = true).
Proof.
  unfold same_letter, to_lower_ascii, ascii_letter, ascii_upper, ascii_lower.
  destruct (N.leb_spec 65 x), (N.leb_spec x 90), (N.leb_spec 65 y),
    (N.leb_spec y 90); cbn [andb orb]; intros E; try (left; lia);
    right; split;
    repeat match goal with
           | |- context [(?a <=? ?b)%N] => destruct (N.leb_spec a b)
           end; cbn [andb orb]; try reflexivity; lia.
Qed.

Lemma letter_not_space x : ascii_letter x = true -> is_space x = false.
Proof.
  unfold ascii_letter, ascii_upper, ascii_lower. intros H.
  assert (Hx : (65 <= x <= 122)%N).
  { apply orb_prop in H as [H|H]; apply andb_prop in H as [H1 H2];
      apply N.leb_le in H1, H2; lia. }
  unfold is_space.
  replace (x <=? 13)%N with false by (symmetry; apply N.leb_gt; lia).
  replace (x <=? 32)%N with false by (symmetry; apply N.leb_gt; lia).
  replace (8192 <=? x)%N with false by (symmetry; apply N.leb_gt; lia).
  repeat match goal with
         | |- context [(x =? ?n)%N] =>
             replace (x =? n)%N with false by (symmetry; apply N.eqb_neq; lia)
         end.
  now rewrite !andb_false_r.
Qed.

Lemma letter_range x : ascii_letter x = true -> (65 <= x <= 122)%N.
Proof.
  unfold ascii_letter, ascii_upper, ascii_lower. intros H.
  apply orb_prop in H as [H|H]; apply andb_prop in H as [H1 H2];
    apply N.leb_le in H1, H2; lia.
Qed.

Lemma same_letter_space x y : same_letter x y -> is_space x = is_space y.
Proof.
  intros H. destruct (same_letter_cases x y H) as [->|[Hx Hy]]; [reflexivity|].
  now rewrite (letter_not_space x Hx), (letter_not_space y Hy).
Qed.

Lemma same_letter_lit c x y :
  same_letter x y -> lit_match true c x = lit_match true c y.
Proof.
  intros H. destruct (same_letter_cases x y H) as [->|[Hx Hy]]; [reflexivity|].
  unfold lit_match. cbn [andb]. destruct (ascii_letter c) eqn:Ec.
  - unfold same_letter in H. rewrite H. f_equal.
    pose proof (letter_range x Hx). pose proof (letter_range y Hy).
    unfold ci_extra.
    repeat match goal with
           | |- context [(x =? ?n)%N] =>
               replace (x =? n)%N with false by (symmetry; apply N.eqb_neq; lia)
           | |- context [(y =? ?n)%N] =>
               replace (y =? n)%N with false by (symmetry; apply N.eqb_neq; lia)
           end.
    reflexivity.
  - destruct (N.eqb_spec x c) as [->|_]; [congruence|].
    destruct (N.eqb_spec y c) as [->|_]; [congruence | reflexivity].
Qed.

Section CaseBlind.
Context {U : UnicodeTables}.

Lemma letter_is_word x : ascii_letter x = true -> is_word x = true.
Proof.
  intros H. unfold is_word, is_alnum, is_ascii.
  pose proof (letter_range x H).
  replace (x <? 128)%N with true by (symmetry; apply N.ltb_lt; lia).
  now rewrite H, orb_true_r.
Qed.

Lemma letter_not_decimal x : ascii_letter x = true -> is_decimal x = false.
Proof.
  intros H. unfold is_decimal, is_ascii, ascii_digit.
  pose proof (letter_range x H).
  replace (x <? 128)%N with true by (symmetry; apply N.ltb_lt; lia).
  replace (x <=? 57)%N with false by (symmetry; apply N.leb_gt; lia).
  apply andb_false_r.
Qed.

Lemma same_letter_item it x y :
  case_blind_item it = true -> same_letter x y ->
  in_citem it x = in_citem it y.
Proof.
  intros Hb H. destruct (same_letter_cases x y H) as [->|[Hx Hy]]; [reflexivity|].
  destruct it as [c|lo hi| | |]; simpl in *; try discriminate.
  - apply negb_true_iff in Hb.
    destruct (N.eqb_spec x c) as [->|_]; [congruence|].
    destruct (N.eqb_spec y c) as [->|_]; [congruence | reflexivity].
  - now rewrite (letter_not_decimal x Hx), (letter_not_decimal y Hy).
  - now rewrite (letter_is_word x Hx), (letter_is_word y Hy).
  - now rewrite (letter_not_space x Hx), (letter_not_space y Hy).
Qed.

Lemma same_letter_set cs x y :
  forallb case_blind_item cs = true -> same_letter x y ->
  in_cset cs x = in_cset cs y.
Proof.
  unfold in_cset. induction cs as [|it t IH]; simpl; intros Hb H; [reflexivity|].
  apply andb_prop in Hb as [Hi Ht].
  now rewrite (same_letter_item it x y Hi H), (IH Ht H).
Qed.

Lemma same_prev_word p q : same_prev p q -> word_at p = word_at q.
Proof.
  destruct p as [x|], q as [y|]; simpl; try tauto.
  intros H. destruct (same_letter_cases x y H) as [->|[Hx Hy]]; [reflexivity|].
  now rewrite (letter_is_word x Hx), (letter_is_word y Hy).
Qed.

Lemma same_letter_newline x y :
  same_letter x y -> (x =? NL)%N = (y =? NL)%N.
Proof.
  intros H. destruct (same_letter_cases x y H) as [->|[Hx Hy]]; [reflexivity|].
  pose proof (letter_range x Hx). pose proof (letter_range y Hy).
  destruct (N.eqb_spec x NL) as [E|_]; [unfold NL in E; lia|].
  destruct (N.eqb_spec y NL) as [E|_]; [unfold NL in E; lia | reflexivity].
Qed.

(** The matcher, run with [re.IGNORECASE] on two subjects that differ
    in the case of letters only, succeeds on both or fails on both. *)
Lemma mt_case_blind {A B} r :
  atoms_all case_blind_atom r = true ->
  forall prev prev' s s' (k : option char -> pystr -> option A)
         (k' : option char -> pystr -> option B),
    same_prev prev prev' -> same_letters s s' ->
    (forall p p' t t', same_prev p p' -> same_letters t t' ->
                       both (k p t) (k' p' t')) ->
    both (mt true r prev s k) (mt true r prev' s' k').
Proof.
  induction r as [ |c|cs| | | |r1 IH1 r2 IH2|r1 IH1 r2 IH2|lo hi r1 IH1];
    intros Hb prev prev' s s' k k' Hp Hs Hk; cbn [mt].
  - now apply Hk.
  - destruct Hs as [|x y t t' Hxy Ht]; [exact I|].
    rewrite (same_letter_lit c x y Hxy).
    destruct (lit_match true c y); [|exact I]. now apply Hk.
  - destruct Hs as [|x y t t' Hxy Ht]; [exact I|]. simpl in Hb.
    rewrite (same_letter_set cs x y Hb Hxy).
    destruct (in_cset cs y); [|exact I]. now apply Hk.
  - destruct prev as [x|], prev' as [y|]; simpl in Hp; try tauto;
      [exact I | now apply Hk].
  - destruct Hs as [|x y t t' Hxy Ht]; [now apply Hk; [|constructor]|].
    destruct Ht as [|x2 y2 t2 t2' Hxy2 Ht2].
    + rewrite (same_letter_newline x y Hxy).
      destruct (y =? NL)%N; [|exact I]. apply Hk; [exact Hp|].
      now repeat constructor.
    + exact I.
  - rewrite (same_prev_word prev prev' Hp).
    assert (Hh : word_at (hd_error s) = word_at (hd_error s')).
    { apply same_prev_word. destruct Hs; simpl; auto. }
    rewrite Hh. destruct (xorb _ _); [|exact I]. now apply Hk.
  - simpl in Hb. apply andb_prop in Hb as [Hb1 Hb2].
    apply IH1; [exact Hb1 | exact Hp | exact Hs |].
    intros p p' t t' Hp' Ht. now apply IH2.
  - simpl in Hb. apply andb_prop in Hb as [Hb1 Hb2].
    pose proof (IH1 Hb1 prev prev' s s' k k' Hp Hs Hk) as H1.
    destruct (mt true r1 prev s k), (mt true r1 prev' s' k');
      simpl in H1; try tauto.
    now apply IH2.
  - simpl in Hb.
    rewrite <- (Forall2_length Hs).
    match goal with
    | |- both (?f (List.length s) lo hi prev s)
              (?g (List.length s) lo hi prev' s') =>
        set (F := f); set (G := g)
    end.
    generalize (List.length s) as fuel. intros fuel.
    revert lo hi prev prev' s s' Hp Hs.
    induction fuel as [|f IHf]; intros lo hi prev prev' s s' Hp Hs.
    + change (F 0%nat lo hi prev s)
        with (match lo with O => k prev s | S _ => None end).
      change (G 0%nat lo hi prev' s')
        with (match lo with O => k' prev' s' | S _ => None end).
      destruct lo; [now apply Hk | exact I].
    + change (F (S f) lo hi prev s)
        with (match
                 match hi with
                 | Some O => None
                 | _ =>
                     mt true r1 prev s
                       (fun p t =>
                          if (List.length t <? List.length s)%nat
                          then F f (pred lo) (option_map pred hi) p t
                          else None)
                 end
               with
               | Some a => Some a
               | None => match lo with O => k prev s | S _ => None end
               end).
      change (G (S f) lo hi prev' s')
        with (match
                 match hi with
                 | Some O => None
                 | _ =>
                     mt true r1 prev' s'
                       (fun p t =>
                          if (List.length t <? List.length s')%nat
                          then G f (pred lo) (option_map pred hi) p t
                          else None)
                 end
               with
               | Some a => Some a
               | None => match lo with O => k' prev' s' | S _ => None end
               end).
      assert (Hround :
        both (mt true r1 prev s
                (fun p t =>
                   if (List.length t <? List.length s)%nat
                   then F f (pred lo) (option_map pred hi) p t
                   else None))
             (mt true r1 prev' s'
                (fun p t =>
                   if (List.length t <? List.length s')%nat
                   then G f (pred lo) (option_map pred hi) p t
                   else None))).
      { apply IH1; [exact Hb | exact Hp | exact Hs |].
        intros p p' t t' Hp' Ht.
        rewrite <- (Forall2_length Hs), <- (Forall2_length Ht).
        destruct (_ <? _)%nat; [|exact I]. now apply IHf. }
      destruct hi as [[|h]|].
      * destruct lo; [now apply Hk | exact I].
      * destruct (mt true r1 prev s _), (mt true r1 prev' s' _);
          simpl in Hround; try tauto.
        destruct lo; [now apply Hk | exact I].
      * destruct (mt true r1 prev s _), (mt true r1 prev' s' _);
          simpl in Hround; try tauto.
        destruct lo; [now apply Hk | exact I].
Qed.


Lemma same_letters_drop_space a b :
  same_letters a b -> same_letters (drop_space a) (drop_space b).
Proof.
  induction 1 as [|x y t t' Hxy Ht IH]; simpl; [constructor|].
  rewrite (same_letter_space x y Hxy).
  destruct (is_space y); [exact IH | now constructor].
Qed.

Lemma same_letters_rev a b : same_letters a b -> same_letters (rev a) (rev b).
Proof.
  induction 1 as [|x y t t' Hxy Ht IH]; simpl; [constructor|].
  apply Forall2_app; [exact IH | now repeat constructor].
Qed.

Lemma same_letters_strip a b :
  same_letters a b -> same_letters (strip a) (strip b).
Proof.
  intros H. unfold strip.
  now apply same_letters_rev, same_letters_drop_space, same_letters_rev,
    same_letters_drop_space.
Qed.

Lemma re_match_case_blind r a b :
  atoms_all case_blind_atom r = true -> same_letters a b ->
  re_match true r a = re_match true r b.
Proof.
  intros Hb H. unfold re_match, match_here.
  pose proof (mt_case_blind r Hb None None a b
                (fun _ rest => Some rest) (fun _ rest => Some rest) I H
                (fun _ _ _ _ _ _ => I)) as Hm.
  destruct (mt true r None a _), (mt true r None b _); simpl in Hm;
    tauto || reflexivity.
Qed.

Lemma first_heading_case_blind hs a b :
  forallb (fun h => atoms_all case_blind_atom (heading_pattern (snd h))) hs
  = true ->
  same_letters a b -> first_heading hs a = first_heading hs b.
Proof.
  induction hs as [|[sec p] t IH]; cbn [first_heading forallb snd];
    intros Hb H; [reflexivity|].
  apply andb_prop in Hb as [Hp Ht].
  rewrite (re_match_case_blind _ a b Hp H).
  destruct (re_match true (heading_pattern p) b); [reflexivity|].
  now apply IH.
Qed.

(** X15. Whether a line is a heading, and of which section, depends neither
    on the white space around it nor on the case of its ASCII
    letters. *)
Theorem headings_ignore_case_and_margins :
  (forall line, matched_section (strip line) = matched_section line)
  /\ (forall a b, same_letters a b -> matched_section a = matched_section b).
Proof.
  split.
  - intros line. unfold matched_section. now rewrite strip_fixed.
  - intros a b H. unfold matched_section.
    apply first_heading_case_blind; [reflexivity|].
    now apply same_letters_strip.
Qed.


Lemma match_here_case_blind r a b prev prev' :
  atoms_all case_blind_atom r = true ->
  same_prev prev prev' -> same_letters a b ->
  is_some (match_here true r prev a) = is_some (match_here true r prev' b).
Proof.
  intros Hb Hp H. unfold match_here.
  pose proof (mt_case_blind r Hb prev prev' a b
                (fun _ rest => Some rest) (fun _ rest => Some rest) Hp H
                (fun _ _ _ _ _ _ => I)) as Hm.
  destruct (mt true r prev a _), (mt true r prev' b _); simpl in Hm;
    tauto || reflexivity.
Qed.

Lemma search_case_blind r : atoms_all case_blind_atom r = true ->
  forall a b, same_letters a b -> forall prev prev', same_prev prev prev' ->
  is_some (search_from true r prev a) = is_some (search_from true r prev' b).
Proof.
  intros Hb a b H.
  induction H as [|x y t t' Hxy Ht IH]; intros prev prev' Hp; cbn [search_from].
  - pose proof (match_here_case_blind r [] [] prev prev' Hb Hp
                  (Forall2_nil _)) as Hm.
    destruct (match_here true r prev []), (match_here true r prev' []);
      simpl in Hm |- *; congruence.
  - pose proof (match_here_case_blind r (x :: t) (y :: t') prev prev' Hb Hp
                  (Forall2_cons _ _ Hxy Ht)) as Hm.
    destruct (match_here true r prev (x :: t)),
      (match_here true r prev' (y :: t')); simpl in Hm |- *; try congruence.
    apply IH. exact Hxy.
Qed.

Lemma skill_pattern_case_blind skill :
  atoms_all case_blind_atom (skill_pattern skill) = true.
Proof.
  unfold skill_pattern, lits. cbn [cat atoms_all andb].
  induction skill as [|c [|d t] IH]; try reflexivity.
  assert (E : cat (map Lit (c :: d :: t)) = Cat (Lit c) (cat (map Lit (d :: t))))
    by reflexivity.
  destruct (map Lit (c :: d :: t)) eqn:Em; [discriminate|].
  revert IH. cbn [map] in *. injection Em as <- <-. intros IH.
  cbn [cat atoms_all case_blind_atom andb] in *. exact IH.
Qed.

Lemma same_letters_lower a b :
  same_letters a b -> map to_lower_ascii a = map to_lower_ascii b.
Proof.
  induction 1 as [|x y t t' Hxy Ht IH]; simpl; [reflexivity|].
  now rewrite Hxy, IH.
Qed.

Lemma same_letters_ascii a b :
  same_letters a b -> forallb is_ascii a = forallb is_ascii b.
Proof.
  induction 1 as [|x y t t' Hxy Ht IH]; simpl; [reflexivity|].
  rewrite IH. f_equal.
  destruct (same_letter_cases x y Hxy) as [->|[Hx Hy]]; [reflexivity|].
  pose proof (letter_range x Hx). pose proof (letter_range y Hy).
  unfold is_ascii.
  replace (x <? 128)%N with true by (symmetry; apply N.ltb_lt; lia).
  replace (y <? 128)%N with true by (symmetry; apply N.ltb_lt; lia).
  reflexivity.
Qed.

(** X16. Skills are found whatever the case of the letters: two ASCII texts
    that differ in case only have the same skills, and two descriptions
    that differ in the case of ASCII letters only have the same
    technologies. *)
Theorem skill_detection_ignores_case a b :
  same_letters a b ->
  (forallb is_ascii a = true -> extract_skills a = extract_skills b)
  /\ techs_of a = techs_of b.
Proof.
  intros H. split.
  - intros Ha. unfold extract_skills, py_lower.
    rewrite <- (same_letters_ascii a b H), Ha.
    now rewrite (same_letters_lower a b H).
  - unfold techs_of. f_equal. apply filter_ext. intros skill.
    unfold re_search.
    apply (search_case_blind _ (skill_pattern_case_blind skill) a b H
             None None I).
Qed.

End CaseBlind.

Lemma skill_detection_ignores_case_witness :
  (forallb is_ascii skill_case_text = true ->
   extract_skills skill_case_text = extract_skills skill_case_text')
  /\ techs_of skill_case_text = techs_of skill_case_text'.
Proof.
  apply (skill_detection_ignores_case skill_case_text skill_case_text').
  unfold same_letters, skill_case_text, skill_case_text', same_letter.
  vm_compute. repeat constructor.
Defined.

(** ** Degree lines *)

Section Degrees.
Context {U : UnicodeTables}.

Lemma search_from_later ic r : forall pre prev s,
  (forall p, is_some (match_here ic r p s) = true) ->
  is_some (search_from ic r prev (pre ++ s)) = true.
Proof.
  induction pre as [|x t IH]; intros prev s H; cbn [app].
  - specialize (H prev). destruct s; cbn [search_from];
      destruct (match_here ic r prev _); try reflexivity; discriminate.
  - cbn [search_from].
    destruct (match_here ic r prev (x :: t ++ s)); [reflexivity|].
    now apply IH.
Qed.

(** The second degree pattern, [b\.?e\.?|bachelor of engineering],
    matches at a b followed by an e. *)
Lemma be_matches_here prev x y post :
  lit_match true 98 x = true -> lit_match true 101 y = true ->
  is_some (match_here true (nth 1 DEGREE_PATTERNS Eps) prev (x :: y :: post))
  = true.
Proof.
  intros Hx Hy. unfold match_here.
  assert (E : exists rest, nth 1 DEGREE_PATTERNS Eps
              = Alt (Cat (Lit 98) (Cat (Rep 0 (Some 1) (Lit 46))
                      (Cat (Lit 101) (Rep 0 (Some 1) (Lit 46))))) rest)
    by (eexists; reflexivity).
  destruct E as [rest E]. rewrite E. cbn [mt]. rewrite Hx.
  assert (Hd : lit_match true 46 y = false).
  { unfold lit_match in Hy |- *. cbn in Hy |- *.
    destruct (N.eqb_spec y 46) as [->|_]; [discriminate Hy | reflexivity]. }
  cbn [List.length pred option_map]. rewrite Hd, Hy.
  destruct post as [|c t]; cbn [List.length pred option_map].
  - reflexivity.
  - destruct (lit_match true 46 c).
    + assert (Hlt : (List.length t <? S (List.length t))%nat = true)
        by (apply Nat.ltb_lt; lia).
      rewrite Hlt. destruct (List.length t); reflexivity.
    + reflexivity.
Qed.

(** X17. The degree patterns are searched anywhere in a line, inside words
    too: a line with a b followed by an e, in either case, is a degree
    line. *)
Theorem degree_line_unanchored pre x y post :
  lit_match true 98 x = true -> lit_match true 101 y = true ->
  degree_line (pre ++ x :: y :: post) = true.
Proof.
  intros Hx Hy. unfold degree_line. apply existsb_exists.
  exists (nth 1 DEGREE_PATTERNS Eps). split.
  - cbn [nth DEGREE_PATTERNS]. right. now left.
  - unfold re_search. apply search_from_later.
    intros p. now apply be_matches_here.
Qed.

End Degrees.

Lemma degree_line_unanchored_witness :
  degree_line (str "Mem" ++ 98%N :: 101%N :: str "r of the chess club") = true.
Proof.
  apply (degree_line_unanchored (str "Mem") 98%N 101%N
           (str "r of the chess club"));
    vm_compute; reflexivity.
Defined.

(** ** Blank texts *)

Lemma range_not_space lo hi x :
  ((33 <=? lo) && (hi <=? 126))%N = true ->
  ((lo <=? x) && (x <=? hi))%N = true -> is_space x = false.
Proof.
  intros H E. apply andb_prop in H as [H1 H2]. apply andb_prop in E as [E1 E2].
  apply N.leb_le in H1, H2, E1, E2. unfold is_space.
  replace (x <=? 13)%N with false by (symmetry; apply N.leb_gt; lia).
  replace (x <=? 32)%N with false by (symmetry; apply N.leb_gt; lia).
  replace (8192 <=? x)%N with false by (symmetry; apply N.leb_gt; lia).
  repeat match goal with
         | |- context [(x =? ?n)%N] =>
             replace (x =? n)%N with false by (symmetry; apply N.eqb_neq; lia)
         end.
  now rewrite !andb_false_r.
Qed.

Lemma lit_match_not_space ic c x :
  is_space c = false -> lit_match ic c x = true -> is_space x = false.
Proof.
  intros Hc. unfold lit_match.
  destruct (ic && ascii_letter c) eqn:E.
  - apply andb_prop in E as [_ Hl]. intros H.
    pose proof (letter_range c Hl) as Hr.
    apply orb_prop in H as [H|H].
    + apply N.eqb_eq in H.
      assert (Hx : (65 <= x <= 122)%N).
      { revert H. unfold to_lower_ascii, ascii_upper.
        destruct (N.leb_spec 65 x), (N.leb_spec x 90),
          (N.leb_spec 65 c), (N.leb_spec c 90); cbn [andb]; lia. }
      apply (range_not_space 65 122 x); [reflexivity|].
      apply andb_true_intro. split; apply N.leb_le; lia.
    + unfold ci_extra in H.
      assert (Hx : (x = 304 \/ x = 305 \/ x = 383 \/ x = 8490)%N).
      { repeat (apply orb_prop in H as [H|H]);
          repeat (apply andb_prop in H as [_ H]);
          try (apply orb_prop in H as [H|H]); apply N.eqb_eq in H; lia. }
      destruct Hx as [->|[->|[->| ->]]]; reflexivity.
  - intros H. apply N.eqb_eq in H. now subst.
Qed.

Section Blank.
Context {U : UnicodeTables}.
Variable ner : option (pystr -> list (pystr * pystr)).

Lemma inky_atom_sound ic a x :
  inky_atom a = true -> atom_matches ic a x = true ->
  negb (is_space x) = true.
Proof.
  destruct a as [ |c|cs| | | | | | ]; simpl; try discriminate.
  - intros Hc H. apply negb_true_iff in Hc. apply negb_true_iff.
    exact (lit_match_not_space ic c x Hc H).
  - intros Hb H. unfold in_cset in H. apply existsb_exists in H.
    destruct H as (it & Hin & H). rewrite forallb_forall in Hb.
    specialize (Hb it Hin). apply negb_true_iff.
    destruct it as [c|lo hi| | |]; simpl in *; try discriminate.
    + apply N.eqb_eq in H. subst. now apply negb_true_iff.
    + exact (range_not_space lo hi x Hb H).
    + now apply is_decimal_not_space.
Qed.

Lemma infix_ink m s : infix m s -> has_ink m = true -> has_ink s = true.
Proof.
  intros (pre & post & ->) H. unfold has_ink in *.
  rewrite !existsb_app, H. now rewrite orb_true_r.
Qed.

(** In a text without ink a pattern that needs ink matches nowhere. *)
Lemma no_search_without_ink ic r s prev :
  forces inky_atom r = true -> has_ink s = false ->
  search_from ic r prev s = None.
Proof.
  intros F H. destruct (search_from ic r prev s) as [m|] eqn:E; [|reflexivity].
  apply search_from_lang in E. destruct E as [L I].
  pose proof (lang_forces ic inky_atom _ (inky_atom_sound ic) _ _ L F) as Hm.
  rewrite (infix_ink m s I Hm) in H. discriminate.
Qed.

Lemma no_findall_without_ink ic r s :
  forces inky_atom r = true -> has_ink s = false -> re_findall ic r s = [].
Proof.
  intros F H. unfold re_findall.
  destruct (findall_from ic r None s 0) as [|m ms] eqn:E; [reflexivity|].
  assert (Hin : In m (findall_from ic r None s 0)) by (rewrite E; now left).
  apply findall_from_lang in Hin. destruct Hin as [L I].
  pose proof (lang_forces ic inky_atom _ (inky_atom_sound ic) _ _ L F) as Hm.
  rewrite (infix_ink m s I Hm) in H. discriminate.
Qed.

Lemma blank_no_ink s : blank s = true -> has_ink s = false.
Proof.
  unfold blank, has_ink. induction s as [|c t IH]; simpl; [reflexivity|].
  intros H. apply andb_prop in H as [Hc Ht]. apply andb_prop in Hc as [Hc _].
  now rewrite Hc, IH.
Qed.

Lemma no_ink_drop_space s : has_ink s = false -> drop_space s = [].
Proof.
  unfold has_ink. induction s as [|c t IH]; simpl; [reflexivity|].
  intros H. apply orb_false_elim in H as [Hc Ht].
  apply negb_false_iff in Hc. rewrite Hc. now apply IH.
Qed.

Lemma no_ink_strip s : has_ink s = false -> strip s = [].
Proof.
  intros H. unfold strip. now rewrite (no_ink_drop_space s H).
Qed.

Lemma no_ink_lines s l : has_ink s = false -> In l (split_on NL s) ->
  has_ink l = false.
Proof.
  intros H Hin. destruct (has_ink l) eqn:E; [|reflexivity].
  assert (Hs : has_ink (join [NL] (split_on NL s)) = true).
  { clear H. induction (split_on NL s) as [|w ws IH]; [contradiction|].
    destruct Hin as [->|Hin].
    - destruct ws; [exact E|]. rewrite join_cons. unfold has_ink in *.
      rewrite existsb_app, E. reflexivity.
    - destruct ws as [|w' ws']; [contradiction|]. rewrite join_cons.
      unfold has_ink in *. rewrite !existsb_app, (IH Hin).
      now rewrite !orb_true_r. }
  rewrite join_split in Hs. congruence.
Qed.

Lemma no_ink_nonblank_lines s : has_ink s = false -> nonblank_lines s = [].
Proof.
  intros H. unfold nonblank_lines.
  assert (E : filter (fun l => nonempty (strip l)) (split_on NL s) = []);
    [|now rewrite E].
  assert (Hl : forall l, In l (split_on NL s) -> nonempty (strip l) = false).
  { intros l Hin. now rewrite (no_ink_strip l (no_ink_lines s l H Hin)). }
  induction (split_on NL s) as [|w ws IH]; [reflexivity|].
  simpl. rewrite (Hl w (or_introl eq_refl)).
  apply IH. intros l Hin. apply Hl. now right.
Qed.

Lemma no_ink_no_heading l : has_ink l = false -> matched_section l = None.
Proof.
  intros H. unfold matched_section. rewrite (no_ink_strip l H).
  assert (T : forall hs,
             forallb (fun h => (1 <=? min_len (heading_pattern (snd h)))%nat) hs
             = true -> first_heading hs [] = None).
  { induction hs as [|[sec p] t IH]; cbn [first_heading forallb snd];
      intros Hb; [reflexivity|].
    apply andb_prop in Hb as [Hp Ht]. apply Nat.leb_le in Hp.
    unfold re_match.
    destruct (match_here true (heading_pattern p) None []) as [m|] eqn:E.
    - apply match_here_lang in E. destruct E as (L & rest & E).
      apply lang_min_len in L. destruct m; [cbn [List.length] in L; lia | discriminate].
    - now apply IH. }
  apply T. reflexivity.
Qed.

Lemma later_segments_none lines :
  (forall l, In l lines -> matched_section l = None) ->
  later_segments lines = [].
Proof.
  induction lines as [|l t IH]; intros H; simpl; [reflexivity|].
  rewrite (H l (or_introl eq_refl)). apply IH. intros x Hx. apply H. now right.
Qed.

Lemma no_ink_sections s : has_ink s = false -> extract_sections s = [(Header, [])].
Proof.
  intros H. rewrite extract_sections_segments. unfold segments.
  assert (Hl : forall l, In l (split_on NL s) -> matched_section l = None).
  { intros l Hin. apply no_ink_no_heading. exact (no_ink_lines s l H Hin). }
  rewrite (later_segments_none _ Hl), (block_of_no_heading _ Hl).
  cbn [fold_left]. unfold store, block_text. cbn [dict_set fst snd].
  now rewrite join_split, (no_ink_strip s H).
Qed.

Lemma no_ink_words s : has_ink s = false -> split_ws s = [].
Proof.
  unfold split_ws, has_ink. induction s as [|c t IH]; simpl; [reflexivity|].
  intros H. apply orb_false_elim in H as [Hc Ht].
  apply negb_false_iff in Hc. rewrite Hc. now apply IH.
Qed.

Lemma blank_lower s : blank s = true -> py_lower s = s.
Proof.
  unfold blank, py_lower. intros H.
  assert (Ha : forallb is_ascii s = true).
  { rewrite forallb_forall in *. intros c Hc. specialize (H c Hc).
    now apply andb_prop in H. }
  rewrite Ha. rewrite <- (map_id s) at 2. apply map_ext_in.
  intros c Hc. rewrite forallb_forall in H. specialize (H c Hc).
  apply andb_prop in H as [Hs _]. unfold to_lower_ascii.
  destruct (ascii_upper c) eqn:Eu; [|reflexivity].
  assert (Hl : ascii_letter c = true) by (unfold ascii_letter; now rewrite Eu).
  rewrite (letter_not_space c Hl) in Hs. discriminate.
Qed.

Lemma no_ink_skills s : blank s = true -> extract_skills s = [].
Proof.
  intros H. unfold extract_skills. rewrite (blank_lower s H).
  pose proof (blank_no_ink s H) as Hi.
  assert (T : forallb (fun cs => forallb (fun skill =>
                forces inky_atom (skill_pattern skill)) (snd cs)) SKILLS_DB
              = true) by (vm_compute; reflexivity).
  induction SKILLS_DB as [|cs rows IH]; [reflexivity|].
  cbn [map filter forallb] in *. apply andb_prop in T as [Tc Tr].
  assert (E : filter (fun skill =>
                is_some (re_search false (skill_pattern skill) s)) (snd cs) = []).
  { clear IH. induction (snd cs) as [|k ks IHk]; [reflexivity|].
    cbn [filter forallb] in *. apply andb_prop in Tc as [Tk Tks].
    unfold re_search at 1. rewrite (no_search_without_ink false _ s None Tk Hi).
    cbn [is_some]. now apply IHk. }
  rewrite E. cbn [map snd nonempty]. now apply IH.
Qed.

Lemma blank_text_result now text :
  blank text = true ->
  (forall nlp, ner = Some nlp -> first_person (nlp (firstn 500 text)) = None) ->
  parse_text ner now text = Ok (empty_result now).
Proof.
  intros Hb Hner. pose proof (blank_no_ink text Hb) as Hi.
  assert (Hst : blank ([] ++ [NL] ++ text) = true) by exact Hb.
  unfold parse_text.
  rewrite (no_ink_sections text Hi).
  cbn [dict_get dict_find label_eqb nonempty map fst snd firstn].
  assert (En : extract_name ner text = Ok None).
  { unfold extract_name. rewrite (no_ink_nonblank_lines text Hi).
    destruct ner as [nlp|]; [now rewrite (Hner nlp eq_refl)|reflexivity]. }
  assert (Ee : extract_email text = Ok None).
  { unfold extract_email.
    rewrite (no_findall_without_ink false EMAIL_PATTERN text); auto.
    all: try (vm_compute; reflexivity). }
  assert (Ep : extract_phone text = None).
  { unfold extract_phone.
    assert (T : forallb (forces inky_atom) PHONE_PATTERNS = true)
      by (vm_compute; reflexivity).
    induction PHONE_PATTERNS as [|p ps IH]; [reflexivity|].
    cbn [first_phone forallb] in *. apply andb_prop in T as [Tp Tps].
    unfold re_search at 1.
    rewrite (no_search_without_ink false p text None Tp Hi). now apply IH. }
  assert (El : extract_linkedin text = None).
  { unfold extract_linkedin, re_search.
    rewrite (no_search_without_ink true LINKEDIN_PATTERN text None); auto.
    all: try (vm_compute; reflexivity). }
  assert (Eg : extract_github text = None).
  { unfold extract_github, re_search.
    rewrite (no_search_without_ink true GITHUB_PATTERN text None); auto.
    all: try (vm_compute; reflexivity). }
  assert (Ed : extract_education text = Ok []).
  { unfold extract_education. now rewrite (no_ink_nonblank_lines text Hi). }
  rewrite En, Ee, Ep, El, Eg, Ed, (no_ink_skills _ Hst), (no_ink_words text Hi).
  reflexivity.
Qed.

(** X18. A blank text -- ASCII white space only -- gives the empty result:
    no contact field, no skill, no record, the empty header as only
    section, word count 0 and score 0; provided the entity recogniser,
    when there is one, reports no person in it. *)
Theorem parse_text_blank now text :
  blank text = true ->
  (forall nlp, ner = Some nlp -> first_person (nlp (firstn 500 text)) = None) ->
  parse_text ner now text = Ok (empty_result now).
Proof. exact (blank_text_result now text). Qed.

End Blank.

Lemma parse_text_blank_witness :
  parse_text None (str "2026-01-01T00:00:00") blank_pages_text
  = Ok (empty_result (str "2026-01-01T00:00:00")).
Proof.
  apply (parse_text_blank None (str "2026-01-01T00:00:00") blank_pages_text).
  - reflexivity.
  - intros nlp H. discriminate H.
Defined.

(** ** Reading a file *)

Lemma break_at_none (sep : char) (s : pystr) :
  ~ In sep s -> break_at sep s = None.
Proof.
  induction s as [|c t IH]; simpl; intros H; [reflexivity|].
  destruct (N.eqb_spec c sep) as [->|_]; [exfalso; apply H; now left|].
  rewrite IH; [reflexivity|]. intros Hin. apply H. now right.
Qed.

Lemma break_at_skip (sep : char) (x y : pystr) :
  ~ In sep x ->
  break_at sep (x ++ y)
  = match break_at sep y with
    | Some (a, b) => Some (x ++ a, b)
    | None => None
    end.
Proof.
  induction x as [|c t IH]; simpl; intros H.
  - now destruct (break_at sep y) as [[a b]|].
  - destruct (N.eqb_spec c sep) as [->|_]; [exfalso; apply H; now left|].
    rewrite IH; [|intros Hin; apply H; now right].
    now destruct (break_at sep y) as [[a b]|].
Qed.

Lemma break_at_shorter (sep : char) : forall s a b,
  break_at sep s = Some (a, b) -> (List.length b < List.length s)%nat.
Proof.
  induction s as [|c t IH]; simpl; intros a b H; [discriminate|].
  destruct (c =? sep)%N.
  - injection H as _ <-. lia.
  - destruct (break_at sep t) as [[a' b']|]; [|discriminate].
    injection H as _ <-. specialize (IH a' b' eq_refl). lia.
Qed.

Lemma rfind_none (c : char) (s : pystr) : ~ In c s -> rfind c s = (-1)%Z.
Proof.
  intros H. unfold rfind. now rewrite (break_at_none c (rev s) (not_in_rev c s H)).
Qed.

Lemma rfind_app_clean (c : char) (a b : pystr) :
  ~ In c b -> rfind c (a ++ b) = rfind c a.
Proof.
  intros H. unfold rfind. rewrite rev_app_distr.
  rewrite (break_at_skip c (rev b) (rev a) (not_in_rev c b H)).
  now destruct (break_at c (rev a)) as [[x y]|].
Qed.

Lemma rfind_last (c : char) (stem ext : pystr) :
  ~ In c ext -> rfind c (stem ++ c :: ext) = Z.of_nat (List.length stem).
Proof.
  intros H. change (stem ++ c :: ext) with (stem ++ [c] ++ ext).
  rewrite app_assoc, (rfind_app_clean c (stem ++ [c]) ext H).
  unfold rfind. rewrite rev_app_distr. cbn [rev app break_at].
  now rewrite N.eqb_refl, length_rev.
Qed.

Lemma rfind_lt (c : char) (s : pystr) : (rfind c s < Z.of_nat (List.length s))%Z.
Proof.
  unfold rfind. destruct (break_at c (rev s)) as [[a b]|] eqn:E; [|lia].
  apply break_at_shorter in E. rewrite length_rev in E. lia.
Qed.

Lemma firstn_len_app {A} (a b : list A) : firstn (List.length a) (a ++ b) = a.
Proof. induction a as [|x t IH]; simpl; [now destruct b | now rewrite IH]. Qed.

Lemma skipn_len_app {A} (a b : list A) : skipn (List.length a) (a ++ b) = b.
Proof. induction a as [|x t IH]; simpl; [reflexivity | exact IH]. Qed.

Lemma is_dir_cases dir :
  is_dir dir = true -> dir = [] \/ exists d, dir = d ++ [SLASH].
Proof.
  unfold is_dir. intros H. destruct (rev dir) as [|c r] eqn:E.
  - left. apply (f_equal (@rev char)) in E. now rewrite rev_involutive in E.
  - right. apply N.eqb_eq in H. subst c. exists (rev r).
    apply (f_equal (@rev char)) in E. now rewrite rev_involutive in E.
Qed.

(** The last component of a path starts after its last slash. *)
Lemma sep_index dir rest :
  is_dir dir = true -> ~ In SLASH rest ->
  (rfind SLASH (dir ++ rest) + 1 = Z.of_nat (List.length dir))%Z.
Proof.
  intros Hd Hr. rewrite (rfind_app_clean SLASH dir rest Hr).
  destruct (is_dir_cases dir Hd) as [->|[d ->]].
  - reflexivity.
  - rewrite (rfind_last SLASH d []); [|intros []].
    rewrite length_app. cbn [List.length]. lia.
Qed.

Lemma not_in_app {A} (x : A) a b : ~ In x a -> ~ In x b -> ~ In x (a ++ b).
Proof. intros Ha Hb H. apply in_app_or in H. tauto. Qed.

Lemma slice_middle {A} (a b c : list A) :
  slice (List.length a) (List.length (a ++ b)) ((a ++ b) ++ c) = b.
Proof.
  unfold slice. now rewrite firstn_len_app, skipn_len_app.
Qed.

(** The extension of [name.e] in a directory, when [name] is not made
    of dots only. *)
Lemma splitext_shape dir name e :
  is_dir dir = true -> ~ In SLASH name -> ~ In SLASH e -> ~ In DOT e ->
  existsb (fun c => negb (c =? DOT)%N) name = true ->
  splitext (dir ++ name ++ DOT :: e) = (dir ++ name, DOT :: e).
Proof.
  intros Hd Hn He Hdot Hink. unfold splitext.
  assert (Hs : ~ In SLASH (name ++ DOT :: e)).
  { apply not_in_app; [exact Hn|]. intros [H|H]; [discriminate H | exact (He H)]. }
  pose proof (sep_index dir (name ++ DOT :: e) Hd Hs) as Es.
  assert (Ep : dir ++ name ++ DOT :: e = (dir ++ name) ++ DOT :: e)
    by now rewrite <- app_assoc.
  rewrite Ep in Es |- *.
  rewrite (rfind_last DOT (dir ++ name) e Hdot), Es.
  rewrite !Nat2Z.id, slice_middle, Hink, firstn_len_app, skipn_len_app.
  replace (rfind SLASH ((dir ++ name) ++ DOT :: e)
             <? Z.of_nat (List.length (dir ++ name)))%Z with true; [reflexivity|].
  symmetry. apply Z.ltb_lt. rewrite length_app. lia.
Qed.

(** No extension: the last component is some dots, then a name without
    a dot. *)
Lemma splitext_dots dir k rest :
  is_dir dir = true -> ~ In SLASH rest -> ~ In DOT rest ->
  splitext (dir ++ repeat DOT k ++ rest) = (dir ++ repeat DOT k ++ rest, []).
Proof.
  intros Hd Hr Hdot. unfold splitext.
  assert (Hrep : forall j, ~ In SLASH (repeat DOT j)).
  { intros j H. apply repeat_spec in H. discriminate H. }
  assert (Hs : ~ In SLASH (repeat DOT k ++ rest)) by (apply not_in_app; auto).
  pose proof (sep_index dir _ Hd Hs) as Es.
  destruct k as [|j].
  - cbn [repeat app] in *.
    rewrite (rfind_app_clean DOT dir rest Hdot).
    pose proof (rfind_lt DOT dir) as Hlt.
    replace (rfind SLASH (dir ++ rest) <? rfind DOT dir)%Z with false;
      [reflexivity|]. symmetry. apply Z.ltb_ge. lia.
  - assert (Ep : dir ++ repeat DOT (S j) ++ rest
                 = (dir ++ repeat DOT j) ++ DOT :: rest).
    { cbn [repeat]. rewrite repeat_cons, <- !app_assoc. reflexivity. }
    rewrite Ep in Es |- *.
    rewrite (rfind_last DOT (dir ++ repeat DOT j) rest Hdot), Es.
    rewrite !Nat2Z.id, slice_middle.
    replace (existsb (fun c => negb (c =? DOT)%N) (repeat DOT j)) with false;
      [now rewrite andb_false_r|].
    symmetry. clear. induction j as [|j IH]; [reflexivity|exact IH].
Qed.

Section Reading.
Context {U : UnicodeTables}.
Variable ner : option (pystr -> list (pystr * pystr)).
Variable E : Type.
Variable PDF_SUPPORT : bool.
Variable DOCX_SUPPORT : bool.
Variable pdf_pages : pystr -> E + list (option pystr).
Variable docx_paragraphs : pystr -> E + list pystr.
Variable read_text : pystr -> E + pystr.


(** X19. A file [name.e] whose extension is [pdf] in any letter case is not
    opened when pdfplumber is missing: [parse] raises [ImportError];
    likewise for [docx] and python-docx. *)
Theorem parse_missing_decoder now dir name e :
  is_dir dir = true -> ~ In SLASH name -> ~ In SLASH e -> ~ In DOT e ->
  existsb (fun c => negb (c =? DOT)%N) name = true ->
  (py_lower (DOT :: e) = str ".pdf" -> PDF_SUPPORT = false ->
   parse ner PDF_SUPPORT DOCX_SUPPORT pdf_pages docx_paragraphs read_text
       now (dir ++ name ++ DOT :: e) = inl (ImportError PDF_MISSING))
  /\ (py_lower (DOT :: e) = str ".docx" -> DOCX_SUPPORT = false ->
      parse ner PDF_SUPPORT DOCX_SUPPORT pdf_pages docx_paragraphs read_text
       now (dir ++ name ++ DOT :: e) = inl (ImportError DOCX_MISSING)).
Proof.
  intros Hd Hn He Hdot Hink. unfold parse.
  rewrite (splitext_shape dir name e Hd Hn He Hdot Hink). cbn [snd].
  split; intros -> ->; reflexivity.
Qed.

(** X20. A file whose last component is dots followed by a name without a
    dot (so [resume], and [.pdf] too), or [name.e] with an extension
    other than [pdf] and [docx], is read as plain text: [parse] rejects
    no file for its extension. *)
Theorem parse_other_files_as_text now dir :
  is_dir dir = true ->
  (forall k rest, ~ In SLASH rest -> ~ In DOT rest ->
     parse ner PDF_SUPPORT DOCX_SUPPORT pdf_pages docx_paragraphs read_text
       now (dir ++ repeat DOT k ++ rest)
     = parsed_text ner now (read_plain read_text (dir ++ repeat DOT k ++ rest)))
  /\ (forall name e,
        ~ In SLASH name -> ~ In SLASH e -> ~ In DOT e ->
        existsb (fun c => negb (c =? DOT)%N) name = true ->
        py_lower (DOT :: e) <> str ".pdf" ->
        py_lower (DOT :: e) <> str ".docx" ->
        parse ner PDF_SUPPORT DOCX_SUPPORT pdf_pages docx_paragraphs read_text
       now (dir ++ name ++ DOT :: e)
        = parsed_text ner now (read_plain read_text (dir ++ name ++ DOT :: e))).
Proof.
  intros Hd. split.
  - intros k rest Hr Hdot. unfold parse.
    rewrite (splitext_dots dir k rest Hd Hr Hdot). cbn [snd].
    assert (El : py_lower [] = []) by reflexivity.
    rewrite El. reflexivity.
  - intros name e Hn He Hdot Hink Hp Hx. unfold parse.
    rewrite (splitext_shape dir name e Hd Hn He Hdot Hink). cbn [snd].
    assert (T : forall a b : pystr, a <> b -> pystr_eqb a b = false).
    { intros a b H. unfold pystr_eqb.
      destruct (list_eq_dec N.eq_dec a b); [contradiction|reflexivity]. }
    now rewrite (T _ _ Hp), (T _ _ Hx).
Qed.

Lemma blank_firstn n s : blank s = true -> blank (firstn n s) = true.
Proof.
  unfold blank. rewrite !forallb_forall. intros H c Hc.
  apply H. exact (in_firstn n s c Hc).
Qed.

Lemma pages_text_blank pages : forall acc,
  blank acc = true ->
  forallb (fun page => blank (page_text page)) pages = true ->
  blank (fold_left (fun text page => text ++ (page_text page ++ [NL]))
           pages acc) = true.
Proof.
  induction pages as [|pg t IH]; intros acc Ha Hp; [exact Ha|].
  cbn [fold_left forallb] in *. apply andb_prop in Hp as [Hpg Ht].
  apply IH; [|exact Ht]. unfold blank in *.
  rewrite !forallb_app, Ha, Hpg. reflexivity.
Qed.

(** X21. A PDF whose pages hold no text, or blank text only -- a scan --
    is parsed without error to the empty result, with score 0. *)
Theorem parse_textless_pdf now dir name e pages :
  is_dir dir = true -> ~ In SLASH name -> ~ In SLASH e -> ~ In DOT e ->
  existsb (fun c => negb (c =? DOT)%N) name = true ->
  py_lower (DOT :: e) = str ".pdf" ->
  PDF_SUPPORT = true ->
  pdf_pages (dir ++ name ++ DOT :: e) = inr pages ->
  forallb (fun page => blank (page_text page)) pages = true ->
  (forall nlp t, ner = Some nlp -> blank t = true ->
                 first_person (nlp t) = None) ->
  parse ner PDF_SUPPORT DOCX_SUPPORT pdf_pages docx_paragraphs read_text
       now (dir ++ name ++ DOT :: e) = inr (empty_result now).
Proof.
  intros Hd Hn He Hdot Hink Hext Hsup Hpages Hblank Hner.
  unfold parse.
  rewrite (splitext_shape dir name e Hd Hn He Hdot Hink). cbn [snd].
  rewrite Hext. cbn [pystr_eqb]. 
  replace (pystr_eqb (str ".pdf") (str ".pdf")) with true by reflexivity.
  unfold _read_pdf. rewrite Hsup, Hpages. cbn [negb parsed_text].
  pose proof (pages_text_blank pages [] eq_refl Hblank) as Hb.
  rewrite (blank_text_result ner now _ Hb).
  - reflexivity.
  - intros nlp H. apply (Hner nlp _ H). now apply blank_firstn.
Qed.

End Reading.

Ltac absent :=
  let H := fresh in
  intros H; repeat (destruct H as [H|H]; [discriminate H|]); destruct H.

Lemma parse_missing_decoder_witness :
  parse None false false no_pages no_paragraphs one_text
    (str "2026-01-01T00:00:00") (str "uploads/" ++ str "CV" ++ DOT :: str "PDF")
  = inl (ImportError PDF_MISSING).
Proof.
  apply (proj1 (parse_missing_decoder None unit false false no_pages
                  no_paragraphs one_text (str "2026-01-01T00:00:00")
                  (str "uploads/") (str "CV") (str "PDF")
                  eq_refl ltac:(absent) ltac:(absent) ltac:(absent) eq_refl));
    reflexivity.
Defined.

Lemma parse_other_files_as_text_witness :
  parse None false false no_pages no_paragraphs one_text
    (str "2026-01-01T00:00:00") (str "uploads/" ++ repeat DOT 1 ++ str "pdf")
  = parsed_text None (str "2026-01-01T00:00:00")
      (read_plain one_text (str "uploads/" ++ repeat DOT 1 ++ str "pdf")).
Proof.
  apply (proj1 (parse_other_files_as_text None unit false false no_pages
                  no_paragraphs one_text (str "2026-01-01T00:00:00")
                  (str "uploads/") eq_refl) 1%nat (str "pdf")).
  - absent.
  - absent.
Defined.

Lemma parse_textless_pdf_witness :
  parse None true false scanned_pages no_paragraphs one_text
    (str "2026-01-01T00:00:00") (str "uploads/" ++ str "scan" ++ DOT :: str "pdf")
  = inr (empty_result (str "2026-01-01T00:00:00")).
Proof.
  apply (parse_textless_pdf None unit true false scanned_pages no_paragraphs
           one_text (str "2026-01-01T00:00:00")
           (str "uploads/") (str "scan") (str "pdf") [None; Some []]
           eq_refl ltac:(absent) ltac:(absent) ltac:(absent)
           eq_refl eq_refl eq_refl eq_refl eq_refl).
  intros nlp t H. discriminate H.
Defined.
